(** * Political-Evolution-Simulator: a shallow embedding and its properties

    The repository holds two variants of one evolutionary election model:

    - [Detailed]  : [political_evolution_simulator/Political Simulation.py]
                    (plurality winner, fixed-quota inclusion belief);
    - [Prototype] : [protoype.py]
                    (coalition-quota winner, observed-support belief).

    Conventions of the embedding.

    - Python [int]s are [Z]; Python and NumPy floats are idealised as exact
      rationals [Q] (no rounding, no NaN, no infinities).  Comparisons are
      the numeric ones, so a tie between two floats is [Qeq].  The one
      exception is the product [N_VOTERS * RATIO_OF_VOTERS] that [int]
      truncates when the detailed simulator is built: there the rounding
      decides an integer on everyday inputs ([int(10 * 0.7)] is 7), so the
      product is rounded as binary64 arithmetic rounds it ([float_mul]).
    - Exceptions are values of [error]; a computation that may raise has
      type [result A].
    - The seeded global NumPy generator is a [RandomState] oracle indexed
      by the number of draws made so far; functions that draw take that
      position and return the next one. *)

From Stdlib Require Import QArith Qround Qminmax Qabs Lqa.
From stdpp Require Import base option list gmap sets.

Local Open Scope Z_scope.

(** ** Python exceptions as an error monad *)

Inductive error : Set :=
| ValueError
| ZeroDivisionError
| IndexError.

Inductive result (A : Type) : Type :=
| Ok (a : A)
| Err (e : error).
Arguments Ok {A} a.
Arguments Err {A} e.

#[global] Instance result_ret : MRet result := fun _ a => Ok a.
#[global] Instance result_bind : MBind result :=
  fun _ _ f m => match m with Ok a => f a | Err e => Err e end.

Definition is_Ok {A} (r : result A) : Prop := ∃ a, r = Ok a.
Definition is_Err {A} (r : result A) : Prop := ∃ e, r = Err e.

(** ** Numbers *)

(** [a / b] on Python numbers: true division, raising on a zero divisor. *)
Definition py_truediv (a b : Q) : result Q :=
  if Qeq_bool b 0 then Err ZeroDivisionError else Ok (a / b)%Q.

(** [int(x)]: truncation towards zero. *)
Definition py_int (x : Q) : Z := Z.quot (Qnum x) (Z.pos (Qden x)).

(** The integer nearest to [x], the even one of the two on a tie. *)
Definition round_half_even (x : Q) : Z :=
  let f := Qfloor x in
  match (x - inject_Z f ?= 1 # 2)%Q with
  | Lt => f
  | Gt => f + 1
  | Eq => if Z.even f then f else f + 1
  end.

(** For [x] other than zero, the exponent [e] of the last place of a 53-bit
    significand: [2 ^ 52 <= |x| / 2 ^ e < 2 ^ 53]. *)
Definition ulp_exponent (x : Q) : Z :=
  let e := Z.log2 (Z.abs (Qnum x)) - Z.log2 (Z.pos (Qden x)) - 52 in
  if Qle_bool (2 ^ (e + 52)) (Qabs x) then e else e - 1.

(** The binary64 number nearest to [x], ties to the even significand: what
    a float operation with the exact result [x] returns.  The exponent
    range is not bounded: magnitudes from [2 ^ 1024] on, where Python
    raises [OverflowError] or returns [inf], are outside the model. *)
Definition binary64 (x : Q) : Q :=
  if Qeq_bool x 0 then 0%Q
  else let e := ulp_exponent x in
       (inject_Z (round_half_even (x / 2 ^ e)) * 2 ^ e)%Q.

(** [float(n)], the conversion [n * x] applies to an [int] operand. *)
Definition float_of_int (n : Z) : Q := binary64 (inject_Z n).

(** [x * y] on floats. *)
Definition float_mul (x y : Q) : Q := binary64 (x * y).

(** [x < y] and [x <= y] as booleans. *)
Definition Qltb (x y : Q) : bool := negb (Qle_bool y x).
Definition Qleb (x y : Q) : bool := Qle_bool x y.

(** [np.clip(x, lo, hi)] is [minimum(maximum(x, lo), hi)]. *)
Definition clip (x lo hi : Q) : Q := Qmin (Qmax x lo) hi.

(** ** Sequences *)

(** [l[i] = x] on a Python list, for a non-negative index. *)
Definition setitem {A} (l : list A) (i : nat) (x : A) : result (list A) :=
  if decide (i < length l)%nat then Ok (<[i := x]> l) else Err IndexError.

(** [l[i]] on a Python list, for a non-negative index. *)
Definition getitem {A} (l : list A) (i : nat) : result A :=
  match l !! i with Some x => Ok x | None => Err IndexError end.

(** [[x] * n]: the empty list when [n] is not positive. *)
Definition py_repeat {A} (x : A) (n : Z) : list A := replicate (Z.to_nat n) x.

(** [range(n)]. *)
Definition py_range (n : Z) : list nat := seq 0 (Z.to_nat n).

(** [l[:k]]: a negative [k] counts from the end. *)
Definition py_prefix {A} (l : list A) (k : Z) : list A :=
  if k <? 0 then take (Z.to_nat (Z.of_nat (length l) + k)) l
  else take (Z.to_nat k) l.

(** [enumerate(l)]. *)
Definition enumerate {A} (l : list A) : list (nat * A) := zip (seq 0 (length l)) l.

(** A [for] loop whose body may raise, threading an accumulator. *)
Fixpoint foldM {A S} (body : S → A → result S) (l : list A) (s : S) : result S :=
  match l with
  | [] => Ok s
  | x :: l' => s' ← body s x; foldM body l' s'
  end.

(** [np.argmax]: the index of the first maximal element; raises on an empty
    sequence.  [ltb] is the strict order of the element type. *)
Section Argmax.
Context {A : Type} (ltb : A → A → bool).

Fixpoint argmax_from (best : A) (bi i : nat) (l : list A) : nat :=
  match l with
  | [] => bi
  | x :: l' =>
      if ltb best x then argmax_from x i (S i) l'
      else argmax_from best bi (S i) l'
  end.

Definition argmax (l : list A) : result nat :=
  match l with
  | [] => Err ValueError
  | x :: l' => Ok (argmax_from x 0%nat 1%nat l')
  end.
End Argmax.

(** [np.bincount(ballots, minlength=m)]: raises on a negative [minlength];
    otherwise the vector has [max(m, 1 + max(ballots))] entries. *)
Definition bincount (ballots : list nat) (minlength : Z) : result (list nat) :=
  if minlength <? 0 then Err ValueError
  else
    let n := Nat.max (Z.to_nat minlength) (foldr (λ b m, Nat.max (S b) m) 0%nat ballots) in
    Ok (map (λ c, length (filter (λ b, b = c) ballots)) (seq 0 n)).

(** ** The seeded random source *)

Record RandomState : Type := {
  (** the standard normal deviate behind the [k]-th draw *)
  standard_normal : nat → Q;
  (** the uniform deviate in [0,1) behind the [k]-th draw *)
  random_sample : nat → Q;
  (** the [k]-th draw of [np.random.choice] from a two-element list *)
  coin : nat → bool;
  (** the order [np.random.shuffle] leaves a list in at the [k]-th draw *)
  shuffled : nat → list nat → list nat;
}.

(** What NumPy guarantees of the generator. *)
Record RandomState_ok (rs : RandomState) : Prop := {
  random_sample_range : ∀ k, (0 <= random_sample rs k)%Q ∧ (random_sample rs k < 1)%Q;
  shuffled_perm : ∀ k l, shuffled rs k l ≡ₚ l;
}.

(** [np.random.normal(loc, scale)]: raises on a negative scale. *)
Definition normal (rs : RandomState) (loc scale : Q) (k : nat) : result (Q * nat) :=
  if Qltb scale 0 then Err ValueError
  else Ok ((loc + scale * standard_normal rs k)%Q, S k).

(** [np.random.uniform(low, high)]. *)
Definition uniform (rs : RandomState) (low high : Q) (k : nat) : Q * nat :=
  ((low + (high - low) * random_sample rs k)%Q, S k).

Inductive RiskType : Set := safe | risk.

#[global] Instance RiskType_eq_dec : EqDecision RiskType.
Proof. solve_decision. Defined.

(** * The detailed variant: [Political Simulation.py] *)

Module Detailed.

(** The module-level constants of the script. *)
Record Params : Type := {
  N_VOTERS : Z;
  N_CANDIDATES : Z;
  MAX_GENERATIONS : Z;
  RESOURCE_POOL : Z;
  PUBLIC_GOODS_MUT_STD : Q;
  POLICY_MUT_STD : Q;
  THETA : Q;
  TAU : Q;
  PHI : Q;
  WINNING_COALITION_SIZE : Z;
  RATIO_OF_VOTERS : Q;
}.

(** The values the script ships with. *)
Definition shipped : Params := {|
  N_VOTERS := 100;
  N_CANDIDATES := 4;
  MAX_GENERATIONS := 200;
  RESOURCE_POOL := 1000;
  PUBLIC_GOODS_MUT_STD := 5 # 100;
  POLICY_MUT_STD := 2;
  THETA := 15;
  TAU := 6 # 10;
  PHI := 3 # 10;
  WINNING_COALITION_SIZE := 25;
  RATIO_OF_VOTERS := 5 # 10;
|}.

Record Voter : Type := {
  v_ideology : Q;
  v_risk_type : RiskType;
  v_included : list bool;
}.

Record Candidate : Type := {
  c_ideology : Q;
  c_alpha : Q;
}.

Record Sim : Type := {
  voters : list Voter;
  candidates : list Candidate;
}.

(** One entry of [vote_info]. *)
Record VoteInfo : Type := {
  vi_voter_id : nat;
  vi_risk_type : RiskType;
  vi_utilities : list Q;
  vi_included : list bool;
  vi_ballot : nat;
}.

(** One row of [candidate_records]. *)
Record CandidateRecord : Type := {
  cr_generation : nat;
  cr_candidate_id : nat;
  cr_ideology : Q;
  cr_alpha : Q;
  cr_is_winner : bool;
}.

(** One row of [election_summary]. *)
Record SummaryRecord : Type := {
  es_generation : nat;
  es_vote_counts : list nat;
  es_winner_idx : nat;
}.

(** The four [cand{cid}_*] columns of one candidate in a row of
    [vote_records]. *)
Record CandidateColumns : Type := {
  col_ideology : Q;
  col_alpha : Q;
  col_included : bool;
  col_utility : Q;
}.

(** One row of [vote_records]. *)
Record VoteRecord : Type := {
  vr_generation : nat;
  vr_voter_id : nat;
  vr_risk_type : RiskType;
  vr_voted_for : nat;
  vr_voter_ideology : Q;
  vr_vote_counts : list nat;
  vr_winner_idx : nat;
  vr_candidates : list CandidateColumns;
}.

Section WithParams.
Context (P : Params) (rs : RandomState).

(** [Voter.__init__] *)
Definition new_Voter (ideology : Q) (risk_type : RiskType) : Voter :=
  {| v_ideology := ideology;
     v_risk_type := risk_type;
     v_included := py_repeat false (N_CANDIDATES P) |}.

Definition set_included (self : Voter) (inc : list bool) : Voter :=
  {| v_ideology := v_ideology self;
     v_risk_type := v_risk_type self;
     v_included := inc |}.

(** [Voter.utility] *)
Definition utility (self : Voter) (cand_ideo cand_alpha : Q) (cid : nat) : result Q :=
  let pay_ideo := ((v_ideology self - cand_ideo) ^ 2)%Q in
  share ← py_truediv (inject_Z (RESOURCE_POOL P)) (inject_Z (N_VOTERS P));
  let pay_public := (cand_alpha * share)%Q in
  inc ← getitem (v_included self) cid;
  pay_private ←
    (if inc : bool then
       prize ← py_truediv (inject_Z (RESOURCE_POOL P))
                          (inject_Z (WINNING_COALITION_SIZE P));
       Ok ((1 - cand_alpha) * prize)%Q
     else Ok 0%Q);
  Ok (pay_ideo + pay_public + pay_private)%Q.

(** The test [Voter.inclusion] evaluates. *)
Definition believes (self : Voter) (coal_prob cand_ideo : Q) : bool :=
  let dist := Qabs (v_ideology self - cand_ideo) in
  let thresh := if decide (v_risk_type self = risk) then TAU P else PHI P in
  Qleb dist (THETA P) && Qleb thresh coal_prob.

(** [Voter.inclusion]: stores the belief in [included[cid]] and returns it. *)
Definition inclusion (self : Voter) (cid : nat) (coal_prob cand_ideo : Q)
  : result (Voter * bool) :=
  let b := believes self coal_prob cand_ideo in
  inc ← setitem (v_included self) cid b;
  let self' := set_included self inc in
  b' ← getitem (v_included self') cid;
  Ok (self', b').

(** [Candidate.mutate] *)
Definition mutate (self : Candidate) (mutate_ideology : bool) (k : nat)
  : result (Candidate * nat) :=
  '(da, k1) ← normal rs 0 (PUBLIC_GOODS_MUT_STD P) k;
  let new_alpha := clip (c_alpha self + da) 0 1 in
  '(new_ideo, k2) ←
    (if mutate_ideology then
       '(di, k2) ← normal rs 0 (POLICY_MUT_STD P) k1;
       Ok ((c_ideology self + di)%Q, k2)
     else Ok (c_ideology self, k1));
  let new_ideo := clip new_ideo (-100) 100 in
  Ok ({| c_ideology := new_ideo; c_alpha := new_alpha |}, k2).

(** [DetailedElectionSim.__init__] *)
Definition init (k : nat) : result (Sim * nat) :=
  let n_safe := py_int (float_mul (float_of_int (N_VOTERS P)) (RATIO_OF_VOTERS P)) in
  let types := py_repeat safe n_safe ++ py_repeat risk (N_VOTERS P - n_safe) in
  '(vs, k1) ← foldM (λ '(vs, k) i,
                 let '(x, k') := uniform rs 0 100 k in
                 t ← getitem types i;
                 Ok (vs ++ [new_Voter x t], k'))
               (py_range (N_VOTERS P)) ([], k);
  let '(cs, k2) := foldl (λ '(cs, k) _,
                     let '(x, k') := uniform rs 0 100 k in
                     let '(a, k'') := uniform rs 0 1 k' in
                     (cs ++ [{| c_ideology := x; c_alpha := a |}], k''))
                   ([], k1) (py_range (N_CANDIDATES P)) in
  Ok ({| voters := vs; candidates := cs |}, k2).

(** The inner loop of [run_generation_detailed]: one voter looks at every
    candidate in turn. *)
Definition evaluate (cands : list Candidate) (v : Voter) : result (Voter * list Q) :=
  foldM (λ '(v, utils) '(cid, c),
      coal_prob ← py_truediv (inject_Z (WINNING_COALITION_SIZE P))
                             (inject_Z (N_VOTERS P));
      '(v', _) ← inclusion v cid coal_prob (c_ideology c);
      u ← utility v' (c_ideology c) (c_alpha c) cid;
      Ok (v', utils ++ [u]))
    (enumerate cands)
    (set_included v (py_repeat false (N_CANDIDATES P)), []).

(** The body of the outer loop: one voter casts a ballot. *)
Definition cast_ballot (cands : list Candidate)
    (acc : list Voter * list nat * list VoteInfo) (x : nat * Voter)
  : result (list Voter * list nat * list VoteInfo) :=
  let '(vs, ballots, vote_info) := acc in
  let '(vid, v) := x in
  '(v', utils) ← evaluate cands v;
  choice ← argmax Qltb utils;
  Ok (vs ++ [v'], ballots ++ [choice],
      vote_info ++ [{| vi_voter_id := vid;
                       vi_risk_type := v_risk_type v';
                       vi_utilities := utils;
                       vi_included := v_included v';
                       vi_ballot := choice |}]).

(** The replacement loop: every slot but the winner's is overwritten by a
    mutation of the winner. *)
Definition replace_loser (winner_idx : nat) (acc : list Candidate * nat) (cid : nat)
  : result (list Candidate * nat) :=
  let '(cands, k) := acc in
  if decide (cid ≠ winner_idx) then
    w ← getitem cands winner_idx;
    '(c, k') ← mutate w true k;
    cands' ← setitem cands cid c;
    Ok (cands', k')
  else Ok (cands, k).

(** The first loop of [run_generation_detailed]: every voter in turn. *)
Definition poll (s : Sim) : result (list Voter * list nat * list VoteInfo) :=
  foldM (cast_ballot (candidates s)) (enumerate (voters s)) ([], [], []).

(** The second loop of [run_generation_detailed]. *)
Definition replace_losers (winner_idx : nat) (cands : list Candidate) (k : nat)
  : result (list Candidate * nat) :=
  foldM (replace_loser winner_idx) (py_range (N_CANDIDATES P)) (cands, k).

(** [DetailedElectionSim.run_generation_detailed] *)
Definition run_generation_detailed (s : Sim) (k : nat)
  : result (list VoteInfo * list nat * nat * Sim * nat) :=
  '(vs, ballots, vote_info) ← poll s;
  counts ← bincount ballots (N_CANDIDATES P);
  winner_idx ← argmax Nat.ltb counts;
  '(cands, k') ← replace_losers winner_idx (candidates s) k;
  Ok (vote_info, counts, winner_idx, {| voters := vs; candidates := cands |}, k').

(** The rows one generation adds to [candidate_records]. *)
Definition candidate_rows (gen winner : nat) (cands : list Candidate)
  : list CandidateRecord :=
  map (λ '(cid, c),
        {| cr_generation := gen;
           cr_candidate_id := cid;
           cr_ideology := c_ideology c;
           cr_alpha := c_alpha c;
           cr_is_winner := bool_decide (cid = winner) |})
      (enumerate cands).

(** The four columns candidate [cid] adds to a row of [vote_records]. *)
Definition add_columns (info : VoteInfo) (cols : list CandidateColumns)
    (x : nat * Candidate) : result (list CandidateColumns) :=
  let '(cid, c) := x in
  inc ← getitem (vi_included info) cid;
  u ← getitem (vi_utilities info) cid;
  Ok (cols ++ [{| col_ideology := c_ideology c;
                  col_alpha := c_alpha c;
                  col_included := inc;
                  col_utility := u |}]).

(** The row one [vote_info] entry adds to [vote_records]. *)
Definition vote_row (gen : nat) (s : Sim) (counts : list nat) (winner : nat)
    (info : VoteInfo) : result VoteRecord :=
  v ← getitem (voters s) (vi_voter_id info);
  cols ← foldM (add_columns info) (enumerate (candidates s)) [];
  Ok {| vr_generation := gen;
        vr_voter_id := vi_voter_id info;
        vr_risk_type := vi_risk_type info;
        vr_voted_for := vi_ballot info;
        vr_voter_ideology := v_ideology v;
        vr_vote_counts := counts;
        vr_winner_idx := winner;
        vr_candidates := cols |}.

(** What the recorder has accumulated. *)
Record Tables : Type := {
  vote_records : list VoteRecord;
  election_summary : list SummaryRecord;
  candidate_records : list CandidateRecord;
}.

(** The last loop of the body of [run_simulation_detailed]. *)
Definition add_vote_row (gen : nat) (s : Sim) (counts : list nat) (winner : nat)
    (vrs : list VoteRecord) (info : VoteInfo) : result (list VoteRecord) :=
  r ← vote_row gen s counts winner info;
  Ok (vrs ++ [r]).

(** The body of the loop of [run_simulation_detailed]. *)
Definition record_generation (acc : Sim * nat * Tables) (gen : nat)
  : result (Sim * nat * Tables) :=
  let '(s, k, t) := acc in
  '(vote_info, counts, winner, s', k') ← run_generation_detailed s k;
  let crs := candidate_rows gen winner (candidates s') in
  let es := {| es_generation := gen; es_vote_counts := counts; es_winner_idx := winner |} in
  vrs ← foldM (add_vote_row gen s' counts winner) vote_info [];
  Ok (s', k',
      {| vote_records := vote_records t ++ vrs;
         election_summary := election_summary t ++ [es];
         candidate_records := candidate_records t ++ crs |}).

(** [DetailedElectionSim.run_simulation_detailed] *)
Definition run_simulation_detailed (s : Sim) (k : nat) : result (Sim * nat * Tables) :=
  foldM record_generation (py_range (MAX_GENERATIONS P))
    (s, k, {| vote_records := []; election_summary := []; candidate_records := [] |}).

(** The script: build the simulator, then run it.  The CSV export and the
    plots that follow in the script are not part of the model. *)
Definition main (k : nat) : result (Sim * nat * Tables) :=
  '(s, k') ← init k;
  run_simulation_detailed s k'.

(** *** Vocabulary for the properties of this variant *)

(** The shape [__init__] gives the simulator and every generation keeps. *)
Definition wf (s : Sim) : Prop :=
  length (voters s) = Z.to_nat (N_VOTERS P)
  ∧ length (candidates s) = Z.to_nat (N_CANDIDATES P).

(** The threshold a voter of a given risk type applies. *)
Definition threshold (t : RiskType) : Q :=
  match t with risk => TAU P | safe => PHI P end.

(** The inclusion belief of voter [v] about candidate [c] during a
    generation, under the fixed-quota estimate. *)
Definition belief (v : Voter) (c : Candidate) : bool :=
  believes v (inject_Z (WINNING_COALITION_SIZE P) / inject_Z (N_VOTERS P))%Q
    (c_ideology c).

(** The utility voter [v] assigns to candidate [c] during a generation. *)
Definition payoff (v : Voter) (c : Candidate) : Q :=
  ((v_ideology v - c_ideology c) ^ 2
   + c_alpha c * (inject_Z (RESOURCE_POOL P) / inject_Z (N_VOTERS P))
   + (if belief v c
      then (1 - c_alpha c)
           * (inject_Z (RESOURCE_POOL P) / inject_Z (WINNING_COALITION_SIZE P))
      else 0))%Q.

(** The state of the inner loop of a generation once voter [v] has looked
    at the candidates [seen]. *)
Definition evaluated (v : Voter) (seen : list Candidate) (st : Voter * list Q) : Prop :=
  st.1 = set_included v
           (map (belief v) seen
            ++ replicate (Z.to_nat (N_CANDIDATES P) - length seen) false)
  ∧ st.2 = map (payoff v) seen
  ∧ (length seen ≤ Z.to_nat (N_CANDIDATES P))%nat.

(** The [included] scratch list voter [v] ends a generation with. *)
Definition scratch (cands : list Candidate) (v : Voter) : list bool :=
  map (belief v) cands
  ++ replicate (Z.to_nat (N_CANDIDATES P) - length cands) false.

(** The entry voter [v], at position [vid], leaves in [vote_info] when it
    casts ballot [b]. *)
Definition info_of (cands : list Candidate) (vid : nat) (v : Voter) (b : nat)
  : VoteInfo :=
  {| vi_voter_id := vid;
     vi_risk_type := v_risk_type v;
     vi_utilities := map (payoff v) cands;
     vi_included := scratch cands v;
     vi_ballot := b |}.

(** The state of the outer loop of a generation once the voters [seen]
    have voted. *)
Definition polled (cands : list Candidate) (seen : list Voter)
    (st : list Voter * list nat * list VoteInfo) : Prop :=
  length st.1.1 = length seen
  ∧ length st.1.2 = length seen
  ∧ length st.2 = length seen
  ∧ ∀ vid v, seen !! vid = Some v →
      ∃ b, argmax Qltb (map (payoff v) cands) = Ok b
           ∧ st.1.2 !! vid = Some b
           ∧ st.2 !! vid = Some (info_of cands vid v b)
           ∧ st.1.1 !! vid = Some (set_included v (scratch cands v)).

(** The draw position at which the mutation stored in slot [cid] starts,
    when the replacement loop starts at position [k]: every earlier loser
    has consumed two normal draws. *)
Definition draw_of (k winner_idx cid : nat) : nat :=
  (k + 2 * (if decide (cid < winner_idx)%nat then cid else cid - 1))%nat.

(** The per-candidate columns of a row of [vote_records] built from the
    entry [info] while the population is [cands]: ideology and alpha are
    read from [cands], inclusion and utility from [info]. *)
Definition columns_of (cands : list Candidate) (info : VoteInfo)
    (cols : list CandidateColumns) : Prop :=
  length cols = length cands
  ∧ ∀ cid c, cands !! cid = Some c →
      ∃ inc u, vi_included info !! cid = Some inc
               ∧ vi_utilities info !! cid = Some u
               ∧ cols !! cid = Some {| col_ideology := c_ideology c;
                                       col_alpha := c_alpha c;
                                       col_included := inc;
                                       col_utility := u |}.

(** [r] is the row of [vote_records] built from the entry [info] in
    generation [gen], while the simulator is in state [s]. *)
Definition row_of (gen : nat) (s : Sim) (counts : list nat) (winner : nat)
    (info : VoteInfo) (r : VoteRecord) : Prop :=
  vr_generation r = gen
  ∧ vr_voter_id r = vi_voter_id info
  ∧ vr_risk_type r = vi_risk_type info
  ∧ vr_voted_for r = vi_ballot info
  ∧ (∃ v, voters s !! vi_voter_id info = Some v ∧ vr_voter_ideology r = v_ideology v)
  ∧ vr_vote_counts r = counts
  ∧ vr_winner_idx r = winner
  ∧ columns_of (candidates s) info (vr_candidates r).

(** [vrs] are the rows built from the entries [infos], in order. *)
Definition rows_of (gen : nat) (s : Sim) (counts : list nat) (winner : nat)
    (infos : list VoteInfo) (vrs : list VoteRecord) : Prop :=
  length vrs = length infos
  ∧ ∀ i info, infos !! i = Some info →
      ∃ r, vrs !! i = Some r ∧ row_of gen s counts winner info r.

(** The candidate [mutate] returns for [self] from the draws at positions
    [k] and [k + 1], when neither draw raises. *)
Definition offspring (self : Candidate) (k : nat) : Candidate :=
  {| c_ideology :=
       clip (c_ideology self + (0 + POLICY_MUT_STD P * standard_normal rs (S k)))
            (-100) 100;
     c_alpha :=
       clip (c_alpha self + (0 + PUBLIC_GOODS_MUT_STD P * standard_normal rs k))
            0 1 |}%Q.

(** The state of the replacement loop once the slots below [j] have been
    visited: [winner] still sits in its slot, every other visited slot
    holds its own offspring of [winner], the rest is untouched. *)
Definition replaced (k winner_idx : nat) (cands0 : list Candidate)
    (winner : Candidate) (j : nat) (st : list Candidate * nat) : Prop :=
  length st.1 = length cands0
  ∧ st.1 !! winner_idx = Some winner
  ∧ st.2 = (k + 2 * (if decide (j ≤ winner_idx)%nat then j else j - 1))%nat
  ∧ (∀ cid, (cid < j)%nat → cid ≠ winner_idx →
       st.1 !! cid = Some (offspring winner (draw_of k winner_idx cid)))
  ∧ (∀ cid, (j ≤ cid)%nat → st.1 !! cid = cands0 !! cid).

(** A line of descent: each candidate is the [mutate] of the previous one,
    with the given [mutate_ideology] flags. *)
Fixpoint mutations (self : Candidate) (flags : list bool) (k : nat)
  : result (Candidate * nat) :=
  match flags with
  | [] => Ok (self, k)
  | flag :: flags' => '(c, k') ← mutate self flag k; mutations c flags' k'
  end.

(** The configurations section 7 of the specification calls valid. *)
Definition accepted : Prop :=
  1 <= N_CANDIDATES P
  ∧ 1 <= N_VOTERS P
  ∧ (0 <= PUBLIC_GOODS_MUT_STD P)%Q
  ∧ (0 <= POLICY_MUT_STD P)%Q
  ∧ (0 <= THETA P)%Q
  ∧ WINNING_COALITION_SIZE P <= N_VOTERS P.

(** Configurations on which no operation of a run can raise. *)
Definition runnable : Prop :=
  1 <= N_CANDIDATES P
  ∧ (0 <= PUBLIC_GOODS_MUT_STD P)%Q
  ∧ (0 <= POLICY_MUT_STD P)%Q
  ∧ (1 <= N_VOTERS P → WINNING_COALITION_SIZE P ≠ 0).

(** A candidate inside the domain [mutate] clips to. *)
Definition in_bounds (c : Candidate) : Prop :=
  (0 <= c_alpha c)%Q ∧ (c_alpha c <= 1)%Q
  ∧ (-100 <= c_ideology c)%Q ∧ (c_ideology c <= 100)%Q.

End WithParams.

End Detailed.

(** * The prototype variant: [protoype.py] *)

Module Prototype.

(** The module-level constants of the script. *)
Record Params : Type := {
  N_VOTERS : Z;
  N_CANDIDATES : Z;
  N_GENERATIONS : Z;
  RESOURCE_POOL : Z;
  PUBLIC_GOODS_MUT_STD : Q;
  POLICY_MUT_STD : Q;
  THETA : Q;
  TAU : Q;
  PHI : Q;
}.

(** The values the script ships with. *)
Definition shipped : Params := {|
  N_VOTERS := 100;
  N_CANDIDATES := 4;
  N_GENERATIONS := 2000;
  RESOURCE_POOL := 1000;
  PUBLIC_GOODS_MUT_STD := 5 # 100;
  POLICY_MUT_STD := 2;
  THETA := 15;
  TAU := 6 # 10;
  PHI := 3 # 10;
|}.

Record Voter : Type := {
  v_ideology : Q;
  v_risk_type : RiskType;
}.

Record Candidate : Type := {
  c_policy : Q;
  c_alpha : Q;
  c_supporters : gset nat;
  c_winning_coalition : gset nat;
}.

Record Sim : Type := {
  voters : list Voter;
  candidates : list Candidate;
}.

(** One entry of [history]. *)
Record HistoryRecord : Type := {
  h_generation : nat;
  h_winner_policy : Q;
  h_winner_alpha : Q;
  h_coalition_sizes : list nat;
}.

(** [Candidate.__init__] *)
Definition new_Candidate (policy alpha : Q) : Candidate :=
  {| c_policy := policy;
     c_alpha := alpha;
     c_supporters := ∅;
     c_winning_coalition := ∅ |}.

Section WithParams.
Context (P : Params) (rs : RandomState).

(** [Voter.utility] *)
Definition utility (self : Voter) (candidate : Candidate) (coalition_prob : Q)
    (included : bool) : result Q :=
  let policy_loss := (- (v_ideology self - c_policy candidate) ^ 2)%Q in
  share ← py_truediv (inject_Z (RESOURCE_POOL P)) (inject_Z (N_VOTERS P));
  let public_payoff := (c_alpha candidate * share)%Q in
  private_payoff ←
    (if included then
       prize ← py_truediv (inject_Z (RESOURCE_POOL P)) (inject_Z (N_VOTERS P));
       Ok ((1 - c_alpha candidate) * prize)%Q
     else Ok 0%Q);
  Ok (policy_loss + public_payoff + private_payoff)%Q.

(** [Voter.inclusion] *)
Definition inclusion (self : Voter) (candidate : Candidate) (coalition_prob : Q) : bool :=
  let max_dist := THETA P in
  let threshold := if decide (v_risk_type self = risk) then TAU P else PHI P in
  Qleb (Qabs (v_ideology self - c_policy candidate)) max_dist
  && Qleb threshold coalition_prob.

(** [Candidate.mutate] *)
Definition mutate (self : Candidate) (mutate_policy : bool) (k : nat)
  : result (Candidate * nat) :=
  '(da, k1) ← normal rs 0 (PUBLIC_GOODS_MUT_STD P) k;
  let new_alpha := clip (c_alpha self + da) 0 1 in
  '(new_policy, k2) ←
    (if mutate_policy then
       '(dp, k2) ← normal rs 0 (POLICY_MUT_STD P) k1;
       Ok ((c_policy self + dp)%Q, k2)
     else Ok (c_policy self, k1));
  let new_policy := clip new_policy 0 100 in
  Ok (new_Candidate new_policy new_alpha, k2).

(** [ElectionSim.__init__] *)
Definition init (k : nat) : Sim * nat :=
  let '(vs, k1) := foldl (λ '(vs, k) _,
                     let '(x, k') := uniform rs 0 100 k in
                     let t := if coin rs k' then risk else safe in
                     (vs ++ [{| v_ideology := x; v_risk_type := t |}], S k'))
                   ([], k) (py_range (N_VOTERS P)) in
  let '(cs, k2) := foldl (λ '(cs, k) _,
                     let '(x, k') := uniform rs 0 100 k in
                     let '(a, k'') := uniform rs 0 1 k' in
                     (cs ++ [new_Candidate x a], k''))
                   ([], k1) (py_range (N_CANDIDATES P)) in
  ({| voters := vs; candidates := cs |}, k2).

(** The estimate a voter forms of a candidate's coalition:
    [len(wc) / N_VOTERS if wc else 1 / N_VOTERS]. *)
Definition coalition_prob_of (candidate : Candidate) : result Q :=
  if decide (c_winning_coalition candidate ≠ ∅) then
    py_truediv (inject_Z (Z.of_nat (size (c_winning_coalition candidate))))
               (inject_Z (N_VOTERS P))
  else py_truediv 1 (inject_Z (N_VOTERS P)).

(** Step 1, inner loop: the utilities one voter assigns. *)
Definition evaluate (cands : list Candidate) (voter : Voter) : result (list Q) :=
  foldM (λ utilities candidate,
      coalition_prob ← coalition_prob_of candidate;
      let included := inclusion voter candidate coalition_prob in
      u ← utility voter candidate coalition_prob included;
      Ok (utilities ++ [u]))
    cands [].

(** Step 1, outer loop body. *)
Definition cast_ballot (cands : list Candidate) (ballots : list nat) (voter : Voter)
  : result (list nat) :=
  utilities ← evaluate cands voter;
  chosen ← argmax Qltb utilities;
  Ok (ballots ++ [chosen]).

(** [{i for i, b in enumerate(ballots) if b == idx}] *)
Definition supporters_of (ballots : list nat) (idx : nat) : gset nat :=
  list_to_set (map fst (filter (λ ib, ib.2 = idx) (enumerate ballots))).

(** Step 2, loop body: count support and form the winning coalition. *)
Definition form_coalition (ballots : list nat) (acc : list Candidate * nat)
    (x : nat * Candidate) : list Candidate * nat :=
  let '(cs, k) := acc in
  let '(idx, candidate) := x in
  let supporters := supporters_of ballots idx in
  let coalition_size := py_int ((5 # 10) * inject_Z (N_VOTERS P)) in
  let supporters_list := shuffled rs k (elements supporters) in
  (cs ++ [{| c_policy := c_policy candidate;
             c_alpha := c_alpha candidate;
             c_supporters := supporters;
             c_winning_coalition := list_to_set (py_prefix supporters_list coalition_size) |}],
   S k).

(** Step 4: [new_candidates = [winner]], then one mutated copy of the
    winner is appended while the list is shorter than [N_CANDIDATES]. *)
Definition replicate_winner (winner : Candidate) (mutate_policy : bool) (k : nat)
  : result (list Candidate * nat) :=
  foldM (λ '(new_candidates, k) _,
      '(new_cand, k') ← mutate winner mutate_policy k;
      Ok (new_candidates ++ [new_cand], k'))
    (py_range (N_CANDIDATES P - 1)) ([winner], k).

(** Step 1 of [run_generation]: every voter in turn. *)
Definition poll (s : Sim) : result (list nat) :=
  foldM (cast_ballot (candidates s)) (voters s) [].

(** Step 2 of [run_generation]: every candidate in turn. *)
Definition count_support (ballots : list nat) (cands : list Candidate) (k : nat)
  : list Candidate * nat :=
  foldl (form_coalition ballots) ([], k) (enumerate cands).

(** [ElectionSim.run_generation] *)
Definition run_generation (s : Sim) (mutate_policy : bool) (k : nat)
  : result (Candidate * list nat * Sim * nat) :=
  ballots ← poll s;
  let '(cands, k1) := count_support ballots (candidates s) k in
  let coalition_sizes := map (λ c, size (c_winning_coalition c)) cands in
  winner_idx ← argmax Nat.ltb coalition_sizes;
  winner ← getitem cands winner_idx;
  '(new_candidates, k2) ← replicate_winner winner mutate_policy k1;
  Ok (winner, coalition_sizes, {| voters := voters s; candidates := new_candidates |}, k2).

(** [ElectionSim.run_simulation] *)
Definition run_simulation (s : Sim) (generations : Z) (mutate_policy : bool) (k : nat)
  : result (list HistoryRecord * Sim * nat) :=
  foldM (λ '(history, s, k) gen,
      '(winner, coalition_sizes, s', k') ← run_generation s mutate_policy k;
      Ok (history ++ [{| h_generation := gen;
                         h_winner_policy := c_policy winner;
                         h_winner_alpha := c_alpha winner;
                         h_coalition_sizes := coalition_sizes |}], s', k'))
    (py_range generations) ([], s, k).

(** The script: build the simulator, then run it for [N_GENERATIONS].  The
    report and the plots that follow in the script are not part of the
    model. *)
Definition main (k : nat) : result (list HistoryRecord * Sim * nat) :=
  let '(s, k') := init k in
  run_simulation s (N_GENERATIONS P) true k'.

(** *** Vocabulary for the properties of this variant *)

(** The shape [__init__] gives the simulator and every generation keeps. *)
Definition wf (s : Sim) : Prop :=
  length (voters s) = Z.to_nat (N_VOTERS P)
  ∧ length (candidates s) = Z.to_nat (N_CANDIDATES P).

(** The threshold a voter of a given risk type applies. *)
Definition threshold (t : RiskType) : Q :=
  match t with risk => TAU P | safe => PHI P end.

(** The value of the coalition estimate of a candidate. *)
Definition estimate (c : Candidate) : Q :=
  if decide (c_winning_coalition c ≠ ∅)
  then (inject_Z (Z.of_nat (size (c_winning_coalition c))) / inject_Z (N_VOTERS P))%Q
  else (1 / inject_Z (N_VOTERS P))%Q.

(** The utility voter [v] assigns to candidate [c] during a generation. *)
Definition payoff (v : Voter) (c : Candidate) : Q :=
  (- (v_ideology v - c_policy c) ^ 2
   + c_alpha c * (inject_Z (RESOURCE_POOL P) / inject_Z (N_VOTERS P))
   + (if inclusion v c (estimate c)
      then (1 - c_alpha c) * (inject_Z (RESOURCE_POOL P) / inject_Z (N_VOTERS P))
      else 0))%Q.

(** The ballots of the voters [seen], in order. *)
Definition polled (cands : list Candidate) (seen : list Voter) (ballots : list nat)
  : Prop :=
  length ballots = length seen
  ∧ ∀ i v, seen !! i = Some v →
      ∃ b, argmax Qltb (map (payoff v) cands) = Ok b ∧ ballots !! i = Some b.

(** The quota of step 2. *)
Definition quota : Z := py_int ((5 # 10) * inject_Z (N_VOTERS P)).

(** Candidate [c], in slot [idx], after step 2 when the step starts at
    draw position [k]. *)
Definition with_support (ballots : list nat) (k idx : nat) (c : Candidate)
  : Candidate :=
  {| c_policy := c_policy c;
     c_alpha := c_alpha c;
     c_supporters := supporters_of ballots idx;
     c_winning_coalition :=
       list_to_set
         (py_prefix (shuffled rs (k + idx) (elements (supporters_of ballots idx)))
                    quota) |}.

(** The number of normal draws one mutation makes. *)
Definition draws (mutate_policy : bool) : nat := if mutate_policy then 2%nat else 1%nat.

(** The candidate [mutate] returns for [self] from the draws starting at
    position [k], when no draw raises. *)
Definition offspring (self : Candidate) (mutate_policy : bool) (k : nat) : Candidate :=
  new_Candidate
    (clip (if mutate_policy
           then c_policy self + (0 + POLICY_MUT_STD P * standard_normal rs (S k))
           else c_policy self) 0 100)
    (clip (c_alpha self + (0 + PUBLIC_GOODS_MUT_STD P * standard_normal rs k)) 0 1)%Q.

(** The state of the loop of step 4 after [j] iterations. *)
Definition replicated (winner : Candidate) (mutate_policy : bool) (k j : nat)
    (st : list Candidate * nat) : Prop :=
  length st.1 = S j
  ∧ st.1 !! 0%nat = Some winner
  ∧ st.2 = (k + draws mutate_policy * j)%nat
  ∧ ∀ i, (i < j)%nat →
      st.1 !! S i = Some (offspring winner mutate_policy (k + draws mutate_policy * i)).

(** A line of descent: each candidate is the [mutate] of the previous one,
    with the given [mutate_policy] flags. *)
Fixpoint mutations (self : Candidate) (flags : list bool) (k : nat)
  : result (Candidate * nat) :=
  match flags with
  | [] => Ok (self, k)
  | flag :: flags' => '(c, k') ← mutate self flag k; mutations c flags' k'
  end.

(** The configurations section 7 of the specification calls valid (this
    variant has no target coalition size). *)
Definition accepted : Prop :=
  1 <= N_CANDIDATES P
  ∧ 1 <= N_VOTERS P
  ∧ (0 <= PUBLIC_GOODS_MUT_STD P)%Q
  ∧ (0 <= POLICY_MUT_STD P)%Q
  ∧ (0 <= THETA P)%Q.

(** Configurations on which no operation of a run can raise. *)
Definition runnable (mutate_policy : bool) : Prop :=
  1 <= N_CANDIDATES P
  ∧ (0 <= PUBLIC_GOODS_MUT_STD P)%Q
  ∧ (mutate_policy = true → (0 <= POLICY_MUT_STD P)%Q).

(** A candidate inside the domain [mutate] clips to. *)
Definition in_bounds (c : Candidate) : Prop :=
  (0 <= c_alpha c)%Q ∧ (c_alpha c <= 1)%Q
  ∧ (0 <= c_policy c)%Q ∧ (c_policy c <= 100)%Q.

End WithParams.

End Prototype.

(** * Vocabulary of the properties *)

(** [i] is the position [np.argmax] reports: it holds a maximum and every
    earlier position holds a strictly smaller value. *)
Definition first_max {A} (lt : A → A → Prop) (l : list A) (i : nat) : Prop :=
  ∃ x, l !! i = Some x
       ∧ (∀ j y, l !! j = Some y → ¬ lt x y)
       ∧ (∀ j y, (j < i)%nat → l !! j = Some y → lt y x).

(** The mean squared distance of the positions [xs] to the position [c]. *)
Definition mean_squared_distance (xs : list Q) (c : Q) : Q :=
  (foldr Qplus 0 (map (λ x, (x - c) ^ 2) xs) / inject_Z (Z.of_nat (length xs)))%Q.

(** Among the candidate positions [cs], the one at index [w] has the least
    mean squared distance to the voter positions [xs]. *)
Definition minimises_msd (xs cs : list Q) (w : nat) : Prop :=
  ∃ x, cs !! w = Some x
       ∧ ∀ y, y ∈ cs → (mean_squared_distance xs x <= mean_squared_distance xs y)%Q.

(** * Concrete scenarios *)

Module Scenarios.

(** A generator whose normal deviates are all [1], whose uniform deviates
    are all [0], and whose shuffle leaves the list as it is. *)
Definition steady : RandomState := {|
  standard_normal := λ _, 1%Q;
  random_sample := λ _, 0%Q;
  coin := λ _, false;
  shuffled := λ _ l, l;
|}.

(** Four voters, two candidates, everybody within range and included. *)
Definition detailed_small : Detailed.Params := {|
  Detailed.N_VOTERS := 4;
  Detailed.N_CANDIDATES := 2;
  Detailed.MAX_GENERATIONS := 1;
  Detailed.RESOURCE_POOL := 1000;
  Detailed.PUBLIC_GOODS_MUT_STD := 5 # 100;
  Detailed.POLICY_MUT_STD := 2;
  Detailed.THETA := 100;
  Detailed.TAU := 0;
  Detailed.PHI := 0;
  Detailed.WINNING_COALITION_SIZE := 4;
  Detailed.RATIO_OF_VOTERS := 5 # 10;
|}.

Definition prototype_small : Prototype.Params := {|
  Prototype.N_VOTERS := 4;
  Prototype.N_CANDIDATES := 2;
  Prototype.N_GENERATIONS := 1;
  Prototype.RESOURCE_POOL := 1000;
  Prototype.PUBLIC_GOODS_MUT_STD := 5 # 100;
  Prototype.POLICY_MUT_STD := 2;
  Prototype.THETA := 100;
  Prototype.TAU := 0;
  Prototype.PHI := 0;
|}.

(** Three voters at 0 and one at 100. *)
Definition left_heavy : list Q := [0; 0; 0; 100]%Q.

(** Three voters at 100 and one at 0. *)
Definition right_heavy : list Q := [100; 100; 100; 0]%Q.

Definition detailed_sim (xs : list Q) (c0 c1 : Q) : Detailed.Sim := {|
  Detailed.voters := map (λ x, Detailed.new_Voter detailed_small x safe) xs;
  Detailed.candidates :=
    [ {| Detailed.c_ideology := c0; Detailed.c_alpha := 1 # 2 |};
      {| Detailed.c_ideology := c1; Detailed.c_alpha := 1 # 2 |} ];
|}.

Definition prototype_sim (xs : list Q) (c0 c1 : Q) : Prototype.Sim := {|
  Prototype.voters :=
    map (λ x, {| Prototype.v_ideology := x; Prototype.v_risk_type := safe |}) xs;
  Prototype.candidates :=
    [ Prototype.new_Candidate c0 (1 # 2); Prototype.new_Candidate c1 (1 # 2) ];
|}.

(** The shipped configurations with some constants replaced. *)
Definition detailed_with (theta : Q) (n_voters n_candidates wcs : Z) (std : Q)
  : Detailed.Params := {|
  Detailed.N_VOTERS := n_voters;
  Detailed.N_CANDIDATES := n_candidates;
  Detailed.MAX_GENERATIONS := Detailed.MAX_GENERATIONS Detailed.shipped;
  Detailed.RESOURCE_POOL := Detailed.RESOURCE_POOL Detailed.shipped;
  Detailed.PUBLIC_GOODS_MUT_STD := std;
  Detailed.POLICY_MUT_STD := Detailed.POLICY_MUT_STD Detailed.shipped;
  Detailed.THETA := theta;
  Detailed.TAU := Detailed.TAU Detailed.shipped;
  Detailed.PHI := Detailed.PHI Detailed.shipped;
  Detailed.WINNING_COALITION_SIZE := wcs;
  Detailed.RATIO_OF_VOTERS := Detailed.RATIO_OF_VOTERS Detailed.shipped;
|}.

Definition prototype_with (theta : Q) (n_voters n_candidates : Z) (std : Q)
  : Prototype.Params := {|
  Prototype.N_VOTERS := n_voters;
  Prototype.N_CANDIDATES := n_candidates;
  Prototype.N_GENERATIONS := Prototype.N_GENERATIONS Prototype.shipped;
  Prototype.RESOURCE_POOL := Prototype.RESOURCE_POOL Prototype.shipped;
  Prototype.PUBLIC_GOODS_MUT_STD := std;
  Prototype.POLICY_MUT_STD := Prototype.POLICY_MUT_STD Prototype.shipped;
  Prototype.THETA := theta;
  Prototype.TAU := Prototype.TAU Prototype.shipped;
  Prototype.PHI := Prototype.PHI Prototype.shipped;
|}.

(** The shipped population sizes: a hundred voters at 50, four candidates
    at 50. *)
Definition detailed_crowd : Detailed.Sim := {|
  Detailed.voters := replicate 100 (Detailed.new_Voter Detailed.shipped 50 safe);
  Detailed.candidates :=
    replicate 4 {| Detailed.c_ideology := 50; Detailed.c_alpha := 1 # 2 |};
|}.

Definition prototype_crowd : Prototype.Sim := {|
  Prototype.voters :=
    replicate 100 {| Prototype.v_ideology := 50; Prototype.v_risk_type := risk |};
  Prototype.candidates := replicate 4 (Prototype.new_Candidate 50 (1 # 2));
|}.

(** The small configuration of the detailed variant with a target
    coalition of two of the four voters, and a population whose two
    candidates stand at the same place, the first keeping everything for
    its coalition ([alpha = 0]), the second spending everything on public
    goods ([alpha = 1]). *)
Definition detailed_uneven : Detailed.Params := {|
  Detailed.N_VOTERS := 4;
  Detailed.N_CANDIDATES := 2;
  Detailed.MAX_GENERATIONS := 1;
  Detailed.RESOURCE_POOL := 1000;
  Detailed.PUBLIC_GOODS_MUT_STD := 5 # 100;
  Detailed.POLICY_MUT_STD := 2;
  Detailed.THETA := 100;
  Detailed.TAU := 0;
  Detailed.PHI := 0;
  Detailed.WINNING_COALITION_SIZE := 2;
  Detailed.RATIO_OF_VOTERS := 5 # 10;
|}.

Definition detailed_same_place (xs : list Q) (c : Q) : Detailed.Sim := {|
  Detailed.voters := map (λ x, Detailed.new_Voter detailed_uneven x safe) xs;
  Detailed.candidates :=
    [ {| Detailed.c_ideology := c; Detailed.c_alpha := 0 |};
      {| Detailed.c_ideology := c; Detailed.c_alpha := 1 |} ];
|}.

(** The small configuration of the prototype with a single voter. *)
Definition prototype_lone : Prototype.Params := {|
  Prototype.N_VOTERS := 1;
  Prototype.N_CANDIDATES := 2;
  Prototype.N_GENERATIONS := 1;
  Prototype.RESOURCE_POOL := 1000;
  Prototype.PUBLIC_GOODS_MUT_STD := 5 # 100;
  Prototype.POLICY_MUT_STD := 2;
  Prototype.THETA := 100;
  Prototype.TAU := 0;
  Prototype.PHI := 0;
|}.

(** The small configurations with an empty resource pool. *)
Definition detailed_poor : Detailed.Params := {|
  Detailed.N_VOTERS := 4;
  Detailed.N_CANDIDATES := 2;
  Detailed.MAX_GENERATIONS := 1;
  Detailed.RESOURCE_POOL := 0;
  Detailed.PUBLIC_GOODS_MUT_STD := 5 # 100;
  Detailed.POLICY_MUT_STD := 2;
  Detailed.THETA := 100;
  Detailed.TAU := 0;
  Detailed.PHI := 0;
  Detailed.WINNING_COALITION_SIZE := 4;
  Detailed.RATIO_OF_VOTERS := 5 # 10;
|}.

Definition prototype_poor : Prototype.Params := {|
  Prototype.N_VOTERS := 4;
  Prototype.N_CANDIDATES := 2;
  Prototype.N_GENERATIONS := 1;
  Prototype.RESOURCE_POOL := 0;
  Prototype.PUBLIC_GOODS_MUT_STD := 5 # 100;
  Prototype.POLICY_MUT_STD := 2;
  Prototype.THETA := 100;
  Prototype.TAU := 0;
  Prototype.PHI := 0;
|}.

(** The shipped configuration of the detailed variant with the ideology
    mutation switched off. *)
Definition detailed_frozen : Detailed.Params := {|
  Detailed.N_VOTERS := 100;
  Detailed.N_CANDIDATES := 4;
  Detailed.MAX_GENERATIONS := 200;
  Detailed.RESOURCE_POOL := 1000;
  Detailed.PUBLIC_GOODS_MUT_STD := 5 # 100;
  Detailed.POLICY_MUT_STD := 0;
  Detailed.THETA := 15;
  Detailed.TAU := 6 # 10;
  Detailed.PHI := 3 # 10;
  Detailed.WINNING_COALITION_SIZE := 25;
  Detailed.RATIO_OF_VOTERS := 5 # 10;
|}.

(** Ten voters, seven tenths of them safe: [RATIO_OF_VOTERS = 0.7], the
    float nearest to seven tenths, which lies below it. *)
Definition detailed_seven_tenths : Detailed.Params := {|
  Detailed.N_VOTERS := 10;
  Detailed.N_CANDIDATES := 4;
  Detailed.MAX_GENERATIONS := 200;
  Detailed.RESOURCE_POOL := 1000;
  Detailed.PUBLIC_GOODS_MUT_STD := 5 # 100;
  Detailed.POLICY_MUT_STD := 2;
  Detailed.THETA := 15;
  Detailed.TAU := 6 # 10;
  Detailed.PHI := 3 # 10;
  Detailed.WINNING_COALITION_SIZE := 25;
  Detailed.RATIO_OF_VOTERS := binary64 (7 # 10);
|}.

End Scenarios.

(** * Properties *)

(** ** The error monad *)

Lemma bind_Ok {A B} (m : result A) (f : A → result B) (b : B) :
  (m ≫= f) = Ok b ↔ ∃ a, m = Ok a ∧ f a = Ok b.
Proof.
  destruct m as [a|e]; simpl.
  - split; [intros H; exists a; done | intros (a' & [= ->] & H); done].
  - split; [done | intros (a' & [=] & _)].
Qed.

Lemma bind_Err {A B} (m : result A) (f : A → result B) :
  is_Err m → is_Err (m ≫= f).
Proof. intros [e ->]. by exists e. Qed.

Lemma result_cases {A} (r : result A) : is_Ok r ∨ is_Err r.
Proof. destruct r as [a|e]; [left; by exists a | right; by exists e]. Qed.

Lemma Ok_not_Err {A} (r : result A) : is_Ok r → is_Err r → False.
Proof. intros [a ->] [e [=]]. Qed.

(** Peels the binds off a hypothesis [... = Ok _]. *)
Ltac inv_Ok H :=
  repeat match type of H with
    | (_ ≫= _) = Ok _ =>
        let a := fresh "a" in
        let Ha := fresh "Hstep" in
        apply bind_Ok in H as (a & Ha & H)
    | Err _ = Ok _ => discriminate H
    end.

(** ** Comparisons and clipping *)

Lemma Qleb_le (x y : Q) : Qleb x y = true ↔ (x <= y)%Q.
Proof. apply Qle_bool_iff. Qed.

Lemma Qltb_lt (x y : Q) : Qltb x y = true ↔ (x < y)%Q.
Proof.
  unfold Qltb. rewrite negb_true_iff, <- not_true_iff_false, Qle_bool_iff.
  split; [apply Qnot_le_lt | apply Qlt_not_le].
Qed.

Lemma Qltb_ge (x y : Q) : Qltb x y = false ↔ (y <= x)%Q.
Proof. unfold Qltb. rewrite negb_false_iff. apply Qle_bool_iff. Qed.

Lemma clip_bounds (x lo hi : Q) :
  (lo <= hi)%Q → (lo <= clip x lo hi)%Q ∧ (clip x lo hi <= hi)%Q.
Proof.
  intros Hlo. unfold clip. split.
  - apply Q.min_glb; [apply Q.le_max_r | exact Hlo].
  - apply Q.le_min_r.
Qed.

Lemma clip_at_top (x lo hi : Q) : (lo <= hi)%Q → (hi <= x)%Q → (clip x lo hi == hi)%Q.
Proof.
  intros Hlo Hx. unfold clip. apply Q.min_r.
  apply Qle_trans with x; [exact Hx | apply Q.le_max_l].
Qed.

Lemma clip_at_bottom (x lo hi : Q) : (lo <= hi)%Q → (x <= lo)%Q → (clip x lo hi == lo)%Q.
Proof.
  intros Hlo Hx. unfold clip.
  rewrite (Q.max_r x lo Hx). apply Q.min_l. exact Hlo.
Qed.

Lemma py_truediv_Ok (a b : Q) : ¬ (b == 0)%Q → py_truediv a b = Ok (a / b)%Q.
Proof.
  intros Hb. unfold py_truediv.
  destruct (Qeq_bool b 0) eqn:E; [| done].
  apply Qeq_bool_iff in E. contradiction.
Qed.

Lemma py_truediv_inv (a b q : Q) : py_truediv a b = Ok q → ¬ (b == 0)%Q ∧ q = (a / b)%Q.
Proof.
  unfold py_truediv. destruct (Qeq_bool b 0) eqn:E; [done |].
  intros [= <-]. split; [| done].
  intros Hb. apply Qeq_bool_iff in Hb. congruence.
Qed.

Lemma inject_Z_nonzero (n : Z) : n ≠ 0 → ¬ (inject_Z n == 0)%Q.
Proof.
  intros Hn Hq. apply Hn. unfold Qeq, inject_Z in Hq. simpl in Hq. lia.
Qed.

(** ** Indexing *)

Lemma getitem_Ok {A} (l : list A) (i : nat) (x : A) : getitem l i = Ok x ↔ l !! i = Some x.
Proof. unfold getitem. destruct (l !! i); split; congruence. Qed.

Lemma setitem_Ok {A} (l l' : list A) (i : nat) (x : A) :
  setitem l i x = Ok l' ↔ (i < length l)%nat ∧ l' = <[i := x]> l.
Proof.
  unfold setitem. case_decide; split.
  - intros [= <-]. done.
  - intros [_ ->]. done.
  - done.
  - intros [? _]. done.
Qed.

Lemma enumerate_lookup {A} (l : list A) (i j : nat) (x : A) :
  enumerate l !! i = Some (j, x) ↔ j = i ∧ l !! i = Some x.
Proof.
  unfold enumerate. rewrite lookup_zip_with_Some. split.
  - intros (a & b & [= -> ->] & Ha & Hb). apply lookup_seq in Ha as [-> _]. done.
  - intros [-> Hx]. exists i, x. split_and!; [done | | done].
    apply lookup_seq. split; [done |]. by eapply lookup_lt_Some.
Qed.

(** The element a loop is at sits at the position given by the number of
    elements already visited. *)
Lemma enumerate_split {A} (l : list A) (done_ todo : list (nat * A)) (j : nat) (x : A) :
  enumerate l = done_ ++ (j, x) :: todo → j = length done_ ∧ l !! j = Some x.
Proof.
  intros Hl.
  assert (enumerate l !! length done_ = Some (j, x)) as Hj.
  { rewrite Hl, lookup_app_r by lia. by rewrite Nat.sub_diag. }
  apply enumerate_lookup in Hj as [-> Hx]. done.
Qed.

Lemma py_range_split (n : Z) (done_ todo : list nat) (j : nat) :
  py_range n = done_ ++ j :: todo →
  j = length done_ ∧ (j < Z.to_nat n)%nat ∧ done_ = seq 0 j.
Proof.
  unfold py_range. intros Hl.
  assert (seq 0 (Z.to_nat n) !! length done_ = Some j) as Hj.
  { rewrite Hl, lookup_app_r by lia. by rewrite Nat.sub_diag. }
  apply lookup_seq in Hj as [-> Hlt]. split_and!; [done | done |].
  apply (f_equal (take (length done_))) in Hl.
  rewrite take_app_length, take_seq in Hl.
  rewrite <- Hl at 1. f_equal. lia.
Qed.

(** The element a loop over [enumerate l] is at, in terms of the elements
    already visited. *)
Lemma enumerate_seen {A} (l : list A) (done_ todo : list (nat * A)) (i : nat) (x : A) :
  enumerate l = done_ ++ (i, x) :: todo →
  i = length (map snd done_)
  ∧ (length (map snd done_) < length l)%nat
  ∧ l !! i = Some x
  ∧ map snd (done_ ++ [(i, x)]) = map snd done_ ++ [x].
Proof.
  intros Hl. apply enumerate_split in Hl as [-> Hc].
  pose proof (lookup_lt_Some _ _ _ Hc).
  rewrite length_map, map_app. done.
Qed.

Lemma snd_enumerate {A} (l : list A) : map snd (enumerate l) = l.
Proof. unfold enumerate. rewrite snd_zip; [done |]. rewrite length_seq. lia. Qed.

Lemma enumerate_length {A} (l : list A) : length (enumerate l) = length l.
Proof. unfold enumerate. rewrite length_zip_with, length_seq. lia. Qed.

(** ** [np.argmax] *)

Section ArgmaxSpec.
Context {A : Type} (ltb : A → A → bool) (lt : A → A → Prop).
Hypothesis ltb_lt : ∀ x y, ltb x y = true ↔ lt x y.
Hypothesis lt_irrefl : ∀ x, ¬ lt x x.
Hypothesis lt_trans : ∀ x y z, lt x y → lt y z → lt x z.
Hypothesis le_lt_trans : ∀ x y z, ¬ lt y x → lt y z → lt x z.

Lemma argmax_from_spec (l pre : list A) (best : A) (bi : nat) :
  pre !! bi = Some best →
  (∀ j y, pre !! j = Some y → ¬ lt best y) →
  (∀ j y, (j < bi)%nat → pre !! j = Some y → lt y best) →
  first_max lt (pre ++ l) (argmax_from ltb best bi (length pre) l).
Proof.
  revert pre best bi.
  induction l as [|x l IH]; intros pre best bi Hbi Hmax Hfirst; simpl.
  - rewrite app_nil_r. exists best. split_and!; done.
  - replace (pre ++ x :: l) with ((pre ++ [x]) ++ l) by (by rewrite <- app_assoc).
    replace (S (length pre)) with (length (pre ++ [x]))
      by (rewrite length_app; simpl; lia).
    destruct (ltb best x) eqn:E.
    + apply ltb_lt in E.
      replace (length pre) with (length pre + 0)%nat at 1 by lia.
      apply IH.
      * rewrite lookup_app_r by lia. by replace (length pre + 0 - length pre)%nat with 0%nat by lia.
      * intros j y Hj. apply lookup_app_Some in Hj as [Hj | [_ Hj]].
        -- intros Hxy. apply (Hmax j y Hj). by eapply lt_trans.
        -- apply list_lookup_singleton_Some in Hj as [_ <-]. apply lt_irrefl.
      * intros j y Hlt Hj. apply lookup_app_Some in Hj as [Hj | [Hge _]]; [| lia].
        eapply le_lt_trans; [| exact E]. by eapply Hmax.
    + assert (¬ lt best x) as Hnlt by (rewrite <- ltb_lt; congruence).
      apply IH.
      * apply lookup_app_l_Some. done.
      * intros j y Hj. apply lookup_app_Some in Hj as [Hj | [_ Hj]].
        -- by eapply Hmax.
        -- by apply list_lookup_singleton_Some in Hj as [_ <-].
      * intros j y Hlt Hj. apply lookup_app_Some in Hj as [Hj | [Hge _]].
        -- by eapply Hfirst.
        -- apply lookup_lt_Some in Hbi. lia.
Qed.

Lemma argmax_spec (l : list A) (i : nat) :
  argmax ltb l = Ok i → first_max lt l i.
Proof.
  destruct l as [|x l]; simpl; [done |].
  intros [= <-].
  apply (argmax_from_spec l [x] x 0); [done | |].
  - intros [|j] y; [intros [= <-]; apply lt_irrefl | done].
  - intros j y Hj. lia.
Qed.

Lemma argmax_Ok (l : list A) : l ≠ [] → is_Ok (argmax ltb l).
Proof. destruct l as [|x l]; [done |]. intros _. by eexists. Qed.

Lemma argmax_nil_Err : is_Err (argmax ltb []).
Proof. by eexists. Qed.
End ArgmaxSpec.

Lemma first_max_lt_length {A} (lt : A → A → Prop) (l : list A) (i : nat) :
  first_max lt l i → (i < length l)%nat.
Proof. intros (x & Hx & _). by eapply lookup_lt_Some. Qed.

Lemma argmax_Q_spec (l : list Q) (i : nat) : argmax Qltb l = Ok i → first_max Qlt l i.
Proof.
  apply (argmax_spec Qltb Qlt Qltb_lt).
  - apply Qlt_irrefl.
  - apply Qlt_trans.
  - intros x y z Hxy Hyz. apply Qle_lt_trans with y; [by apply Qnot_lt_le | done].
Qed.

Lemma argmax_nat_spec (l : list nat) (i : nat) :
  argmax Nat.ltb l = Ok i → first_max (λ a b : nat, (a < b)%nat) l i.
Proof.
  apply (argmax_spec Nat.ltb _ Nat.ltb_lt); intros; lia.
Qed.

(** ** Loops *)

Lemma foldM_app {A S} (body : S → A → result S) (l1 l2 : list A) (s : S) :
  foldM body (l1 ++ l2) s = (foldM body l1 s ≫= foldM body l2).
Proof.
  revert s. induction l1 as [|x l1 IH]; intros s; simpl; [done |].
  destruct (body s x) as [s'|e]; simpl; [apply IH | done].
Qed.

(** A loop invariant that every iteration keeps holds at the end. *)
Lemma foldM_invariant {A S} (body : S → A → result S) (I : list A → S → Prop)
    (l : list A) (s0 s : S) :
  I [] s0 →
  (∀ done_ x todo s s', l = done_ ++ x :: todo → I done_ s → body s x = Ok s' →
     I (done_ ++ [x]) s') →
  foldM body l s0 = Ok s → I l s.
Proof.
  intros H0 Hstep.
  assert (∀ todo done_ s1, l = done_ ++ todo → I done_ s1 →
            foldM body todo s1 = Ok s → I (done_ ++ todo) s) as Hgen.
  { induction todo as [|x todo IH]; intros done_ s1 Hl HI Hrun; simpl in Hrun.
    - injection Hrun as <-. by rewrite app_nil_r.
    - apply bind_Ok in Hrun as (s2 & Hx & Hrun).
      replace (done_ ++ x :: todo) with ((done_ ++ [x]) ++ todo) by (by rewrite <- app_assoc).
      eapply IH; [by rewrite <- app_assoc | | exact Hrun]. by eapply Hstep. }
  intros Hrun. by apply (Hgen l [] s0).
Qed.

(** A loop whose every iteration succeeds under the invariant succeeds. *)
Lemma foldM_total {A S} (body : S → A → result S) (I : list A → S → Prop)
    (l : list A) (s0 : S) :
  I [] s0 →
  (∀ done_ x todo s, l = done_ ++ x :: todo → I done_ s →
     ∃ s', body s x = Ok s' ∧ I (done_ ++ [x]) s') →
  ∃ s, foldM body l s0 = Ok s ∧ I l s.
Proof.
  intros H0 Hstep.
  assert (∀ todo done_ s1, l = done_ ++ todo → I done_ s1 →
            ∃ s, foldM body todo s1 = Ok s ∧ I (done_ ++ todo) s) as Hgen.
  { induction todo as [|x todo IH]; intros done_ s1 Hl HI; simpl.
    - exists s1. by rewrite app_nil_r.
    - destruct (Hstep done_ x todo s1 Hl HI) as (s2 & -> & HI2). simpl.
      replace (done_ ++ x :: todo) with ((done_ ++ [x]) ++ todo) by (by rewrite <- app_assoc).
      apply IH; [by rewrite <- app_assoc | done]. }
  by apply (Hgen l [] s0).
Qed.

(** A loop one of whose iterations raises, raises. *)
Lemma foldM_Err {A S} (body : S → A → result S) (l : list A) (s0 : S) (x : A) :
  x ∈ l → (∀ s, is_Err (body s x)) → is_Err (foldM body l s0).
Proof.
  intros Hx Hraise. revert s0.
  induction l as [|y l IH]; intros s0; [by apply elem_of_nil in Hx |].
  simpl. apply elem_of_cons in Hx as [<- | Hx].
  - apply bind_Err, Hraise.
  - destruct (body s0 y) as [s'|e]; simpl; [by apply IH | by eexists].
Qed.

(** A loop that cannot raise, with its invariant. *)
Lemma foldl_invariant {A S} (body : S → A → S) (I : list A → S → Prop)
    (l : list A) (s0 : S) :
  I [] s0 →
  (∀ done_ x todo s, l = done_ ++ x :: todo → I done_ s → I (done_ ++ [x]) (body s x)) →
  I l (foldl body s0 l).
Proof.
  intros H0 Hstep.
  assert (∀ todo done_ s1, l = done_ ++ todo → I done_ s1 →
            I (done_ ++ todo) (foldl body s1 todo)) as Hgen.
  { induction todo as [|x todo IH]; intros done_ s1 Hl HI; simpl.
    - by rewrite app_nil_r.
    - replace (done_ ++ x :: todo) with ((done_ ++ [x]) ++ todo) by (by rewrite <- app_assoc).
      apply IH; [by rewrite <- app_assoc |]. by eapply Hstep. }
  by apply (Hgen l [] s0).
Qed.

(** A loop that appends one element per iteration. *)
Lemma foldl_length {A B T} (body : list B * T → A → list B * T) (l : list A)
    (acc : list B * T) :
  (∀ acc x, length (body acc x).1 = S (length acc.1)) →
  length (foldl body acc l).1 = (length acc.1 + length l)%nat.
Proof.
  intros Hgrow. revert acc.
  induction l as [|x l IH]; intros acc; simpl; [lia |].
  rewrite IH, Hgrow. lia.
Qed.

(** ** Supporter sets *)

Lemma filter_fst_NoDup {A} (P : nat * A → Prop) `{!∀ x, Decision (P x)}
    (l : list (nat * A)) :
  NoDup (map fst l) → NoDup (map fst (filter P l)).
Proof.
  induction l as [|x l IH]; [done |].
  simpl. intros Hnd. apply NoDup_cons in Hnd as [Hx Hnd].
  rewrite filter_cons. case_decide; [| by apply IH].
  simpl. apply NoDup_cons. split; [| by apply IH].
  intros Hin. apply Hx.
  apply list_elem_of_fmap in Hin as (y & Hy & Hin).
  apply list_elem_of_filter in Hin as [_ Hin].
  apply list_elem_of_fmap. by exists y.
Qed.

Lemma fst_enumerate {A} (l : list A) : map fst (enumerate l) = seq 0 (length l).
Proof. unfold enumerate. apply fst_zip. by rewrite length_seq. Qed.

Lemma filter_enumerate_length (l : list nat) (idx a : nat) :
  length (filter (λ ib : nat * nat, ib.2 = idx) (zip (seq a (length l)) l))
  = length (filter (λ b, b = idx) l).
Proof.
  revert a. induction l as [|b l IH]; intros a; [done |].
  simpl. rewrite !filter_cons. simpl.
  case_decide; simpl; by rewrite IH.
Qed.

(** ** [np.bincount] *)

(** Ballots below [S n] are those below [n] and those for [n]. *)
Lemma votes_below_succ (ballots : list nat) (n : nat) :
  length (filter (λ b, b < S n)%nat ballots)
  = (length (filter (λ b, b < n)%nat ballots)
     + length (filter (λ b, b = n) ballots))%nat.
Proof.
  induction ballots as [|b ballots IH]; [done |].
  rewrite !filter_cons.
  repeat case_decide; simpl; lia.
Qed.

Lemma votes_sum (ballots : list nat) (n : nat) :
  sum_list (map (λ c, length (filter (λ b, b = c) ballots)) (seq 0 n))
  = length (filter (λ b, b < n)%nat ballots).
Proof.
  induction n as [|n IH].
  - simpl. induction ballots as [|b ballots IHb]; [done |].
    rewrite filter_cons. case_decide; [lia | done].
  - rewrite seq_S, map_app, sum_list_with_app, IH, votes_below_succ. simpl. lia.
Qed.

Lemma votes_all_below (ballots : list nat) (n : nat) :
  Forall (λ b, b < n)%nat ballots → filter (λ b, b < n)%nat ballots = ballots.
Proof.
  induction 1 as [|b ballots Hb _ IH]; [done |].
  rewrite filter_cons. rewrite decide_True by done. by f_equal.
Qed.

Lemma ballots_peak (ballots : list nat) (n : nat) :
  Forall (λ b, b < n)%nat ballots →
  (foldr (λ b m, Nat.max (S b) m) 0 ballots ≤ n)%nat.
Proof. induction 1 as [|b ballots Hb _ IH]; simpl; lia. Qed.

Lemma bincount_inv (ballots counts : list nat) (minlength : Z) :
  Forall (λ b, b < Z.to_nat minlength)%nat ballots →
  bincount ballots minlength = Ok counts →
  0 <= minlength
  ∧ counts = map (λ c, length (filter (λ b, b = c) ballots)) (seq 0 (Z.to_nat minlength))
  ∧ length counts = Z.to_nat minlength
  ∧ sum_list counts = length ballots.
Proof.
  intros Hall. unfold bincount.
  destruct (minlength <? 0) eqn:E; [done |].
  apply Z.ltb_ge in E. intros [= <-].
  rewrite (Nat.max_l _ _ (ballots_peak _ _ Hall)).
  split_and!; [done | done | by rewrite length_map, length_seq |].
  by rewrite votes_sum, votes_all_below.
Qed.

Lemma bincount_Ok (ballots : list nat) (minlength : Z) :
  0 <= minlength → is_Ok (bincount ballots minlength).
Proof.
  intros Hm. unfold bincount.
  destruct (minlength <? 0) eqn:E; [apply Z.ltb_lt in E; lia |]. by eexists.
Qed.

Lemma bincount_negative (ballots : list nat) (minlength : Z) :
  minlength < 0 → is_Err (bincount ballots minlength).
Proof.
  intros Hm. unfold bincount.
  destruct (minlength <? 0) eqn:E; [by eexists | apply Z.ltb_ge in E; lia].
Qed.

(** ** Normal draws *)

Lemma normal_inv (rs : RandomState) (loc scale x : Q) (k k' : nat) :
  normal rs loc scale k = Ok (x, k') →
  (0 <= scale)%Q ∧ x = (loc + scale * standard_normal rs k)%Q ∧ k' = S k.
Proof.
  unfold normal. destruct (Qltb scale 0) eqn:E; [done |].
  apply Qltb_ge in E. intros [= <- <-]. done.
Qed.

Lemma normal_Ok (rs : RandomState) (loc scale : Q) (k : nat) :
  (0 <= scale)%Q →
  normal rs loc scale k = Ok ((loc + scale * standard_normal rs k)%Q, S k).
Proof.
  intros Hs. unfold normal. apply Qltb_ge in Hs. by rewrite Hs.
Qed.

Lemma normal_negative (rs : RandomState) (loc scale : Q) (k : nat) :
  (scale < 0)%Q → is_Err (normal rs loc scale k).
Proof.
  intros Hs. unfold normal. apply Qltb_lt in Hs. rewrite Hs. by eexists.
Qed.

(** ** The detailed variant *)

Module DetailedFacts.
Import Detailed.

Section WithParams.
Context (P : Params) (rs : RandomState).

Lemma inclusion_inv (v v' : Voter) (cid : nat) (p ideo : Q) (b : bool) :
  inclusion P v cid p ideo = Ok (v', b) →
  (cid < length (v_included v))%nat
  ∧ v' = set_included v (<[cid := believes P v p ideo]> (v_included v))
  ∧ b = believes P v p ideo.
Proof.
  unfold inclusion. intros H. inv_Ok H.
  apply setitem_Ok in Hstep as [Hlt ->].
  apply getitem_Ok in Hstep0. simpl in Hstep0.
  rewrite list_lookup_insert_eq in Hstep0 by done.
  by simplify_eq.
Qed.

Lemma inclusion_Ok (v : Voter) (cid : nat) (p ideo : Q) :
  (cid < length (v_included v))%nat →
  inclusion P v cid p ideo
  = Ok (set_included v (<[cid := believes P v p ideo]> (v_included v)),
        believes P v p ideo).
Proof.
  intros Hlt. unfold inclusion, setitem.
  rewrite decide_True by done. simpl.
  unfold getitem. simpl. by rewrite list_lookup_insert_eq.
Qed.

(** [believes] reads the voter's ideology and risk type only. *)
Lemma believes_set_included (v : Voter) (inc : list bool) (p ideo : Q) :
  believes P (set_included v inc) p ideo = believes P v p ideo.
Proof. done. Qed.

Lemma utility_inv (v : Voter) (c : Candidate) (cid : nat) (u : Q) :
  v_included v !! cid = Some (belief P v c) →
  utility P v (c_ideology c) (c_alpha c) cid = Ok u →
  u = payoff P v c.
Proof.
  intros Hinc. unfold utility, payoff. intros H. inv_Ok H.
  apply py_truediv_inv in Hstep as [_ ->].
  apply getitem_Ok in Hstep0. rewrite Hinc in Hstep0. injection Hstep0 as <-.
  destruct (belief P v c).
  - inv_Ok Hstep1. apply py_truediv_inv in Hstep as [_ ->]. by simplify_eq.
  - by simplify_eq.
Qed.

Lemma utility_Ok (v : Voter) (c : Candidate) (cid : nat) :
  N_VOTERS P ≠ 0 →
  (belief P v c = true → WINNING_COALITION_SIZE P ≠ 0) →
  v_included v !! cid = Some (belief P v c) →
  utility P v (c_ideology c) (c_alpha c) cid = Ok (payoff P v c).
Proof.
  intros HN HW Hinc. unfold utility, payoff.
  rewrite (py_truediv_Ok _ (inject_Z (N_VOTERS P))) by by apply inject_Z_nonzero.
  simpl. unfold getitem. rewrite Hinc. simpl.
  destruct (belief P v c); simpl; [| done].
  rewrite py_truediv_Ok by (apply inject_Z_nonzero; auto). done.
Qed.

Lemma evaluated_init (v : Voter) :
  evaluated P v [] (set_included v (py_repeat false (N_CANDIDATES P)), []).
Proof.
  unfold evaluated, py_repeat. simpl. split_and!; [| done | lia].
  by rewrite Nat.sub_0_r.
Qed.

Lemma evaluated_snoc (v : Voter) (seen : list Candidate) (c : Candidate) :
  (length seen < Z.to_nat (N_CANDIDATES P))%nat →
  <[length seen := belief P v c]>
    (map (belief P v) seen
     ++ replicate (Z.to_nat (N_CANDIDATES P) - length seen) false)
  = map (belief P v) (seen ++ [c])
    ++ replicate (Z.to_nat (N_CANDIDATES P) - length (seen ++ [c])) false.
Proof.
  intros Hlt.
  replace (Z.to_nat (N_CANDIDATES P) - length seen)%nat
    with (S (Z.to_nat (N_CANDIDATES P) - length (seen ++ [c])))
    by (rewrite length_app; simpl; lia).
  rewrite map_app, <- app_assoc. simpl.
  replace (length seen) with (length (map (belief P v) seen) + 0)%nat at 1
    by (rewrite length_map; lia).
  by rewrite insert_app_r.
Qed.

(** One iteration of the inner loop, when it does not raise. *)
Lemma evaluate_step_inv (v : Voter) (seen : list Candidate) (c : Candidate)
    (v1 v2 : Voter) (utils1 utils2 : list Q) :
  evaluated P v seen (v1, utils1) →
  (py_truediv (inject_Z (WINNING_COALITION_SIZE P)) (inject_Z (N_VOTERS P))
     ≫= λ coal_prob,
       inclusion P v1 (length seen) coal_prob (c_ideology c)
         ≫= λ '(v', _),
           utility P v' (c_ideology c) (c_alpha c) (length seen)
             ≫= λ u, Ok (v', utils1 ++ [u])) = Ok (v2, utils2) →
  evaluated P v (seen ++ [c]) (v2, utils2).
Proof.
  intros (Hv & Hu & Hlen) Hbody. simpl in Hv, Hu.
  apply bind_Ok in Hbody as (q & Hq & Hbody).
  apply bind_Ok in Hbody as ([v1' b] & Hinc & Hbody).
  apply bind_Ok in Hbody as (u & Hu' & Hbody).
  apply py_truediv_inv in Hq as [_ ->].
  apply inclusion_inv in Hinc as (Hlt & -> & _).
  injection Hbody as <- <-. subst v1 utils1.
  cbn [v_included set_included] in *.
  rewrite length_app, length_map, length_replicate in Hlt.
  assert (length seen < Z.to_nat (N_CANDIDATES P))%nat as Hlt' by lia.
  change (believes P _ _ (c_ideology c)) with (belief P v c) in *.
  rewrite (evaluated_snoc v seen c Hlt') in *.
  unfold evaluated. simpl. split_and!.
  - done.
  - rewrite map_app. simpl. f_equal. f_equal.
    eapply (utility_inv _ c) in Hu'; [exact Hu' |].
    cbn [v_included set_included].
    change (belief P _ c) with (belief P v c).
    rewrite map_app. simpl.
    rewrite lookup_app_l by (rewrite length_app, length_map; simpl; lia).
    rewrite lookup_app_r by (rewrite length_map; lia).
    by rewrite length_map, Nat.sub_diag.
  - rewrite length_app. simpl. lia.
Qed.

(** What the inner loop leaves behind when it does not raise. *)
Lemma evaluate_inv (cands : list Candidate) (v v' : Voter) (utils : list Q) :
  evaluate P cands v = Ok (v', utils) → evaluated P v cands (v', utils).
Proof.
  unfold evaluate. intros Hrun.
  apply (foldM_invariant _ (λ done_ st, evaluated P v (map snd done_) st)) in Hrun.
  - by rewrite snd_enumerate in Hrun.
  - apply evaluated_init.
  - intros done_ [cid c] todo [v1 utils1] [v2 utils2] Hl HI Hbody.
    apply enumerate_seen in Hl as (-> & _ & _ & ->).
    by eapply evaluate_step_inv.
Qed.

(** One iteration of the inner loop does not raise when the divisors are
    non-zero and the slot exists. *)
Lemma evaluate_step_Ok (v : Voter) (seen : list Candidate) (c : Candidate)
    (v1 : Voter) (utils1 : list Q) :
  N_VOTERS P ≠ 0 → WINNING_COALITION_SIZE P ≠ 0 →
  (length seen < Z.to_nat (N_CANDIDATES P))%nat →
  evaluated P v seen (v1, utils1) →
  ∃ st,
    (py_truediv (inject_Z (WINNING_COALITION_SIZE P)) (inject_Z (N_VOTERS P))
       ≫= λ coal_prob,
         inclusion P v1 (length seen) coal_prob (c_ideology c)
           ≫= λ '(v', _),
             utility P v' (c_ideology c) (c_alpha c) (length seen)
               ≫= λ u, Ok (v', utils1 ++ [u])) = Ok st
    ∧ evaluated P v (seen ++ [c]) st.
Proof.
  intros HN HW Hlt (Hv & Hu & _). simpl in Hv, Hu. subst v1 utils1.
  rewrite py_truediv_Ok by by apply inject_Z_nonzero. simpl.
  rewrite inclusion_Ok; cbn [v_included set_included mbind result_bind].
  2: { rewrite length_app, length_map, length_replicate. lia. }
  change (believes P _ _ (c_ideology c)) with (belief P v c).
  rewrite (evaluated_snoc v seen c Hlt).
  rewrite (utility_Ok _ c); simpl.
  - eexists. split; [done |]. unfold evaluated. simpl.
    rewrite (map_app (payoff P v)). simpl. split_and!; [done | done |].
    rewrite length_app. simpl. lia.
  - done.
  - done.
  - rewrite map_app. simpl.
    rewrite lookup_app_l by (rewrite length_app, length_map; simpl; lia).
    rewrite lookup_app_r by (rewrite length_map; lia).
    by rewrite length_map, Nat.sub_diag.
Qed.

(** The inner loop does not raise when the divisors are non-zero. *)
Lemma evaluate_Ok (cands : list Candidate) (v : Voter) :
  N_VOTERS P ≠ 0 → WINNING_COALITION_SIZE P ≠ 0 →
  (length cands ≤ Z.to_nat (N_CANDIDATES P))%nat →
  ∃ v', evaluate P cands v = Ok (v', map (payoff P v) cands).
Proof.
  intros HN HW Hlen. unfold evaluate.
  destruct (foldM_total
    (λ '(v0, utils) '(cid, c),
       coal_prob ← py_truediv (inject_Z (WINNING_COALITION_SIZE P))
                              (inject_Z (N_VOTERS P));
       '(v', _) ← inclusion P v0 cid coal_prob (c_ideology c);
       u ← utility P v' (c_ideology c) (c_alpha c) cid;
       Ok (v', utils ++ [u]))
    (λ done_ st, evaluated P v (map snd done_) st)
    (enumerate cands)
    (set_included v (py_repeat false (N_CANDIDATES P)), [])) as ([v' utils] & Hrun & HI).
  - apply evaluated_init.
  - intros done_ [cid c] todo [v1 utils1] Hl HI.
    apply enumerate_seen in Hl as (-> & Hlt & _ & ->).
    apply evaluate_step_Ok; [done | done | lia | done].
  - exists v'. rewrite Hrun. destruct HI as (_ & Hu & _). simpl in Hu.
    rewrite snd_enumerate in Hu. by rewrite Hu.
Qed.

(** One iteration of the outer loop, when it does not raise. *)
Lemma cast_ballot_inv (cands : list Candidate) (seen : list Voter) (v : Voter)
    (st st' : list Voter * list nat * list VoteInfo) :
  polled P cands seen st →
  cast_ballot P cands st (length seen, v) = Ok st' →
  polled P cands (seen ++ [v]) st'.
Proof.
  destruct st as [[vs ballots] info].
  intros (Hvs & Hbs & Hinfo & Hall) Hbody. simpl in Hvs, Hbs, Hinfo, Hall.
  unfold cast_ballot in Hbody.
  apply bind_Ok in Hbody as ([v' utils] & Hev & Hbody).
  apply bind_Ok in Hbody as (choice & Hchoice & Hbody).
  injection Hbody as <-.
  apply evaluate_inv in Hev as (Hv' & Hutils & _). simpl in Hv', Hutils.
  subst v' utils.
  unfold polled. simpl. rewrite !length_app. simpl.
  split_and!; [lia | lia | lia |].
  intros vid w Hw. apply lookup_snoc_Some in Hw as [[Hlt Hw] | [-> <-]].
  - destruct (Hall vid w Hw) as (b & Hb & Hb1 & Hb2 & Hb3).
    exists b. split_and!; [done | | |]; by apply lookup_app_l_Some.
  - exists choice. split_and!; [done | | |].
    + rewrite <- Hbs. by rewrite lookup_app_r, Nat.sub_diag by lia.
    + rewrite <- Hinfo. by rewrite lookup_app_r, Nat.sub_diag by lia.
    + rewrite <- Hvs. by rewrite lookup_app_r, Nat.sub_diag by lia.
Qed.

(** What the outer loop leaves behind when it does not raise. *)
Lemma poll_inv (s : Sim) (st : list Voter * list nat * list VoteInfo) :
  poll P s = Ok st → polled P (candidates s) (voters s) st.
Proof.
  unfold poll. intros Hrun.
  apply (foldM_invariant _ (λ done_ st, polled P (candidates s) (map snd done_) st))
    in Hrun.
  - by rewrite snd_enumerate in Hrun.
  - unfold polled. simpl. split_and!; done.
  - intros done_ [vid v] todo st1 st2 Hl HI Hbody.
    apply enumerate_seen in Hl as (-> & _ & _ & ->).
    by eapply cast_ballot_inv.
Qed.

(** The outer loop does not raise when the divisors are non-zero and
    there is a candidate to vote for. *)
Lemma poll_Ok (s : Sim) :
  (length (candidates s) ≤ Z.to_nat (N_CANDIDATES P))%nat →
  (voters s ≠ [] →
   N_VOTERS P ≠ 0 ∧ WINNING_COALITION_SIZE P ≠ 0 ∧ candidates s ≠ []) →
  ∃ st, poll P s = Ok st ∧ polled P (candidates s) (voters s) st.
Proof.
  intros Hlen Hpre. unfold poll.
  destruct (foldM_total (cast_ballot P (candidates s))
    (λ done_ st, polled P (candidates s) (map snd done_) st)
    (enumerate (voters s)) ([], [], [])) as (st & Hrun & HI).
  - unfold polled. simpl. split_and!; done.
  - intros done_ [vid v] todo st1 Hl HI.
    apply enumerate_seen in Hl as (-> & Hlt & _ & ->).
    destruct Hpre as (HN & HW & Hne).
    { intros E. rewrite E in Hlt. simpl in Hlt. lia. }
    destruct (evaluate_Ok (candidates s) v HN HW Hlen) as (v' & Hev).
    destruct (argmax_Ok Qltb (map (payoff P v) (candidates s))) as (b & Hb).
    { by destruct (candidates s). }
    assert (cast_ballot P (candidates s) st1 (length (map snd done_), v)
            = Ok (st1.1.1 ++ [v'], st1.1.2 ++ [b],
                  st1.2 ++ [{| vi_voter_id := length (map snd done_);
                               vi_risk_type := v_risk_type v';
                               vi_utilities := map (payoff P v) (candidates s);
                               vi_included := v_included v';
                               vi_ballot := b |}])) as Hcast.
    { destruct st1 as [[vs ballots] info]. unfold cast_ballot.
      rewrite Hev. simpl. rewrite Hb. done. }
    eexists. split; [exact Hcast |].
    by eapply cast_ballot_inv.
  - exists st. split; [done |]. by rewrite snd_enumerate in HI.
Qed.

(** With a voter and no candidate, the first ballot already raises. *)
Lemma poll_no_candidates (s : Sim) :
  candidates s = [] → voters s ≠ [] → is_Err (poll P s).
Proof.
  intros Hc Hv. unfold poll. rewrite Hc.
  destruct (voters s) as [|v vs]; [done |].
  apply (foldM_Err _ _ _ (0%nat, v)); [by left |].
  intros [[vs' ballots] info]. unfold cast_ballot, evaluate. simpl. by eexists.
Qed.

(** *** Mutation *)

Lemma mutate_inv (self c : Candidate) (k k' : nat) :
  mutate P rs self true k = Ok (c, k') →
  c = offspring P rs self k ∧ k' = S (S k).
Proof.
  unfold mutate. intros H.
  apply bind_Ok in H as ([da k1] & Hda & H).
  apply bind_Ok in H as ([x k2] & Hx & H).
  apply bind_Ok in Hx as ([di k3] & Hdi & Hx).
  apply normal_inv in Hda as (_ & -> & ->).
  apply normal_inv in Hdi as (_ & -> & ->).
  by simplify_eq.
Qed.

Lemma mutate_Ok (self : Candidate) (k : nat) :
  (0 <= PUBLIC_GOODS_MUT_STD P)%Q → (0 <= POLICY_MUT_STD P)%Q →
  mutate P rs self true k = Ok (offspring P rs self k, S (S k)).
Proof.
  intros Ha Hp. unfold mutate.
  rewrite (normal_Ok _ _ _ _ Ha). simpl.
  rewrite (normal_Ok _ _ _ _ Hp). done.
Qed.

Lemma mutate_negative (self : Candidate) (k : nat) :
  (PUBLIC_GOODS_MUT_STD P < 0)%Q ∨ (POLICY_MUT_STD P < 0)%Q →
  is_Err (mutate P rs self true k).
Proof.
  intros Hneg. unfold mutate.
  destruct (Qlt_le_dec (PUBLIC_GOODS_MUT_STD P) 0) as [Ha | Ha].
  - by apply bind_Err, normal_negative.
  - destruct Hneg as [Hneg | Hneg]; [apply Qlt_not_le in Hneg; contradiction |].
    rewrite (normal_Ok _ _ _ _ Ha). simpl.
    by apply bind_Err, bind_Err, normal_negative.
Qed.

Lemma mutate_bounds (self c : Candidate) (flag : bool) (k k' : nat) :
  mutate P rs self flag k = Ok (c, k') →
  (0 <= c_alpha c)%Q ∧ (c_alpha c <= 1)%Q
  ∧ (-100 <= c_ideology c)%Q ∧ (c_ideology c <= 100)%Q.
Proof.
  unfold mutate. intros H.
  apply bind_Ok in H as ([da k1] & Hda & H).
  apply bind_Ok in H as ([x k2] & Hx & H).
  injection H as <- <-. simpl.
  destruct (clip_bounds (c_alpha self + da) 0 1) as [? ?]; [done |].
  destruct (clip_bounds x (-100) 100) as [? ?]; [done |].
  done.
Qed.

(** *** The replacement loop *)

Lemma replaced_init (k w : nat) (cands0 : list Candidate) (winner : Candidate) :
  cands0 !! w = Some winner → replaced P rs k w cands0 winner 0 (cands0, k).
Proof.
  intros Hw. unfold replaced. simpl. split_and!; [done | done | | |].
  - repeat case_decide; lia.
  - intros cid Hlt. lia.
  - done.
Qed.

(** One iteration, when it does not raise. *)
Lemma replace_loser_inv (k w : nat) (cands0 : list Candidate) (winner : Candidate)
    (j : nat) (st st' : list Candidate * nat) :
  replaced P rs k w cands0 winner j st →
  replace_loser P rs w st j = Ok st' →
  replaced P rs k w cands0 winner (S j) st'.
Proof.
  destruct st as [cands kk].
  intros (Hlen & Hw & Hk & Hdone & Htodo) Hbody. simpl in Hlen, Hw, Hk, Hdone, Htodo.
  unfold replace_loser in Hbody. case_decide as Hj.
  - apply bind_Ok in Hbody as (win & Hwin & Hbody).
    apply bind_Ok in Hbody as ([c k'] & Hc & Hbody).
    apply bind_Ok in Hbody as (cands' & Hset & Hbody).
    injection Hbody as <-.
    apply getitem_Ok in Hwin. rewrite Hw in Hwin. injection Hwin as <-.
    apply mutate_inv in Hc as [-> ->].
    apply setitem_Ok in Hset as [Hlt ->].
    unfold replaced. simpl. split_and!.
    + by rewrite length_insert.
    + by rewrite list_lookup_insert_ne.
    + subst kk. repeat case_decide; lia.
    + intros cid Hcid Hne. destruct (decide (cid = j)) as [-> | Hne'].
      * rewrite list_lookup_insert_eq by done. do 2 f_equal.
        subst kk. unfold draw_of. repeat case_decide; lia.
      * rewrite list_lookup_insert_ne by done. apply Hdone; [lia | done].
    + intros cid Hcid. rewrite list_lookup_insert_ne by lia. apply Htodo. lia.
  - injection Hbody as <-. assert (j = w) as -> by (destruct (decide (j = w)); tauto).
    unfold replaced. simpl. split_and!; [done | done | | |].
    + subst kk. repeat case_decide; lia.
    + intros cid Hcid Hne. apply Hdone; [lia | done].
    + intros cid Hcid. apply Htodo. lia.
Qed.

Lemma seq_snoc_length (done_ : list nat) (j : nat) :
  done_ = seq 0 j → done_ ++ [j] = seq 0 (S j).
Proof. intros ->. by rewrite seq_S. Qed.

(** What the replacement loop leaves behind when it does not raise. *)
Lemma replace_losers_inv (w k k' : nat) (cands0 cands : list Candidate)
    (winner : Candidate) :
  cands0 !! w = Some winner →
  replace_losers P rs w cands0 k = Ok (cands, k') →
  replaced P rs k w cands0 winner (Z.to_nat (N_CANDIDATES P)) (cands, k').
Proof.
  intros Hw. unfold replace_losers. intros Hrun.
  apply (foldM_invariant _
           (λ done_ st, replaced P rs k w cands0 winner (length done_) st)) in Hrun.
  - unfold py_range in Hrun. by rewrite length_seq in Hrun.
  - by apply replaced_init.
  - intros done_ j todo st st' Hl HI Hbody.
    apply py_range_split in Hl as (-> & _ & _).
    rewrite length_app. simpl. rewrite Nat.add_1_r.
    by eapply replace_loser_inv.
Qed.

(** The replacement loop does not raise when the deviations are
    non-negative and every slot exists. *)
Lemma replace_losers_Ok (w k : nat) (cands0 : list Candidate) (winner : Candidate) :
  (0 <= PUBLIC_GOODS_MUT_STD P)%Q → (0 <= POLICY_MUT_STD P)%Q →
  length cands0 = Z.to_nat (N_CANDIDATES P) →
  cands0 !! w = Some winner →
  is_Ok (replace_losers P rs w cands0 k).
Proof.
  intros Ha Hp Hlen Hw. unfold replace_losers.
  destruct (foldM_total (replace_loser P rs w)
    (λ done_ st, replaced P rs k w cands0 winner (length done_) st)
    (py_range (N_CANDIDATES P)) (cands0, k)) as (st & Hrun & _).
  - by apply replaced_init.
  - intros done_ j todo [cands kk] Hl HI.
    apply py_range_split in Hl as (-> & Hlt & _).
    assert (is_Ok (replace_loser P rs w (cands, kk) (length done_))) as [st' Hst'].
    { destruct HI as (Hlen' & Hw' & _). simpl in Hlen', Hw'.
      unfold replace_loser. case_decide; [| by eexists].
      unfold getitem. rewrite Hw'. simpl.
      rewrite (mutate_Ok _ _ Ha Hp). simpl.
      unfold setitem. rewrite decide_True by lia. by eexists. }
    exists st'. split; [done |].
    rewrite length_app. simpl. rewrite Nat.add_1_r.
    by eapply replace_loser_inv.
  - by exists st.
Qed.

(** With a negative deviation the first loser's mutation raises. *)
Lemma replace_losers_negative (w k : nat) (cands0 : list Candidate) :
  (PUBLIC_GOODS_MUT_STD P < 0)%Q ∨ (POLICY_MUT_STD P < 0)%Q →
  2 <= N_CANDIDATES P →
  is_Err (replace_losers P rs w cands0 k).
Proof.
  intros Hneg Hn. unfold replace_losers.
  set (cid := if decide (w = 0)%nat then 1%nat else 0%nat).
  apply (foldM_Err _ _ _ cid).
  - unfold py_range. apply elem_of_seq. subst cid. case_decide; lia.
  - intros [cands kk]. unfold replace_loser.
    rewrite decide_True by (subst cid; case_decide; lia).
    destruct (getitem cands w) as [win|e]; simpl; [| by eexists].
    by apply bind_Err, mutate_negative.
Qed.

(** *** One generation *)

(** Every ballot names an existing candidate. *)
Lemma polled_ballots_in_range (cands : list Candidate) (voters_ : list Voter)
    (vs : list Voter) (ballots : list nat) (info : list VoteInfo) :
  polled P cands voters_ (vs, ballots, info) →
  Forall (λ b, b < length cands)%nat ballots.
Proof.
  intros (_ & Hbs & _ & Hall). simpl in Hbs, Hall.
  apply Forall_lookup. intros i b Hb.
  destruct (lookup_lt_is_Some_2 voters_ i) as [v Hv].
  { rewrite <- Hbs. by eapply lookup_lt_Some. }
  destruct (Hall i v Hv) as (b' & Hmax & Hb' & _).
  rewrite Hb in Hb'. injection Hb' as <-.
  apply argmax_Q_spec, first_max_lt_length in Hmax.
  by rewrite length_map in Hmax.
Qed.

(** What a generation computes, when it does not raise. *)
Lemma run_generation_detailed_inv (s s' : Sim) (k k' w : nat)
    (info : list VoteInfo) (counts : list nat) :
  wf P s →
  run_generation_detailed P rs s k = Ok (info, counts, w, s', k') →
  ∃ ballots winner,
    polled P (candidates s) (voters s) (voters s', ballots, info)
    ∧ counts = map (λ c, length (filter (λ b, b = c) ballots))
                   (seq 0 (Z.to_nat (N_CANDIDATES P)))
    ∧ sum_list counts = length (voters s)
    ∧ argmax Nat.ltb counts = Ok w
    ∧ candidates s !! w = Some winner
    ∧ replaced P rs k w (candidates s) winner (Z.to_nat (N_CANDIDATES P))
        (candidates s', k').
Proof.
  intros [Hnv Hnc]. unfold run_generation_detailed. intros H.
  apply bind_Ok in H as ([[vs ballots] info'] & Hpoll & H).
  apply bind_Ok in H as (counts' & Hcounts & H).
  apply bind_Ok in H as (w' & Hw & H).
  apply bind_Ok in H as ([cands kk] & Hrep & H).
  injection H as <- <- <- <- <-. simpl.
  apply poll_inv in Hpoll.
  pose proof (polled_ballots_in_range _ _ _ _ _ Hpoll) as Hrange.
  rewrite Hnc in Hrange.
  apply (bincount_inv _ _ _ Hrange) in Hcounts as (_ & Hc & Hlen & Hsum).
  destruct (lookup_lt_is_Some_2 (candidates s) w') as [winner Hwinner].
  { rewrite Hnc, <- Hlen. eapply first_max_lt_length. by apply argmax_nat_spec. }
  exists ballots, winner. split_and!; try done.
  - rewrite Hsum. destruct Hpoll as (_ & Hbs & _). exact Hbs.
  - by eapply replace_losers_inv.
Qed.

(** A generation keeps the shape of the simulator. *)
Lemma run_generation_detailed_wf (s s' : Sim) (k k' w : nat)
    (info : list VoteInfo) (counts : list nat) :
  wf P s →
  run_generation_detailed P rs s k = Ok (info, counts, w, s', k') →
  wf P s'.
Proof.
  intros Hwf H. pose proof Hwf as [Hnv Hnc].
  apply run_generation_detailed_inv in H
    as (ballots & winner & Hpoll & _ & _ & _ & _ & Hrep); [| done].
  destruct Hpoll as (Hvs & _). destruct Hrep as (Hcs & _). simpl in Hvs, Hcs.
  split; congruence.
Qed.

(** On a runnable configuration a generation does not raise. *)
Lemma run_generation_detailed_Ok (s : Sim) (k : nat) :
  wf P s → runnable P → is_Ok (run_generation_detailed P rs s k).
Proof.
  intros [Hnv Hnc] (Hn & Ha & Hp & Hw). unfold run_generation_detailed.
  destruct (poll_Ok s) as ([[vs ballots] info] & Hpoll & Hpolled).
  { lia. }
  { intros Hne. assert (1 <= N_VOTERS P) as H1.
    { destruct (voters s); [done |]. simpl in Hnv. lia. }
    split_and!; [lia | by apply Hw |].
    destruct (candidates s); [simpl in Hnc; lia | done]. }
  rewrite Hpoll. simpl.
  pose proof (polled_ballots_in_range _ _ _ _ _ Hpolled) as Hrange.
  rewrite Hnc in Hrange.
  destruct (bincount_Ok ballots (N_CANDIDATES P)) as [counts Hcounts]; [lia |].
  rewrite Hcounts. simpl.
  apply (bincount_inv _ _ _ Hrange) in Hcounts as (_ & _ & Hlen & _).
  destruct (argmax_Ok Nat.ltb counts) as [w Hmax].
  { destruct counts; [simpl in Hlen; lia | done]. }
  rewrite Hmax. simpl.
  destruct (lookup_lt_is_Some_2 (candidates s) w) as [winner Hwinner].
  { rewrite Hnc, <- Hlen. eapply first_max_lt_length. by apply argmax_nat_spec. }
  destruct (replace_losers_Ok w k (candidates s) winner Ha Hp Hnc Hwinner)
    as [[cands kk] Hrep].
  rewrite Hrep. simpl. by eexists.
Qed.

(** Without a candidate a generation raises. *)
Lemma run_generation_detailed_no_candidates (s : Sim) (k : nat) :
  wf P s → N_CANDIDATES P < 1 → is_Err (run_generation_detailed P rs s k).
Proof.
  intros [Hnv Hnc] Hn. unfold run_generation_detailed.
  assert (candidates s = []) as Hnil.
  { destruct (candidates s); [done | simpl in Hnc; lia]. }
  destruct (voters s) as [|v vs] eqn:Hvs.
  - unfold poll. rewrite Hvs. simpl.
    destruct (decide (N_CANDIDATES P < 0)) as [Hneg | Hzero].
    + by apply bind_Err, bincount_negative.
    + assert (N_CANDIDATES P = 0) as -> by lia. simpl. by eexists.
  - apply bind_Err, poll_no_candidates; [done | by rewrite Hvs].
Qed.

(** With a negative deviation and a loser to replace a generation raises. *)
Lemma run_generation_detailed_negative (s : Sim) (k : nat) :
  (PUBLIC_GOODS_MUT_STD P < 0)%Q ∨ (POLICY_MUT_STD P < 0)%Q →
  2 <= N_CANDIDATES P →
  is_Err (run_generation_detailed P rs s k).
Proof.
  intros Hneg Hn. unfold run_generation_detailed.
  destruct (poll P s) as [[[vs ballots] info]|e]; simpl; [| by eexists].
  destruct (bincount ballots (N_CANDIDATES P)) as [counts|e]; simpl; [| by eexists].
  destruct (argmax Nat.ltb counts) as [w|e]; simpl; [| by eexists].
  by apply bind_Err, replace_losers_negative.
Qed.

(** *** The recorder *)

Lemma add_columns_inv (info : VoteInfo) (seen : list Candidate) (c : Candidate)
    (cols cols' : list CandidateColumns) :
  columns_of seen info cols →
  add_columns info cols (length seen, c) = Ok cols' →
  columns_of (seen ++ [c]) info cols'.
Proof.
  intros [Hlen Hall] Hbody. unfold add_columns in Hbody.
  apply bind_Ok in Hbody as (inc & Hinc & Hbody).
  apply bind_Ok in Hbody as (u & Hu & Hbody).
  injection Hbody as <-.
  apply getitem_Ok in Hinc, Hu.
  split; [rewrite !length_app; simpl; lia |].
  intros cid c' Hc'. apply lookup_snoc_Some in Hc' as [[Hlt Hc'] | [-> <-]].
  - destruct (Hall cid c' Hc') as (inc' & u' & ? & ? & ?).
    exists inc', u'. split_and!; [done | done |]. by apply lookup_app_l_Some.
  - exists inc, u. split_and!; [done | done |].
    rewrite <- Hlen. by rewrite lookup_app_r, Nat.sub_diag by lia.
Qed.

Lemma columns_inv (cands : list Candidate) (info : VoteInfo)
    (cols : list CandidateColumns) :
  foldM (add_columns info) (enumerate cands) [] = Ok cols →
  columns_of cands info cols.
Proof.
  intros Hrun.
  apply (foldM_invariant _ (λ done_ cols, columns_of (map snd done_) info cols))
    in Hrun.
  - by rewrite snd_enumerate in Hrun.
  - split; [done |]. intros cid c Hc. done.
  - intros done_ [cid c] todo cols1 cols2 Hl HI Hbody.
    apply enumerate_seen in Hl as (-> & _ & _ & ->).
    by eapply add_columns_inv.
Qed.

Lemma columns_Ok (cands : list Candidate) (info : VoteInfo) :
  (length cands ≤ length (vi_included info))%nat →
  (length cands ≤ length (vi_utilities info))%nat →
  is_Ok (foldM (add_columns info) (enumerate cands) []).
Proof.
  intros Hinc Hu.
  destruct (foldM_total (add_columns info)
    (λ done_ cols, columns_of (map snd done_) info cols)
    (enumerate cands) []) as (cols & Hrun & _).
  - split; [done |]. intros cid c Hc. done.
  - intros done_ [cid c] todo cols1 Hl HI.
    apply enumerate_seen in Hl as (-> & Hlt & _ & ->).
    destruct (lookup_lt_is_Some_2 (vi_included info) (length (map snd done_)))
      as [inc Hi]; [lia |].
    destruct (lookup_lt_is_Some_2 (vi_utilities info) (length (map snd done_)))
      as [u Hu']; [lia |].
    assert (is_Ok (add_columns info cols1 (length (map snd done_), c))) as [cols2 H2].
    { unfold add_columns, getitem. rewrite Hi, Hu'. by eexists. }
    exists cols2. split; [done |]. by eapply add_columns_inv.
  - by exists cols.
Qed.

Lemma vote_row_inv (gen : nat) (s : Sim) (counts : list nat) (w : nat)
    (info : VoteInfo) (r : VoteRecord) :
  vote_row gen s counts w info = Ok r → row_of gen s counts w info r.
Proof.
  unfold vote_row. intros H.
  apply bind_Ok in H as (v & Hv & H).
  apply bind_Ok in H as (cols & Hcols & H).
  injection H as <-. apply getitem_Ok in Hv. apply columns_inv in Hcols.
  unfold row_of. simpl. split_and!; try done. by exists v.
Qed.

Lemma vote_row_Ok (gen : nat) (s : Sim) (counts : list nat) (w : nat)
    (info : VoteInfo) :
  (vi_voter_id info < length (voters s))%nat →
  (length (candidates s) ≤ length (vi_included info))%nat →
  (length (candidates s) ≤ length (vi_utilities info))%nat →
  is_Ok (vote_row gen s counts w info).
Proof.
  intros Hv Hinc Hu. unfold vote_row.
  destruct (lookup_lt_is_Some_2 (voters s) (vi_voter_id info) Hv) as [v Hv'].
  unfold getitem. rewrite Hv'. simpl.
  destruct (columns_Ok (candidates s) info Hinc Hu) as [cols ->]. simpl.
  by eexists.
Qed.

Lemma add_vote_row_inv (gen : nat) (s : Sim) (counts : list nat) (w : nat)
    (seen : list VoteInfo) (info : VoteInfo) (vrs vrs' : list VoteRecord) :
  rows_of gen s counts w seen vrs →
  add_vote_row gen s counts w vrs info = Ok vrs' →
  rows_of gen s counts w (seen ++ [info]) vrs'.
Proof.
  intros [Hlen Hall] Hbody. unfold add_vote_row in Hbody.
  apply bind_Ok in Hbody as (r & Hr & Hbody). injection Hbody as <-.
  apply vote_row_inv in Hr.
  split; [rewrite !length_app; simpl; lia |].
  intros i info' Hi. apply lookup_snoc_Some in Hi as [[Hlt Hi] | [-> <-]].
  - destruct (Hall i info' Hi) as (r' & ? & ?).
    exists r'. split; [by apply lookup_app_l_Some | done].
  - exists r. split; [| done].
    rewrite <- Hlen. by rewrite lookup_app_r, Nat.sub_diag by lia.
Qed.

Lemma vote_rows_inv (gen : nat) (s : Sim) (counts : list nat) (w : nat)
    (infos : list VoteInfo) (vrs : list VoteRecord) :
  foldM (add_vote_row gen s counts w) infos [] = Ok vrs →
  rows_of gen s counts w infos vrs.
Proof.
  intros Hrun.
  apply (foldM_invariant _ (λ done_ vrs, rows_of gen s counts w done_ vrs)) in Hrun.
  - done.
  - split; [done |]. intros i info Hi. done.
  - intros done_ info todo vrs1 vrs2 _ HI Hbody. by eapply add_vote_row_inv.
Qed.

Lemma vote_rows_Ok (gen : nat) (s : Sim) (counts : list nat) (w : nat)
    (infos : list VoteInfo) :
  Forall (λ info, (vi_voter_id info < length (voters s))%nat
                  ∧ (length (candidates s) ≤ length (vi_included info))%nat
                  ∧ (length (candidates s) ≤ length (vi_utilities info))%nat) infos →
  is_Ok (foldM (add_vote_row gen s counts w) infos []).
Proof.
  intros Hall.
  destruct (foldM_total (add_vote_row gen s counts w)
    (λ done_ vrs, rows_of gen s counts w done_ vrs) infos []) as (vrs & Hrun & _).
  - split; [done |]. intros i info Hi. done.
  - intros done_ info todo vrs1 Hl HI.
    assert (info ∈ infos) as Hin by (rewrite Hl; set_solver).
    rewrite Forall_forall in Hall. destruct (Hall info Hin) as (Hv & Hinc & Hu).
    destruct (vote_row_Ok gen s counts w info Hv Hinc Hu) as [r Hr].
    assert (add_vote_row gen s counts w vrs1 info = Ok (vrs1 ++ [r])) as Hadd.
    { unfold add_vote_row. by rewrite Hr. }
    eexists. split; [exact Hadd |]. by eapply add_vote_row_inv.
  - by exists vrs.
Qed.

(** *** The simulation loop *)

(** The entries of [vote_info] are the voters' own, in order. *)
Lemma polled_info (cands : list Candidate) (voters_ vs : list Voter)
    (ballots : list nat) (infos : list VoteInfo) (i : nat) (info : VoteInfo) :
  polled P cands voters_ (vs, ballots, infos) →
  infos !! i = Some info →
  ∃ v b, voters_ !! i = Some v
         ∧ ballots !! i = Some b
         ∧ argmax Qltb (map (payoff P v) cands) = Ok b
         ∧ info = info_of P cands i v b.
Proof.
  intros (_ & _ & Hinfo & Hall) Hi. simpl in Hinfo, Hall.
  destruct (lookup_lt_is_Some_2 voters_ i) as [v Hv].
  { rewrite <- Hinfo. by eapply lookup_lt_Some. }
  destruct (Hall i v Hv) as (b & Hmax & Hb & Hinfo' & _).
  exists v, b. split_and!; [done | done | done | congruence].
Qed.

Lemma record_generation_inv (s s' : Sim) (k k' gen : nat) (t t' : Tables) :
  record_generation P rs (s, k, t) gen = Ok (s', k', t') →
  ∃ info counts w vrs,
    run_generation_detailed P rs s k = Ok (info, counts, w, s', k')
    ∧ rows_of gen s' counts w info vrs
    ∧ vote_records t' = vote_records t ++ vrs
    ∧ election_summary t'
      = election_summary t
        ++ [{| es_generation := gen; es_vote_counts := counts; es_winner_idx := w |}]
    ∧ candidate_records t'
      = candidate_records t ++ candidate_rows gen w (candidates s').
Proof.
  unfold record_generation. intros H.
  apply bind_Ok in H as ([[[[info counts] w] s1] k1] & Hgen & H).
  apply bind_Ok in H as (vrs & Hvrs & H).
  injection H as <- <- <-. simpl.
  exists info, counts, w, vrs. split_and!; try done.
  by apply vote_rows_inv.
Qed.

Lemma record_generation_Ok (s : Sim) (k gen : nat) (t : Tables) :
  wf P s → is_Ok (run_generation_detailed P rs s k) →
  is_Ok (record_generation P rs (s, k, t) gen).
Proof.
  intros Hwf [[[[[info counts] w] s'] k'] Hgen].
  unfold record_generation. rewrite Hgen. simpl.
  pose proof Hwf as [Hnv Hnc].
  pose proof (run_generation_detailed_wf _ _ _ _ _ _ _ Hwf Hgen) as [Hnv' Hnc'].
  apply run_generation_detailed_inv in Hgen
    as (ballots & winner & Hpoll & _); [| done].
  destruct (vote_rows_Ok gen s' counts w info) as [vrs ->]; [| by eexists].
  apply Forall_lookup. intros i x Hx.
  destruct (polled_info _ _ _ _ _ _ _ Hpoll Hx) as (v & b & Hv & _ & _ & ->).
  apply lookup_lt_Some in Hv. simpl. unfold scratch.
  rewrite length_app, !length_map, length_replicate. lia.
Qed.

Lemma record_generation_wf (s s' : Sim) (k k' gen : nat) (t t' : Tables) :
  wf P s → record_generation P rs (s, k, t) gen = Ok (s', k', t') → wf P s'.
Proof.
  intros Hwf H.
  apply record_generation_inv in H as (info & counts & w & vrs & Hgen & _).
  by eapply run_generation_detailed_wf.
Qed.

(** On a runnable configuration the whole simulation runs through. *)
Lemma run_simulation_detailed_Ok (s : Sim) (k : nat) :
  wf P s → runnable P → is_Ok (run_simulation_detailed P rs s k).
Proof.
  intros Hwf Hrun. unfold run_simulation_detailed.
  destruct (foldM_total (record_generation P rs) (λ _ st, wf P st.1.1)
    (py_range (MAX_GENERATIONS P))
    (s, k, {| vote_records := []; election_summary := []; candidate_records := [] |}))
    as (st & Hst & _).
  - done.
  - intros done_ gen todo [[s1 k1] t1] _ Hwf1. simpl in Hwf1.
    destruct (record_generation_Ok s1 k1 gen t1 Hwf1) as [[[s2 k2] t2] H2].
    { by apply run_generation_detailed_Ok. }
    exists (s2, k2, t2). split; [done |]. simpl. by eapply record_generation_wf.
  - by exists st.
Qed.

(** If the first generation raises, so does the simulation. *)
Lemma run_simulation_detailed_Err (s : Sim) (k : nat) :
  1 <= MAX_GENERATIONS P →
  is_Err (run_generation_detailed P rs s k) →
  is_Err (run_simulation_detailed P rs s k).
Proof.
  intros Hg Herr. unfold run_simulation_detailed, py_range.
  destruct (Z.to_nat (MAX_GENERATIONS P)) as [|n] eqn:E; [lia |].
  simpl. apply bind_Err. unfold record_generation. by apply bind_Err.
Qed.

(** *** Construction *)

Lemma init_Ok (k : nat) : ∃ s k', init P rs k = Ok (s, k') ∧ wf P s.
Proof.
  unfold init.
  set (types := py_repeat safe _ ++ py_repeat risk _).
  assert (Z.to_nat (N_VOTERS P) ≤ length types)%nat as Htypes.
  { subst types. unfold py_repeat. rewrite length_app, !length_replicate. lia. }
  destruct (foldM_total
    (λ '(vs, k0) i,
       let '(x, k') := uniform rs 0 100 k0 in
       t ← getitem types i; Ok (vs ++ [new_Voter P x t], k'))
    (λ done_ (st : list Voter * nat), length st.1 = length done_)
    (py_range (N_VOTERS P)) ([], k)) as ([vs k1] & Hvs & Hlen).
  - done.
  - intros done_ i todo [vs0 k0] Hl HI. simpl in HI.
    apply py_range_split in Hl as (-> & Hlt & _).
    destruct (lookup_lt_is_Some_2 types (length done_)) as [t Ht]; [lia |].
    simpl. unfold getitem. rewrite Ht. simpl.
    eexists. split; [done |]. simpl. rewrite !length_app. simpl. lia.
  - rewrite Hvs. simpl.
    set (body := λ '(cs, k0) (_ : nat), _).
    assert (∀ l acc, length (foldl body acc l).1 = (length acc.1 + length l)%nat)
      as Hgrow.
    { induction l as [|x l IH]; intros [cs k0]; simpl; [lia |].
      rewrite IH. simpl. rewrite length_app. simpl. lia. }
    specialize (Hgrow (py_range (N_CANDIDATES P)) ([], k1)).
    destruct (foldl body ([], k1) (py_range (N_CANDIDATES P))) as [cs k2].
    eexists _, _. split; [done |]. simpl in *.
    unfold wf, py_range in *. simpl. rewrite length_seq in *. lia.
Qed.

(** *** The whole script *)

Lemma main_Ok (k : nat) : runnable P → is_Ok (main P rs k).
Proof.
  intros Hrun. unfold main.
  destruct (init_Ok k) as (s & k' & -> & Hwf). simpl.
  by apply run_simulation_detailed_Ok.
Qed.

Lemma main_no_candidates (k : nat) :
  N_CANDIDATES P < 1 → 1 <= MAX_GENERATIONS P → is_Err (main P rs k).
Proof.
  intros Hn Hg. unfold main.
  destruct (init_Ok k) as (s & k' & -> & Hwf). simpl.
  by apply run_simulation_detailed_Err, run_generation_detailed_no_candidates.
Qed.

Lemma main_negative (k : nat) :
  (PUBLIC_GOODS_MUT_STD P < 0)%Q ∨ (POLICY_MUT_STD P < 0)%Q →
  2 <= N_CANDIDATES P → 1 <= MAX_GENERATIONS P →
  is_Err (main P rs k).
Proof.
  intros Hneg Hn Hg. unfold main.
  destruct (init_Ok k) as (s & k' & -> & Hwf). simpl.
  by apply run_simulation_detailed_Err, run_generation_detailed_negative.
Qed.

End WithParams.
End DetailedFacts.

(** ** The prototype variant *)

Module PrototypeFacts.
Import Prototype.

Section WithParams.
Context (P : Params) (rs : RandomState).

(** *** Voting *)

Lemma coalition_prob_of_Ok (c : Candidate) :
  N_VOTERS P ≠ 0 → coalition_prob_of P c = Ok (estimate P c).
Proof.
  intros HN. unfold coalition_prob_of, estimate.
  case_decide; by rewrite py_truediv_Ok by by apply inject_Z_nonzero.
Qed.

Lemma coalition_prob_of_inv (c : Candidate) (p : Q) :
  coalition_prob_of P c = Ok p → N_VOTERS P ≠ 0 ∧ p = estimate P c.
Proof.
  unfold coalition_prob_of, estimate.
  case_decide; intros Hp; apply py_truediv_inv in Hp as [Hnz ->];
    (split; [| done]); intros E; apply Hnz; by rewrite E.
Qed.

Lemma proto_utility_inv (v : Voter) (c : Candidate) (u : Q) :
  utility P v c (estimate P c) (inclusion P v c (estimate P c)) = Ok u →
  u = payoff P v c.
Proof.
  unfold utility, payoff. intros H.
  apply bind_Ok in H as (share & Hshare & H).
  apply bind_Ok in H as (priv & Hpriv & H).
  injection H as <-.
  apply py_truediv_inv in Hshare as [_ ->].
  destruct (inclusion P v c (estimate P c)).
  - apply bind_Ok in Hpriv as (prize & Hprize & Hpriv). injection Hpriv as <-.
    by apply py_truediv_inv in Hprize as [_ ->].
  - by injection Hpriv as <-.
Qed.

Lemma proto_utility_Ok (v : Voter) (c : Candidate) :
  N_VOTERS P ≠ 0 →
  utility P v c (estimate P c) (inclusion P v c (estimate P c)) = Ok (payoff P v c).
Proof.
  intros HN. unfold utility, payoff.
  rewrite !py_truediv_Ok by by apply inject_Z_nonzero. simpl.
  by destruct (inclusion P v c (estimate P c)).
Qed.

(** The utilities the inner loop collects, when it does not raise. *)
Lemma proto_evaluate_inv (cands : list Candidate) (v : Voter) (utilities : list Q) :
  evaluate P cands v = Ok utilities → utilities = map (payoff P v) cands.
Proof.
  unfold evaluate. intros Hrun.
  apply (foldM_invariant _ (λ done_ us, us = map (payoff P v) done_)) in Hrun.
  - done.
  - done.
  - intros done_ c todo us us' _ -> Hbody.
    apply bind_Ok in Hbody as (p & Hp & Hbody).
    apply bind_Ok in Hbody as (u & Hu & Hbody).
    injection Hbody as <-.
    apply coalition_prob_of_inv in Hp as [_ ->].
    apply proto_utility_inv in Hu as ->. by rewrite map_app.
Qed.

Lemma proto_evaluate_Ok (cands : list Candidate) (v : Voter) :
  N_VOTERS P ≠ 0 → evaluate P cands v = Ok (map (payoff P v) cands).
Proof.
  intros HN. unfold evaluate.
  destruct (foldM_total
    (λ utilities candidate,
       coalition_prob ← coalition_prob_of P candidate;
       let included := inclusion P v candidate coalition_prob in
       u ← utility P v candidate coalition_prob included;
       Ok (utilities ++ [u]))
    (λ done_ us, us = map (payoff P v) done_) cands []) as (us & Hrun & ->).
  - done.
  - intros done_ c todo us _ ->.
    rewrite (coalition_prob_of_Ok c HN). simpl.
    rewrite (proto_utility_Ok v c HN). simpl.
    eexists. split; [done |]. by rewrite map_app.
  - done.
Qed.

Lemma proto_cast_ballot_inv (cands : list Candidate) (seen : list Voter) (v : Voter)
    (ballots ballots' : list nat) :
  polled P cands seen ballots →
  cast_ballot P cands ballots v = Ok ballots' →
  polled P cands (seen ++ [v]) ballots'.
Proof.
  intros [Hlen Hall] Hbody. unfold cast_ballot in Hbody.
  apply bind_Ok in Hbody as (us & Hus & Hbody).
  apply bind_Ok in Hbody as (chosen & Hmax & Hbody).
  injection Hbody as <-. apply proto_evaluate_inv in Hus as ->.
  split; [rewrite !length_app; simpl; lia |].
  intros i w Hw. apply lookup_snoc_Some in Hw as [[Hlt Hw] | [-> <-]].
  - destruct (Hall i w Hw) as (b & ? & ?).
    exists b. split; [done | by apply lookup_app_l_Some].
  - exists chosen. split; [done |].
    rewrite <- Hlen. by rewrite lookup_app_r, Nat.sub_diag by lia.
Qed.

(** The ballots of step 1, when it does not raise. *)
Lemma proto_poll_inv (s : Sim) (ballots : list nat) :
  poll P s = Ok ballots → polled P (candidates s) (voters s) ballots.
Proof.
  unfold poll. intros Hrun.
  apply (foldM_invariant _ (λ done_ bs, polled P (candidates s) done_ bs)) in Hrun.
  - done.
  - split; [done |]. intros i v Hv. done.
  - intros done_ v todo bs bs' _ HI Hbody. by eapply proto_cast_ballot_inv.
Qed.

(** Step 1 does not raise when there is a candidate to vote for. *)
Lemma proto_poll_Ok (s : Sim) :
  (voters s ≠ [] → N_VOTERS P ≠ 0 ∧ candidates s ≠ []) →
  is_Ok (poll P s).
Proof.
  intros Hpre. unfold poll.
  destruct (foldM_total (cast_ballot P (candidates s))
    (λ done_ bs, polled P (candidates s) done_ bs) (voters s) []) as (bs & Hrun & _).
  - split; [done |]. intros i v Hv. done.
  - intros done_ v todo bs Hl HI.
    destruct Hpre as [HN Hne]; [rewrite Hl; by destruct done_ |].
    destruct (argmax_Ok Qltb (map (payoff P v) (candidates s))) as (b & Hb).
    { by destruct (candidates s). }
    assert (cast_ballot P (candidates s) bs v = Ok (bs ++ [b])) as Hcast.
    { unfold cast_ballot. rewrite (proto_evaluate_Ok _ _ HN). simpl. by rewrite Hb. }
    eexists. split; [exact Hcast |]. by eapply proto_cast_ballot_inv.
  - by exists bs.
Qed.

(** With a voter and no candidate, the first ballot already raises. *)
Lemma proto_poll_no_candidates (s : Sim) :
  candidates s = [] → voters s ≠ [] → is_Err (poll P s).
Proof.
  intros Hc Hv. unfold poll. rewrite Hc.
  destruct (voters s) as [|v vs]; [done |].
  simpl. by eexists.
Qed.

Lemma proto_polled_ballots_in_range (cands : list Candidate) (voters_ : list Voter)
    (ballots : list nat) :
  polled P cands voters_ ballots → Forall (λ b, b < length cands)%nat ballots.
Proof.
  intros [Hlen Hall]. apply Forall_lookup. intros i b Hb.
  destruct (lookup_lt_is_Some_2 voters_ i) as [v Hv].
  { rewrite <- Hlen. by eapply lookup_lt_Some. }
  destruct (Hall i v Hv) as (b' & Hmax & Hb').
  rewrite Hb in Hb'. injection Hb' as <-.
  apply argmax_Q_spec, first_max_lt_length in Hmax.
  by rewrite length_map in Hmax.
Qed.

(** *** Support and coalitions *)

Lemma supporters_of_size (ballots : list nat) (idx : nat) :
  size (supporters_of ballots idx) = length (filter (λ b, b = idx) ballots).
Proof.
  unfold supporters_of. rewrite size_list_to_set.
  - rewrite length_map. apply filter_enumerate_length.
  - apply filter_fst_NoDup. rewrite fst_enumerate. apply NoDup_seq.
Qed.

Lemma elem_of_supporters_of (ballots : list nat) (idx i : nat) :
  i ∈ supporters_of ballots idx ↔ ballots !! i = Some idx.
Proof.
  unfold supporters_of.
  rewrite elem_of_list_to_set, list_elem_of_fmap. split.
  - intros ([j b] & -> & Hin). apply list_elem_of_filter in Hin as [Hb Hin].
    simpl in Hb. subst b.
    apply list_elem_of_lookup in Hin as [n Hn].
    pose proof Hn as Hn'. apply enumerate_lookup in Hn' as [-> Hn']. done.
  - intros Hi. exists (i, idx). split; [done |].
    apply list_elem_of_filter. split; [done |].
    apply list_elem_of_lookup. exists i. by apply enumerate_lookup.
Qed.

(** Step 2 computes [with_support] slot by slot. *)
Lemma count_support_spec (ballots : list nat) (cands : list Candidate) (k : nat) :
  count_support P rs ballots cands k
  = (imap (with_support P rs ballots k) cands, (k + length cands)%nat).
Proof.
  unfold count_support.
  pose proof (foldl_invariant (form_coalition P rs ballots)
           (λ done_ st, st = (imap (with_support P rs ballots k) (map snd done_),
                              (k + length (map snd done_))%nat))
           (enumerate cands) ([], k)) as Hinv.
  simpl in Hinv. rewrite snd_enumerate in Hinv. apply Hinv.
  - f_equal. lia.
  - intros done_ [idx c] todo st Hl ->.
    apply enumerate_seen in Hl as (-> & _ & _ & ->).
    unfold form_coalition. f_equal.
    + rewrite imap_app. simpl. by rewrite Nat.add_0_r.
    + rewrite length_app. simpl. lia.
Qed.

(** *** Mutation *)

Lemma proto_mutate_inv (self c : Candidate) (flag : bool) (k k' : nat) :
  mutate P rs self flag k = Ok (c, k') →
  c = offspring P rs self flag k ∧ k' = (k + draws flag)%nat.
Proof.
  unfold mutate, offspring, draws. intros H.
  apply bind_Ok in H as ([da k1] & Hda & H).
  apply bind_Ok in H as ([x k2] & Hx & H).
  apply normal_inv in Hda as (_ & -> & ->).
  injection H as <- <-.
  destruct flag.
  - apply bind_Ok in Hx as ([dp k3] & Hdp & Hx).
    apply normal_inv in Hdp as (_ & -> & ->).
    injection Hx as <- <-. split; [done | lia].
  - injection Hx as <- <-. split; [done | lia].
Qed.

Lemma proto_mutate_Ok (self : Candidate) (flag : bool) (k : nat) :
  (0 <= PUBLIC_GOODS_MUT_STD P)%Q →
  (flag = true → (0 <= POLICY_MUT_STD P)%Q) →
  mutate P rs self flag k = Ok (offspring P rs self flag k, (k + draws flag)%nat).
Proof.
  intros Ha Hp. unfold mutate, offspring, draws.
  rewrite (normal_Ok _ _ _ _ Ha). simpl.
  destruct flag.
  - rewrite (normal_Ok _ _ _ _ (Hp eq_refl)). simpl. do 2 f_equal. lia.
  - simpl. do 2 f_equal. lia.
Qed.

Lemma proto_mutate_negative (self : Candidate) (flag : bool) (k : nat) :
  (PUBLIC_GOODS_MUT_STD P < 0)%Q ∨ (flag = true ∧ (POLICY_MUT_STD P < 0)%Q) →
  is_Err (mutate P rs self flag k).
Proof.
  intros Hneg. unfold mutate.
  destruct (Qlt_le_dec (PUBLIC_GOODS_MUT_STD P) 0) as [Ha | Ha].
  - by apply bind_Err, normal_negative.
  - destruct Hneg as [Hneg | [-> Hneg]]; [apply Qlt_not_le in Hneg; contradiction |].
    rewrite (normal_Ok _ _ _ _ Ha). simpl.
    by apply bind_Err, bind_Err, normal_negative.
Qed.

Lemma proto_mutate_bounds (self c : Candidate) (flag : bool) (k k' : nat) :
  mutate P rs self flag k = Ok (c, k') →
  (0 <= c_alpha c)%Q ∧ (c_alpha c <= 1)%Q
  ∧ (0 <= c_policy c)%Q ∧ (c_policy c <= 100)%Q.
Proof.
  unfold mutate. intros H.
  apply bind_Ok in H as ([da k1] & Hda & H).
  apply bind_Ok in H as ([x k2] & Hx & H).
  injection H as <- <-. simpl.
  destruct (clip_bounds (c_alpha self + da) 0 1) as [? ?]; [done |].
  destruct (clip_bounds x 0 100) as [? ?]; [done |].
  done.
Qed.

(** *** Step 4 *)

Lemma replicated_init (winner : Candidate) (flag : bool) (k : nat) :
  replicated P rs winner flag k 0 ([winner], k).
Proof.
  unfold replicated. simpl. split_and!; [done | done | lia |].
  intros i Hi. lia.
Qed.

Lemma replicate_step_inv (winner : Candidate) (flag : bool) (k j : nat)
    (st st' : list Candidate * nat) :
  replicated P rs winner flag k j st →
  (let '(new_candidates, k0) := st in
   '(new_cand, k') ← mutate P rs winner flag k0;
   Ok (new_candidates ++ [new_cand], k')) = Ok st' →
  replicated P rs winner flag k (S j) st'.
Proof.
  destruct st as [cs k0]. intros (Hlen & H0 & Hk & Hall) Hbody.
  simpl in Hlen, H0, Hk, Hall.
  apply bind_Ok in Hbody as ([c k'] & Hc & Hbody). injection Hbody as <-.
  apply proto_mutate_inv in Hc as [-> ->].
  unfold replicated. simpl. split_and!.
  - rewrite length_app. simpl. lia.
  - by apply lookup_app_l_Some.
  - subst k0. lia.
  - intros i Hi. destruct (decide (i = j)) as [-> | Hne].
    + rewrite lookup_app_r by lia. rewrite Hlen, Nat.sub_diag. simpl. by subst k0.
    + apply lookup_app_l_Some. apply Hall. lia.
Qed.

(** What step 4 builds, when it does not raise. *)
Lemma replicate_winner_inv (winner : Candidate) (flag : bool) (k k' : nat)
    (cands : list Candidate) :
  replicate_winner P rs winner flag k = Ok (cands, k') →
  replicated P rs winner flag k (Z.to_nat (N_CANDIDATES P - 1)) (cands, k').
Proof.
  unfold replicate_winner. intros Hrun.
  apply (foldM_invariant _
           (λ done_ st, replicated P rs winner flag k (length done_) st)) in Hrun.
  - unfold py_range in Hrun. by rewrite length_seq in Hrun.
  - apply replicated_init.
  - intros done_ i todo st st' _ HI Hbody.
    rewrite length_app. simpl. rewrite Nat.add_1_r.
    eapply replicate_step_inv; [exact HI |]. by destruct st.
Qed.

Lemma replicate_winner_Ok (winner : Candidate) (flag : bool) (k : nat) :
  (0 <= PUBLIC_GOODS_MUT_STD P)%Q →
  (flag = true → (0 <= POLICY_MUT_STD P)%Q) →
  is_Ok (replicate_winner P rs winner flag k).
Proof.
  intros Ha Hp. unfold replicate_winner.
  destruct (foldM_total
    (λ '(new_candidates, k0) (_ : nat),
       '(new_cand, k') ← mutate P rs winner flag k0;
       Ok (new_candidates ++ [new_cand], k'))
    (λ _ _, True) (py_range (N_CANDIDATES P - 1)) ([winner], k)) as (st & Hst & _).
  - done.
  - intros done_ i todo [cs k0] _ _.
    rewrite (proto_mutate_Ok _ _ _ Ha Hp). simpl. by eexists.
  - by exists st.
Qed.

Lemma replicate_winner_negative (winner : Candidate) (flag : bool) (k : nat) :
  (PUBLIC_GOODS_MUT_STD P < 0)%Q ∨ (flag = true ∧ (POLICY_MUT_STD P < 0)%Q) →
  2 <= N_CANDIDATES P →
  is_Err (replicate_winner P rs winner flag k).
Proof.
  intros Hneg Hn. unfold replicate_winner.
  apply (foldM_Err _ _ _ 0%nat).
  - unfold py_range. apply elem_of_seq. lia.
  - intros [cs k0]. by apply bind_Err, proto_mutate_negative.
Qed.

(** *** One generation *)

(** What a generation computes, when it does not raise. *)
Lemma run_generation_inv (s s' : Sim) (flag : bool) (k k' : nat)
    (winner : Candidate) (sizes : list nat) :
  run_generation P rs s flag k = Ok (winner, sizes, s', k') →
  ∃ ballots w,
    poll P s = Ok ballots
    ∧ sizes = map (λ c, size (c_winning_coalition c))
                  (imap (with_support P rs ballots k) (candidates s))
    ∧ argmax Nat.ltb sizes = Ok w
    ∧ imap (with_support P rs ballots k) (candidates s) !! w = Some winner
    ∧ voters s' = voters s
    ∧ replicated P rs winner flag (k + length (candidates s))
        (Z.to_nat (N_CANDIDATES P - 1)) (candidates s', k').
Proof.
  unfold run_generation. intros H.
  apply bind_Ok in H as (ballots & Hpoll & H).
  rewrite count_support_spec in H.
  apply bind_Ok in H as (w & Hw & H).
  apply bind_Ok in H as (win & Hwin & H).
  apply bind_Ok in H as ([cands kk] & Hrep & H).
  injection H as <- <- <- <-. simpl.
  apply getitem_Ok in Hwin.
  exists ballots, w. split_and!; try done.
  by apply replicate_winner_inv.
Qed.

(** A generation keeps the shape of the simulator. *)
Lemma run_generation_wf (s s' : Sim) (flag : bool) (k k' : nat)
    (winner : Candidate) (sizes : list nat) :
  wf P s → run_generation P rs s flag k = Ok (winner, sizes, s', k') → wf P s'.
Proof.
  intros [Hnv Hnc] H.
  apply run_generation_inv in H as (ballots & w & _ & _ & _ & Hwin & Hvs & Hrep).
  apply lookup_lt_Some in Hwin. rewrite length_imap in Hwin.
  destruct Hrep as (Hlen & _). simpl in Hlen.
  split; [congruence | lia].
Qed.

(** On a runnable configuration a generation does not raise. *)
Lemma run_generation_Ok (s : Sim) (flag : bool) (k : nat) :
  wf P s → runnable P flag → is_Ok (run_generation P rs s flag k).
Proof.
  intros [Hnv Hnc] (Hn & Ha & Hp). unfold run_generation.
  destruct (proto_poll_Ok s) as [ballots Hpoll].
  { intros Hne. split.
    - destruct (voters s); [done |]. simpl in Hnv. lia.
    - destruct (candidates s); [simpl in Hnc; lia | done]. }
  rewrite Hpoll. simpl. rewrite count_support_spec.
  set (cands := imap _ (candidates s)).
  assert (length cands = length (candidates s)) as Hlen
    by (subst cands; apply length_imap).
  destruct (argmax_Ok Nat.ltb (map (λ c, size (c_winning_coalition c)) cands))
    as [w Hw].
  { destruct cands; [simpl in Hlen; lia | done]. }
  rewrite Hw. simpl.
  destruct (lookup_lt_is_Some_2 cands w) as [winner Hwinner].
  { apply argmax_nat_spec, first_max_lt_length in Hw. by rewrite length_map in Hw. }
  unfold getitem. rewrite Hwinner. simpl.
  destruct (replicate_winner_Ok winner flag (k + length (candidates s)) Ha Hp)
    as [[cs kk] Hrep].
  rewrite Hrep. simpl. by eexists.
Qed.

(** Without a candidate a generation raises. *)
Lemma run_generation_no_candidates (s : Sim) (flag : bool) (k : nat) :
  wf P s → N_CANDIDATES P < 1 → is_Err (run_generation P rs s flag k).
Proof.
  intros [Hnv Hnc] Hn. unfold run_generation.
  assert (candidates s = []) as Hnil.
  { destruct (candidates s); [done | simpl in Hnc; lia]. }
  destruct (voters s) as [|v vs] eqn:Hvs.
  - unfold poll. rewrite Hvs. simpl. rewrite count_support_spec, Hnil. simpl.
    by eexists.
  - apply bind_Err, proto_poll_no_candidates; [done | by rewrite Hvs].
Qed.

(** With a negative deviation and a slot to fill a generation raises. *)
Lemma run_generation_negative (s : Sim) (flag : bool) (k : nat) :
  (PUBLIC_GOODS_MUT_STD P < 0)%Q ∨ (flag = true ∧ (POLICY_MUT_STD P < 0)%Q) →
  2 <= N_CANDIDATES P →
  is_Err (run_generation P rs s flag k).
Proof.
  intros Hneg Hn. unfold run_generation.
  destruct (poll P s) as [ballots|e]; simpl; [| by eexists].
  rewrite count_support_spec.
  destruct (argmax Nat.ltb _) as [w|e]; simpl; [| by eexists].
  destruct (getitem _ w) as [winner|e]; simpl; [| by eexists].
  by apply bind_Err, replicate_winner_negative.
Qed.

(** *** The simulation loop *)

Lemma run_simulation_Ok (s : Sim) (generations : Z) (flag : bool) (k : nat) :
  wf P s → runnable P flag → is_Ok (run_simulation P rs s generations flag k).
Proof.
  intros Hwf Hrun. unfold run_simulation.
  destruct (foldM_total
    (λ '(history, s0, k0) gen,
       '(winner, coalition_sizes, s', k') ← run_generation P rs s0 flag k0;
       Ok (history ++ [{| h_generation := gen;
                          h_winner_policy := c_policy winner;
                          h_winner_alpha := c_alpha winner;
                          h_coalition_sizes := coalition_sizes |}], s', k'))
    (λ _ (st : list HistoryRecord * Sim * nat), wf P st.1.2)
    (py_range generations) ([], s, k)) as (st & Hst & _).
  - done.
  - intros done_ gen todo [[h s1] k1] _ Hwf1. simpl in Hwf1.
    destruct (run_generation_Ok s1 flag k1 Hwf1 Hrun) as [[[[win sizes] s2] k2] H2].
    rewrite H2. simpl. eexists. split; [done |]. simpl.
    by eapply run_generation_wf.
  - by exists st.
Qed.

Lemma run_simulation_Err (s : Sim) (generations : Z) (flag : bool) (k : nat) :
  1 <= generations →
  is_Err (run_generation P rs s flag k) →
  is_Err (run_simulation P rs s generations flag k).
Proof.
  intros Hg Herr. unfold run_simulation, py_range.
  destruct (Z.to_nat generations) as [|n] eqn:E; [lia |].
  simpl. by apply bind_Err, bind_Err.
Qed.

(** *** Construction and the whole script *)

Lemma init_wf (k : nat) : wf P (init P rs k).1.
Proof.
  unfold init.
  set (body1 := λ '(vs, k0) (_ : nat), _).
  pose proof (foldl_length body1 (py_range (N_VOTERS P)) ([], k)) as H1.
  destruct (foldl body1 ([], k) (py_range (N_VOTERS P))) as [vs k1].
  set (body2 := λ '(cs, k0) (_ : nat), _).
  pose proof (foldl_length body2 (py_range (N_CANDIDATES P)) ([], k1)) as H2.
  destruct (foldl body2 ([], k1) (py_range (N_CANDIDATES P))) as [cs k2].
  unfold wf, py_range in *. rewrite length_seq in *. simpl in *. split.
  - apply H1. intros [vs0 k0] x. simpl. rewrite length_app. simpl. lia.
  - apply H2. intros [cs0 k0] x. simpl. rewrite length_app. simpl. lia.
Qed.

Lemma proto_main_Ok (k : nat) : runnable P true → is_Ok (main P rs k).
Proof.
  intros Hrun. unfold main.
  pose proof (init_wf k) as Hwf. destruct (init P rs k) as [s k'].
  by apply run_simulation_Ok.
Qed.

Lemma proto_main_no_candidates (k : nat) :
  N_CANDIDATES P < 1 → 1 <= N_GENERATIONS P → is_Err (main P rs k).
Proof.
  intros Hn Hg. unfold main.
  pose proof (init_wf k) as Hwf. destruct (init P rs k) as [s k'].
  by apply run_simulation_Err, run_generation_no_candidates.
Qed.

Lemma proto_main_negative (k : nat) :
  (PUBLIC_GOODS_MUT_STD P < 0)%Q ∨ (POLICY_MUT_STD P < 0)%Q →
  2 <= N_CANDIDATES P → 1 <= N_GENERATIONS P →
  is_Err (main P rs k).
Proof.
  intros Hneg Hn Hg. unfold main.
  destruct (init P rs k) as [s k'].
  apply run_simulation_Err, run_generation_negative; [done | | done].
  destruct Hneg; [by left | by right].
Qed.

(** *** Coalitions *)

Lemma py_prefix_sublist {A} (l : list A) (q : Z) : py_prefix l q `sublist_of` l.
Proof. unfold py_prefix. destruct (q <? 0); apply sublist_take. Qed.

Lemma py_prefix_length {A} (l : list A) (q : Z) :
  0 <= q → length (py_prefix l q) = Nat.min (Z.to_nat q) (length l).
Proof.
  intros Hq. unfold py_prefix.
  destruct (q <? 0) eqn:E; [apply Z.ltb_lt in E; lia |]. apply length_take.
Qed.

Lemma shuffled_NoDup (k : nat) (X : gset nat) :
  RandomState_ok rs → NoDup (shuffled rs k (elements X)).
Proof.
  intros Hrs. rewrite (shuffled_perm rs Hrs k (elements X)). apply NoDup_elements.
Qed.

(** The coalition is drawn from the supporters. *)
Lemma coalition_subseteq (ballots : list nat) (k idx : nat) (c : Candidate) :
  RandomState_ok rs →
  c_winning_coalition (with_support P rs ballots k idx c)
  ⊆ c_supporters (with_support P rs ballots k idx c).
Proof.
  intros Hrs i Hi. simpl in *.
  apply elem_of_list_to_set in Hi.
  pose proof (elem_of_sublist _ _ _ Hi (py_prefix_sublist _ _)) as Hi'.
  rewrite (shuffled_perm rs Hrs) in Hi'. by apply elem_of_elements in Hi'.
Qed.

(** The coalition has the quota's size, or holds every supporter. *)
Lemma coalition_size (ballots : list nat) (k idx : nat) (c : Candidate) :
  RandomState_ok rs → 0 <= quota P →
  size (c_winning_coalition (with_support P rs ballots k idx c))
  = Nat.min (Z.to_nat (quota P)) (size (supporters_of ballots idx)).
Proof.
  intros Hrs Hq. simpl. rewrite size_list_to_set.
  - rewrite py_prefix_length by done.
    by rewrite (shuffled_perm rs Hrs).
  - eapply sublist_NoDup; [by apply shuffled_NoDup | apply py_prefix_sublist].
Qed.

(** A candidate nobody voted for gets the empty coalition. *)
Lemma coalition_of_no_supporters (ballots : list nat) (k idx : nat) (c : Candidate) :
  RandomState_ok rs →
  supporters_of ballots idx = ∅ →
  c_winning_coalition (with_support P rs ballots k idx c) = ∅.
Proof.
  intros Hrs Hnone.
  pose proof (coalition_subseteq ballots k idx c Hrs) as Hsub.
  cbn [c_supporters with_support] in Hsub. rewrite Hnone in Hsub.
  by apply leibniz_equiv, equiv_empty.
Qed.

Lemma quota_positive : 2 <= N_VOTERS P → 1 <= quota P.
Proof.
  intros HN. unfold quota, py_int. simpl.
  rewrite Z.quot_div_nonneg by lia.
  apply Z.div_le_lower_bound; lia.
Qed.

(** With at least two voters the winner's coalition is not empty. *)
Lemma winner_coalition_nonempty (s s' : Sim) (flag : bool) (k k' : nat)
    (winner : Candidate) (sizes : list nat) :
  RandomState_ok rs → wf P s → 2 <= N_VOTERS P →
  run_generation P rs s flag k = Ok (winner, sizes, s', k') →
  c_winning_coalition winner ≠ ∅.
Proof.
  intros Hrs [Hnv Hnc] HN Hgen.
  apply run_generation_inv in Hgen
    as (ballots & w & Hpoll & Hsizes & Hmax & Hwinner & _).
  apply proto_poll_inv in Hpoll.
  pose proof (proto_polled_ballots_in_range _ _ _ Hpoll) as Hrange.
  destruct Hpoll as [Hlen Hall].
  destruct (lookup_lt_is_Some_2 (voters s) 0) as [v Hv]; [lia |].
  destruct (Hall 0%nat v Hv) as (b & _ & Hb).
  assert (b < length (candidates s))%nat as Hblt.
  { rewrite Forall_lookup in Hrange. by eapply Hrange. }
  destruct (lookup_lt_is_Some_2 (candidates s) b Hblt) as [cb Hcb].
  assert (1 ≤ size (c_winning_coalition (with_support P rs ballots k b cb)))%nat as Hone.
  { rewrite coalition_size by (done || (pose proof quota_positive; lia)).
    pose proof (quota_positive HN).
    assert (0 < size (supporters_of ballots b))%nat; [| lia].
    assert (0%nat ∈ supporters_of ballots b) as Hin
      by by apply elem_of_supporters_of.
    destruct (decide (size (supporters_of ballots b) = 0%nat)) as [E |]; [| lia].
    apply size_empty_iff in E. rewrite E in Hin. by apply not_elem_of_empty in Hin. }
  apply argmax_nat_spec in Hmax as (x & Hx & Hge & _).
  assert (sizes !! b
          = Some (size (c_winning_coalition (with_support P rs ballots k b cb)))) as Hsb.
  { subst sizes. change (map ?f ?l) with (f <$> l).
    by rewrite list_lookup_fmap, list_lookup_imap, Hcb. }
  specialize (Hge b _ Hsb).
  assert (sizes !! w = Some (size (c_winning_coalition winner))) as Hsw.
  { subst sizes. change (map ?f ?l) with (f <$> l).
    by rewrite list_lookup_fmap, Hwinner. }
  rewrite Hx in Hsw. injection Hsw as ->.
  intros Hempty. rewrite Hempty, size_empty in Hge. lia.
Qed.

End WithParams.
End PrototypeFacts.

(** * The documented properties, claim by claim *)

Lemma decide_risk_threshold {A} (t : RiskType) (x y : A) :
  (if decide (t = risk) then x else y) = match t with risk => x | safe => y end.
Proof. by destruct t. Qed.

Lemma Qleb_and (a b c d : Q) :
  Qleb a b && Qleb c d = true ↔ (a <= b)%Q ∧ (c <= d)%Q.
Proof. by rewrite andb_true_iff, !Qleb_le. Qed.

(** C6.  In both variants [inclusion] answers true exactly when the absolute
    ideological distance between voter and candidate is at most [THETA] and
    the coalition estimate is at least the voter's threshold, which is [TAU]
    for a voter of type [risk] and [PHI] for one of type [safe].  In the
    detailed variant the answer is also stored in the voter's [included]
    list at the candidate's index, which has to exist. *)
Theorem inclusion_iff_in_range_and_above_threshold
    (Pp : Prototype.Params) (vp : Prototype.Voter) (cp : Prototype.Candidate)
    (Pd : Detailed.Params) (vd : Detailed.Voter) (cid : nat) (cand_ideo est : Q) :
  (cid < length (Detailed.v_included vd))%nat →
  (Prototype.inclusion Pp vp cp est = true
   ↔ (Qabs (Prototype.v_ideology vp - Prototype.c_policy cp) <= Prototype.THETA Pp)%Q
     ∧ (Prototype.threshold Pp (Prototype.v_risk_type vp) <= est)%Q)
  ∧ ∃ vd' b,
      Detailed.inclusion Pd vd cid est cand_ideo = Ok (vd', b)
      ∧ Detailed.v_included vd' !! cid = Some b
      ∧ (b = true
         ↔ (Qabs (Detailed.v_ideology vd - cand_ideo) <= Detailed.THETA Pd)%Q
           ∧ (Detailed.threshold Pd (Detailed.v_risk_type vd) <= est)%Q).
Proof.
  intros Hcid. split.
  - unfold Prototype.inclusion, Prototype.threshold.
    rewrite decide_risk_threshold. apply Qleb_and.
  - eexists _, _. split; [by apply DetailedFacts.inclusion_Ok |]. split.
    + simpl. by apply list_lookup_insert_eq.
    + unfold Detailed.believes, Detailed.threshold.
      rewrite decide_risk_threshold. apply Qleb_and.
Qed.

Lemma inclusion_iff_in_range_and_above_threshold_witness :
  (Prototype.inclusion Prototype.shipped
     {| Prototype.v_ideology := 40; Prototype.v_risk_type := risk |}
     (Prototype.new_Candidate 50 (1 # 2)) (7 # 10) = true
   ↔ (Qabs (40 - 50) <= 15)%Q ∧ (6 # 10 <= 7 # 10)%Q)
  ∧ ∃ vd' b,
      Detailed.inclusion Detailed.shipped
        (Detailed.new_Voter Detailed.shipped 40 safe) 2 (7 # 10) 70 = Ok (vd', b)
      ∧ Detailed.v_included vd' !! 2%nat = Some b
      ∧ (b = true ↔ (Qabs (40 - 70) <= 15)%Q ∧ (3 # 10 <= 7 # 10)%Q).
Proof.
  apply (inclusion_iff_in_range_and_above_threshold
           Prototype.shipped
           {| Prototype.v_ideology := 40; Prototype.v_risk_type := risk |}
           (Prototype.new_Candidate 50 (1 # 2))
           Detailed.shipped (Detailed.new_Voter Detailed.shipped 40 safe) 2 70 (7 # 10)).
  simpl. lia.
Defined.

Lemma mutations_bounds_detailed (P : Detailed.Params) (rs : RandomState)
    (flags : list bool) (self c : Detailed.Candidate) (k k' : nat) :
  flags ≠ [] →
  Detailed.mutations P rs self flags k = Ok (c, k') →
  (0 <= Detailed.c_alpha c)%Q ∧ (Detailed.c_alpha c <= 1)%Q
  ∧ (-100 <= Detailed.c_ideology c)%Q ∧ (Detailed.c_ideology c <= 100)%Q.
Proof.
  revert self k. induction flags as [|flag flags IH]; intros self k Hne H; [done |].
  simpl in H. apply bind_Ok in H as ([c1 k1] & Hc1 & H).
  destruct flags as [|flag' flags].
  - injection H as <- <-. by eapply DetailedFacts.mutate_bounds.
  - by eapply IH.
Qed.

Lemma mutations_bounds_prototype (P : Prototype.Params) (rs : RandomState)
    (flags : list bool) (self c : Prototype.Candidate) (k k' : nat) :
  flags ≠ [] →
  Prototype.mutations P rs self flags k = Ok (c, k') →
  (0 <= Prototype.c_alpha c)%Q ∧ (Prototype.c_alpha c <= 1)%Q
  ∧ (0 <= Prototype.c_policy c)%Q ∧ (Prototype.c_policy c <= 100)%Q.
Proof.
  revert self k. induction flags as [|flag flags IH]; intros self k Hne H; [done |].
  simpl in H. apply bind_Ok in H as ([c1 k1] & Hc1 & H).
  destruct flags as [|flag' flags].
  - injection H as <- <-. by eapply PrototypeFacts.proto_mutate_bounds.
  - by eapply IH.
Qed.

Lemma mutations_Ok_detailed (P : Detailed.Params) (rs : RandomState)
    (flags : list bool) (self : Detailed.Candidate) (k : nat) :
  (0 <= Detailed.PUBLIC_GOODS_MUT_STD P)%Q → (0 <= Detailed.POLICY_MUT_STD P)%Q →
  is_Ok (Detailed.mutations P rs self flags k).
Proof.
  intros Ha Hp. revert self k.
  induction flags as [|flag flags IH]; intros self k; simpl; [by eexists |].
  unfold Detailed.mutate.
  rewrite (normal_Ok _ _ _ _ Ha). simpl.
  destruct flag; [rewrite (normal_Ok _ _ _ _ Hp) |]; simpl; apply IH.
Qed.

Lemma mutations_Ok_prototype (P : Prototype.Params) (rs : RandomState)
    (flags : list bool) (self : Prototype.Candidate) (k : nat) :
  (0 <= Prototype.PUBLIC_GOODS_MUT_STD P)%Q → (0 <= Prototype.POLICY_MUT_STD P)%Q →
  is_Ok (Prototype.mutations P rs self flags k).
Proof.
  intros Ha Hp. revert self k.
  induction flags as [|flag flags IH]; intros self k; simpl; [by eexists |].
  rewrite (PrototypeFacts.proto_mutate_Ok P rs self flag k Ha (λ _, Hp)). simpl. apply IH.
Qed.

(** C5.  Whatever the candidate and however long the line of descent, with
    or without ideology mutation at each step, a mutation with non-negative
    standard deviations returns an offspring, and every offspring returned
    has [alpha] in [0,1] and an ideology in [-100,100] (detailed variant) or
    a policy in [0,100] (prototype).  The random source is arbitrary, so
    this covers a parent at [alpha = 1] or [alpha = 0] and draws of any size
    and sign. *)
Theorem mutate_keeps_alpha_and_ideology_in_bounds
    (Pd : Detailed.Params) (Pp : Prototype.Params) (rs : RandomState)
    (flags : list bool) (cd : Detailed.Candidate) (cp : Prototype.Candidate)
    (k : nat) :
  flags ≠ [] →
  ((0 <= Detailed.PUBLIC_GOODS_MUT_STD Pd)%Q → (0 <= Detailed.POLICY_MUT_STD Pd)%Q →
   is_Ok (Detailed.mutations Pd rs cd flags k))
  ∧ (∀ c k', Detailed.mutations Pd rs cd flags k = Ok (c, k') →
       (0 <= Detailed.c_alpha c)%Q ∧ (Detailed.c_alpha c <= 1)%Q
       ∧ (-100 <= Detailed.c_ideology c)%Q ∧ (Detailed.c_ideology c <= 100)%Q)
  ∧ ((0 <= Prototype.PUBLIC_GOODS_MUT_STD Pp)%Q → (0 <= Prototype.POLICY_MUT_STD Pp)%Q →
     is_Ok (Prototype.mutations Pp rs cp flags k))
  ∧ (∀ c k', Prototype.mutations Pp rs cp flags k = Ok (c, k') →
       (0 <= Prototype.c_alpha c)%Q ∧ (Prototype.c_alpha c <= 1)%Q
       ∧ (0 <= Prototype.c_policy c)%Q ∧ (Prototype.c_policy c <= 100)%Q).
Proof.
  intros Hne. split_and!.
  - apply mutations_Ok_detailed.
  - intros c k'. by apply mutations_bounds_detailed.
  - apply mutations_Ok_prototype.
  - intros c k'. by apply mutations_bounds_prototype.
Qed.

Lemma mutate_keeps_alpha_and_ideology_in_bounds_witness :
  ∃ c k',
    Detailed.mutations Detailed.shipped Scenarios.steady
      {| Detailed.c_ideology := 100; Detailed.c_alpha := 1 |} [true; false] 0 = Ok (c, k')
    ∧ (Detailed.c_alpha c <= 1)%Q ∧ (Detailed.c_ideology c <= 100)%Q.
Proof.
  destruct (mutate_keeps_alpha_and_ideology_in_bounds
              Detailed.shipped Prototype.shipped Scenarios.steady [true; false]
              {| Detailed.c_ideology := 100; Detailed.c_alpha := 1 |}
              (Prototype.new_Candidate 0 0) 0)
    as (Hok & Hbounds & _).
  - discriminate.
  - destruct Hok as [[c k'] Hc]; [by vm_compute | by vm_compute |].
    exists c, k'. split; [exact Hc |].
    destruct (Hbounds c k' Hc) as (_ & Ha & _ & Hi). by split.
Defined.

Lemma polled_ballots_of_info (P : Detailed.Params) (cands : list Detailed.Candidate)
    (voters_ vs : list Detailed.Voter) (ballots : list nat)
    (info : list Detailed.VoteInfo) :
  Detailed.polled P cands voters_ (vs, ballots, info) →
  ballots = map Detailed.vi_ballot info.
Proof.
  intros (_ & Hbs & Hinfo & Hall). simpl in Hbs, Hinfo, Hall.
  apply list_eq. intros i. rewrite list_lookup_fmap.
  destruct (voters_ !! i) as [v|] eqn:Hv.
  - destruct (Hall i v Hv) as (b & _ & -> & -> & _). done.
  - apply lookup_ge_None in Hv.
    rewrite (lookup_ge_None_2 ballots), (lookup_ge_None_2 info) by lia. done.
Qed.

Lemma supporter_sizes (P : Prototype.Params) (rs : RandomState) (ballots : list nat)
    (cands : list Prototype.Candidate) (k : nat) :
  map (λ c, size (Prototype.c_supporters c))
      (imap (Prototype.with_support P rs ballots k) cands)
  = map (λ idx, length (filter (λ b, b = idx) ballots)) (seq 0 (length cands)).
Proof.
  rewrite <- imap_seq_0.
  change (map ?f ?l) with (f <$> l). rewrite fmap_imap.
  apply imap_ext. intros i c _. simpl. apply PrototypeFacts.supporters_of_size.
Qed.

(** The ballots and the tally of a generation of the detailed variant. *)
Lemma detailed_tally (P : Detailed.Params) (rs : RandomState) (s s' : Detailed.Sim)
    (k k' w : nat) (info : list Detailed.VoteInfo) (counts : list nat) :
  Detailed.wf P s →
  Detailed.run_generation_detailed P rs s k = Ok (info, counts, w, s', k') →
  length info = Z.to_nat (Detailed.N_VOTERS P)
  ∧ (∀ vid v, Detailed.voters s !! vid = Some v →
       ∃ i, info !! vid = Some i
            ∧ Detailed.vi_voter_id i = vid
            ∧ Detailed.vi_utilities i
              = map (Detailed.payoff P v) (Detailed.candidates s)
            ∧ first_max Qlt (Detailed.vi_utilities i) (Detailed.vi_ballot i))
  ∧ length counts = Z.to_nat (Detailed.N_CANDIDATES P)
  ∧ (∀ c, (c < length counts)%nat →
       counts !! c
       = Some (length (filter (λ b, b = c) (map Detailed.vi_ballot info))))
  ∧ sum_list counts = Z.to_nat (Detailed.N_VOTERS P).
Proof.
  intros Hwf Hgen. pose proof Hwf as [Hnv Hnc].
  apply DetailedFacts.run_generation_detailed_inv in Hgen
    as (ballots & winner & Hpoll & Hcounts & Hsum & _); [| done].
  pose proof (polled_ballots_of_info _ _ _ _ _ _ Hpoll) as Hbs.
  pose proof Hpoll as (_ & _ & Hlen & Hall). simpl in Hlen, Hall.
  split_and!.
  - congruence.
  - intros vid v Hv. destruct (Hall vid v Hv) as (b & Hmax & _ & Hi & _).
    eexists. split; [exact Hi |]. simpl. split_and!; [done | done |].
    by apply argmax_Q_spec.
  - subst counts. by rewrite length_map, length_seq.
  - intros c Hc. subst counts ballots.
    rewrite length_map, length_seq in Hc.
    rewrite list_lookup_fmap, lookup_seq_lt by done. done.
  - congruence.
Qed.

(** C7.  In a generation every voter casts exactly one ballot, for the first
    candidate of maximal utility, and the tally has one entry per candidate
    and sums to the number of voters: the vote counts of the detailed
    variant, the sizes of the supporter sets of the prototype.  On a
    configuration on which nothing can raise the generation does return.
    A generation of the prototype that returns has cast those ballots: the
    sizes it reports and the winner it elects come from the supporter sets
    and coalitions formed from them, and the winner's supporters are the
    voters whose ballot names its slot. *)
Theorem every_voter_one_ballot_and_tally_sums_to_voters
    (Pd : Detailed.Params) (Pp : Prototype.Params) (rs : RandomState)
    (sd : Detailed.Sim) (sp : Prototype.Sim) (flag : bool) (k : nat) :
  Detailed.wf Pd sd → Prototype.wf Pp sp →
  (Detailed.runnable Pd → is_Ok (Detailed.run_generation_detailed Pd rs sd k))
  ∧ (∀ info counts w s' k',
       Detailed.run_generation_detailed Pd rs sd k = Ok (info, counts, w, s', k') →
       length info = Z.to_nat (Detailed.N_VOTERS Pd)
       ∧ (∀ vid v, Detailed.voters sd !! vid = Some v →
            ∃ i, info !! vid = Some i
                 ∧ Detailed.vi_voter_id i = vid
                 ∧ Detailed.vi_utilities i
                   = map (Detailed.payoff Pd v) (Detailed.candidates sd)
                 ∧ first_max Qlt (Detailed.vi_utilities i) (Detailed.vi_ballot i))
       ∧ length counts = Z.to_nat (Detailed.N_CANDIDATES Pd)
       ∧ (∀ c, (c < length counts)%nat →
            counts !! c
            = Some (length (filter (λ b, b = c) (map Detailed.vi_ballot info))))
       ∧ sum_list counts = Z.to_nat (Detailed.N_VOTERS Pd))
  ∧ (Prototype.runnable Pp flag → is_Ok (Prototype.run_generation Pp rs sp flag k))
  ∧ (∀ ballots,
       Prototype.poll Pp sp = Ok ballots →
       length ballots = Z.to_nat (Prototype.N_VOTERS Pp)
       ∧ (∀ i v, Prototype.voters sp !! i = Some v →
            ∃ b, ballots !! i = Some b
                 ∧ first_max Qlt
                     (map (Prototype.payoff Pp v) (Prototype.candidates sp)) b)
       ∧ length (Prototype.count_support Pp rs ballots (Prototype.candidates sp) k).1
         = Z.to_nat (Prototype.N_CANDIDATES Pp)
       ∧ (∀ idx c,
            (Prototype.count_support Pp rs ballots (Prototype.candidates sp) k).1 !! idx
            = Some c →
            ∀ i, i ∈ Prototype.c_supporters c ↔ ballots !! i = Some idx)
       ∧ sum_list
           (map (λ c, size (Prototype.c_supporters c))
              (Prototype.count_support Pp rs ballots (Prototype.candidates sp) k).1)
         = Z.to_nat (Prototype.N_VOTERS Pp))
  ∧ (∀ winner sizes s' k',
       Prototype.run_generation Pp rs sp flag k = Ok (winner, sizes, s', k') →
       ∃ ballots w,
         Prototype.poll Pp sp = Ok ballots
         ∧ length ballots = Z.to_nat (Prototype.N_VOTERS Pp)
         ∧ (∀ i v, Prototype.voters sp !! i = Some v →
              ∃ b, ballots !! i = Some b
                   ∧ first_max Qlt
                       (map (Prototype.payoff Pp v) (Prototype.candidates sp)) b)
         ∧ sizes
           = map (λ c, size (Prototype.c_winning_coalition c))
               (Prototype.count_support Pp rs ballots (Prototype.candidates sp) k).1
         ∧ length sizes = Z.to_nat (Prototype.N_CANDIDATES Pp)
         ∧ first_max (λ a b : nat, (a < b)%nat) sizes w
         ∧ (Prototype.count_support Pp rs ballots (Prototype.candidates sp) k).1 !! w
           = Some winner
         ∧ (∀ i, i ∈ Prototype.c_supporters winner ↔ ballots !! i = Some w)
         ∧ sum_list
             (map (λ c, size (Prototype.c_supporters c))
                (Prototype.count_support Pp rs ballots (Prototype.candidates sp) k).1)
           = Z.to_nat (Prototype.N_VOTERS Pp)).
Proof.
  intros Hwfd Hwfp.
  assert (∀ ballots,
            Prototype.poll Pp sp = Ok ballots →
            length ballots = Z.to_nat (Prototype.N_VOTERS Pp)
            ∧ (∀ i v, Prototype.voters sp !! i = Some v →
                 ∃ b, ballots !! i = Some b
                      ∧ first_max Qlt
                          (map (Prototype.payoff Pp v) (Prototype.candidates sp)) b)
            ∧ sum_list
                (map (λ c, size (Prototype.c_supporters c))
                   (Prototype.count_support Pp rs ballots
                      (Prototype.candidates sp) k).1)
              = Z.to_nat (Prototype.N_VOTERS Pp)) as Hcast.
  { intros ballots Hpoll. pose proof Hwfp as [Hnv Hnc].
    apply PrototypeFacts.proto_poll_inv in Hpoll.
    pose proof (PrototypeFacts.proto_polled_ballots_in_range _ _ _ _ Hpoll) as Hrange.
    destruct Hpoll as [Hlen Hall].
    rewrite PrototypeFacts.count_support_spec. simpl.
    split_and!.
    - congruence.
    - intros i v Hv. destruct (Hall i v Hv) as (b & Hmax & Hb).
      exists b. split; [done |]. by apply argmax_Q_spec.
    - rewrite supporter_sizes, votes_sum, votes_all_below by done. congruence. }
  split_and!.
  - intros Hrun. by apply DetailedFacts.run_generation_detailed_Ok.
  - intros info counts w s' k' Hgen. by eapply detailed_tally.
  - intros Hrun. by apply PrototypeFacts.run_generation_Ok.
  - intros ballots Hpoll. pose proof Hwfp as [Hnv Hnc].
    apply PrototypeFacts.proto_poll_inv in Hpoll.
    pose proof (PrototypeFacts.proto_polled_ballots_in_range _ _ _ _ Hpoll) as Hrange.
    destruct Hpoll as [Hlen Hall].
    rewrite PrototypeFacts.count_support_spec. simpl.
    split_and!.
    + congruence.
    + intros i v Hv. destruct (Hall i v Hv) as (b & Hmax & Hb).
      exists b. split; [done |]. by apply argmax_Q_spec.
    + by rewrite length_imap.
    + intros idx c Hc i. apply list_lookup_imap_Some in Hc as (c0 & _ & ->).
      simpl. apply PrototypeFacts.elem_of_supporters_of.
    + rewrite supporter_sizes, votes_sum, votes_all_below by done. congruence.
  - intros winner sizes s' k' Hgen. pose proof Hwfp as [Hnv Hnc].
    apply PrototypeFacts.run_generation_inv in Hgen
      as (ballots & w & Hpoll & Hsizes & Hmax & Hwinner & _).
    destruct (Hcast ballots Hpoll) as (Hlen & Hone & Hsum).
    exists ballots, w. rewrite PrototypeFacts.count_support_spec. simpl.
    rewrite PrototypeFacts.count_support_spec in Hsum. simpl in Hsum.
    split_and!; try done.
    + subst sizes. by rewrite length_map, length_imap.
    + by apply argmax_nat_spec.
    + intros i. apply list_lookup_imap_Some in Hwinner as (c0 & _ & ->).
      simpl. apply PrototypeFacts.elem_of_supporters_of.
Qed.

(** Closes the side conditions of the concrete examples by evaluation. *)
Ltac evaluate :=
  repeat split; solve [ reflexivity | lia | vm_compute; congruence | discriminate ].

Lemma every_voter_one_ballot_and_tally_sums_to_voters_witness :
  (∃ info counts w s' k',
     Detailed.run_generation_detailed Scenarios.detailed_small Scenarios.steady
       (Scenarios.detailed_sim Scenarios.left_heavy 10 60) 0
     = Ok (info, counts, w, s', k')
     ∧ length info = 4%nat ∧ length counts = 2%nat ∧ sum_list counts = 4%nat)
  ∧ (∃ winner sizes s' k' ballots,
       Prototype.run_generation Scenarios.prototype_small Scenarios.steady
         (Scenarios.prototype_sim Scenarios.left_heavy 0 30) true 0
       = Ok (winner, sizes, s', k')
       ∧ Prototype.poll Scenarios.prototype_small
           (Scenarios.prototype_sim Scenarios.left_heavy 0 30) = Ok ballots
       ∧ length ballots = 4%nat
       ∧ length sizes = 2%nat
       ∧ sum_list
           (map (λ c, size (Prototype.c_supporters c))
              (Prototype.count_support Scenarios.prototype_small Scenarios.steady
                 ballots
                 (Prototype.candidates
                    (Scenarios.prototype_sim Scenarios.left_heavy 0 30)) 0).1)
         = 4%nat).
Proof.
  destruct (every_voter_one_ballot_and_tally_sums_to_voters
              Scenarios.detailed_small Scenarios.prototype_small Scenarios.steady
              (Scenarios.detailed_sim Scenarios.left_heavy 10 60)
              (Scenarios.prototype_sim Scenarios.left_heavy 0 30) true 0)
    as (Hok & Htally & Hokp & _ & Hgenp).
  - evaluate.
  - evaluate.
  - split.
    + destruct Hok as [[[[[info counts] w] s'] k'] Hgen]; [evaluate |].
      destruct (Htally info counts w s' k' Hgen) as (Hinfo & _ & Hcounts & _ & Hsum).
      exists info, counts, w, s', k'. split_and!; done.
    + destruct Hokp as [[[[winner sizes] s'] k'] Hgen].
      { unfold Prototype.runnable. simpl.
        split_and!; [discriminate | discriminate | intros _; discriminate]. }
      destruct (Hgenp winner sizes s' k' Hgen)
        as (ballots & w & Hpoll & Hlen & _ & _ & Hsizes & _ & _ & _ & Hsum).
      exists winner, sizes, s', k', ballots. split_and!; done.
Defined.

(** C4.  In the detailed variant the candidate with the most votes, the
    first such on a tie, is still in its slot, with the same ideology and
    alpha, when the generation ends; the list keeps its length and every
    other slot holds what [mutate] returned for the winner from draws of its
    own.  On a configuration on which nothing can raise the generation does
    return. *)
Theorem winner_record_persists_in_its_slot
    (P : Detailed.Params) (rs : RandomState) (s : Detailed.Sim) (k : nat) :
  Detailed.wf P s →
  (Detailed.runnable P → is_Ok (Detailed.run_generation_detailed P rs s k))
  ∧ ∀ info counts w s' k',
      Detailed.run_generation_detailed P rs s k = Ok (info, counts, w, s', k') →
      first_max (λ a b : nat, (a < b)%nat) counts w
      ∧ ∃ winner,
          Detailed.candidates s !! w = Some winner
          ∧ Detailed.candidates s' !! w = Some winner
          ∧ length (Detailed.candidates s') = length (Detailed.candidates s)
          ∧ (∀ cid, (cid < length (Detailed.candidates s))%nat → cid ≠ w →
               ∃ c, Detailed.mutate P rs winner true (Detailed.draw_of k w cid)
                    = Ok (c, S (S (Detailed.draw_of k w cid)))
                    ∧ Detailed.candidates s' !! cid = Some c)
          ∧ (∀ cid cid', (cid < cid')%nat → cid ≠ w → cid' ≠ w →
               (Detailed.draw_of k w cid + 2 ≤ Detailed.draw_of k w cid')%nat).
Proof.
  intros Hwf. split; [by apply DetailedFacts.run_generation_detailed_Ok |].
  intros info counts w s' k' Hgen.
  pose proof Hwf as [Hnv Hnc]. pose proof Hgen as Hgen'.
  apply DetailedFacts.run_generation_detailed_inv in Hgen
    as (ballots & winner & _ & _ & _ & Hmax & Hwinner & Hrep); [| done].
  destruct Hrep as (Hlen & Hw & _ & Hdone & _). simpl in Hlen, Hw, Hdone.
  split; [by apply argmax_nat_spec |].
  exists winner. split_and!; [done | done | done | |].
  - intros cid Hcid Hne. rewrite Hnc in Hcid.
    exists (Detailed.offspring P rs winner (Detailed.draw_of k w cid)).
    split; [| by apply Hdone].
    apply DetailedFacts.mutate_Ok.
    + destruct (Qlt_le_dec (Detailed.PUBLIC_GOODS_MUT_STD P) 0) as [Hneg |]; [| done].
      exfalso. eapply Ok_not_Err; [by eexists |].
      apply DetailedFacts.run_generation_detailed_negative; [by left |].
      apply lookup_lt_Some in Hwinner. lia.
    + destruct (Qlt_le_dec (Detailed.POLICY_MUT_STD P) 0) as [Hneg |]; [| done].
      exfalso. eapply Ok_not_Err; [by eexists |].
      apply DetailedFacts.run_generation_detailed_negative; [by right |].
      apply lookup_lt_Some in Hwinner. lia.
  - intros cid cid' Hlt Hne Hne'. unfold Detailed.draw_of. repeat case_decide; lia.
Qed.

Lemma winner_record_persists_in_its_slot_witness :
  ∃ info counts s' k',
    Detailed.run_generation_detailed Scenarios.detailed_small Scenarios.steady
      (Scenarios.detailed_sim Scenarios.left_heavy 10 60) 0
    = Ok (info, counts, 1%nat, s', k')
    ∧ Detailed.candidates s' !! 1%nat
      = Some {| Detailed.c_ideology := 60; Detailed.c_alpha := 1 # 2 |}.
Proof.
  destruct (winner_record_persists_in_its_slot
              Scenarios.detailed_small Scenarios.steady
              (Scenarios.detailed_sim Scenarios.left_heavy 10 60) 0)
    as (Hok & Hkeep).
  - evaluate.
  - destruct Hok as [[[[[info counts] w] s'] k'] Hgen]; [evaluate |].
    destruct (Hkeep info counts w s' k' Hgen) as (_ & winner & Hw & Hw' & _).
    assert (w = 1%nat) as ->.
    { clear -Hgen. vm_compute in Hgen. congruence. }
    exists info, counts, s', k'. split; [exact Hgen |].
    rewrite Hw'. rewrite <- Hw. reflexivity.
Defined.

Lemma candidate_rows_lookup (gen w cid : nat) (cands : list Detailed.Candidate)
    (c : Detailed.Candidate) :
  cands !! cid = Some c →
  Detailed.candidate_rows gen w cands !! cid
  = Some {| Detailed.cr_generation := gen;
            Detailed.cr_candidate_id := cid;
            Detailed.cr_ideology := Detailed.c_ideology c;
            Detailed.cr_alpha := Detailed.c_alpha c;
            Detailed.cr_is_winner := bool_decide (cid = w) |}.
Proof.
  intros Hc. unfold Detailed.candidate_rows.
  change (map ?f ?l) with (f <$> l). rewrite list_lookup_fmap.
  assert (enumerate cands !! cid = Some (cid, c)) as -> by by apply enumerate_lookup.
  done.
Qed.

(** C9.  The rows the detailed simulation adds for a generation are built
    after the replacement step: the candidate rows, and the ideology and
    alpha columns of the voter rows, read the population the generation
    leaves behind, while the utility and inclusion columns are those the
    voters computed on the population the generation started from.  The
    two populations agree on the winner's slot; every other slot of the
    later one holds a fresh offspring of the winner. *)
Theorem records_report_the_population_after_replacement
    (P : Detailed.Params) (rs : RandomState) (s : Detailed.Sim) (k gen : nat)
    (t : Detailed.Tables) :
  Detailed.wf P s →
  (Detailed.runnable P → is_Ok (Detailed.record_generation P rs (s, k, t) gen))
  ∧ ∀ s' k' t',
      Detailed.record_generation P rs (s, k, t) gen = Ok (s', k', t') →
      ∃ info counts w winner vrs,
        Detailed.run_generation_detailed P rs s k = Ok (info, counts, w, s', k')
        ∧ Detailed.candidate_records t'
          = Detailed.candidate_records t
            ++ Detailed.candidate_rows gen w (Detailed.candidates s')
        ∧ (∀ cid c', Detailed.candidates s' !! cid = Some c' →
             Detailed.candidate_rows gen w (Detailed.candidates s') !! cid
             = Some {| Detailed.cr_generation := gen;
                       Detailed.cr_candidate_id := cid;
                       Detailed.cr_ideology := Detailed.c_ideology c';
                       Detailed.cr_alpha := Detailed.c_alpha c';
                       Detailed.cr_is_winner := bool_decide (cid = w) |})
        ∧ Detailed.vote_records t' = Detailed.vote_records t ++ vrs
        ∧ (∀ vid v, Detailed.voters s !! vid = Some v →
             ∃ r, vrs !! vid = Some r
                  ∧ Detailed.vr_voter_id r = vid
                  ∧ ∀ cid c c',
                      Detailed.candidates s !! cid = Some c →
                      Detailed.candidates s' !! cid = Some c' →
                      ∃ col, Detailed.vr_candidates r !! cid = Some col
                             ∧ Detailed.col_ideology col = Detailed.c_ideology c'
                             ∧ Detailed.col_alpha col = Detailed.c_alpha c'
                             ∧ Detailed.col_utility col = Detailed.payoff P v c
                             ∧ Detailed.col_included col = Detailed.belief P v c)
        ∧ Detailed.candidates s !! w = Some winner
        ∧ Detailed.candidates s' !! w = Some winner
        ∧ (∀ cid, (cid < length (Detailed.candidates s))%nat → cid ≠ w →
             Detailed.candidates s' !! cid
             = Some (Detailed.offspring P rs winner (Detailed.draw_of k w cid))).
Proof.
  intros Hwf. split.
  - intros Hrun. apply DetailedFacts.record_generation_Ok; [done |].
    by apply DetailedFacts.run_generation_detailed_Ok.
  - intros s' k' t' Hrec. pose proof Hwf as [Hnv Hnc].
    apply DetailedFacts.record_generation_inv in Hrec
      as (info & counts & w & vrs & Hgen & Hrows & Hvr & _ & Hcr).
    pose proof Hgen as Hgen'.
    apply DetailedFacts.run_generation_detailed_inv in Hgen'
      as (ballots & winner & Hpoll & _ & _ & _ & Hwinner & Hrep); [| done].
    destruct Hrep as (_ & Hw & _ & Hdone & _). simpl in Hw, Hdone.
    exists info, counts, w, winner, vrs.
    split_and!; [done | done | | done | | done | done |].
    + intros cid c' Hc'. by apply candidate_rows_lookup.
    + intros vid v Hv.
      pose proof Hpoll as (_ & _ & _ & Hall). simpl in Hall.
      destruct (Hall vid v Hv) as (b & _ & _ & Hinfo & _).
      destruct Hrows as [_ Hrows].
      destruct (Hrows vid _ Hinfo) as (r & Hr & Hrow).
      destruct Hrow as (_ & Hid & _ & _ & _ & _ & _ & _ & Hcols).
      exists r. split_and!; [done | done |].
      intros cid c c' Hc Hc'.
      destruct (Hcols cid c' Hc') as (inc & u & Hinc & Hu & Hcol).
      simpl in Hinc, Hu. eexists. split; [exact Hcol |]. simpl.
      change (map ?f ?l) with (f <$> l) in Hu.
      rewrite list_lookup_fmap, Hc in Hu. injection Hu as <-.
      unfold Detailed.scratch in Hinc.
      rewrite lookup_app_l in Hinc
        by (rewrite length_map; by eapply lookup_lt_Some).
      change (map ?f ?l) with (f <$> l) in Hinc.
      rewrite list_lookup_fmap, Hc in Hinc. injection Hinc as <-. done.
    + intros cid Hcid Hne. apply Hdone; [lia | done].
Qed.

Lemma records_report_the_population_after_replacement_witness :
  ∃ s' k' t' row,
    Detailed.record_generation Scenarios.detailed_small Scenarios.steady
      (Scenarios.detailed_sim Scenarios.left_heavy 10 60, 0%nat,
       {| Detailed.vote_records := [];
          Detailed.election_summary := [];
          Detailed.candidate_records := [] |}) 0
    = Ok (s', k', t')
    ∧ Detailed.candidate_records t' !! 0%nat = Some row
    ∧ (Detailed.cr_ideology row == 62)%Q.
Proof.
  destruct (records_report_the_population_after_replacement
              Scenarios.detailed_small Scenarios.steady
              (Scenarios.detailed_sim Scenarios.left_heavy 10 60) 0 0
              {| Detailed.vote_records := [];
                 Detailed.election_summary := [];
                 Detailed.candidate_records := [] |})
    as (Hok & Hrows).
  - evaluate.
  - destruct Hok as [[[s' k'] t'] Hrec]; [evaluate |].
    destruct (Hrows s' k' t' Hrec)
      as (info & counts & w & winner & vrs & Hgen & Hcr & Hrow & _ & _ & Hw & _ & Hnew).
    assert (w = 1%nat) as ->.
    { clear -Hgen. vm_compute in Hgen. congruence. }
    injection Hw as <-.
    specialize (Hnew 0%nat ltac:(simpl; lia) ltac:(lia)).
    eexists s', k', t', _. split; [exact Hrec |]. split.
    + rewrite Hcr. simpl. by apply Hrow.
    + vm_compute. reflexivity.
Defined.

(** The quota of the prototype is half the number of voters, rounded
    down. *)
Lemma quota_half (P : Prototype.Params) :
  0 <= Prototype.N_VOTERS P → Prototype.quota P = Prototype.N_VOTERS P / 2.
Proof.
  intros HN. unfold Prototype.quota, py_int. simpl.
  rewrite Z.quot_div_nonneg by lia.
  Z.div_mod_to_equations. lia.
Qed.

(** The sizes a generation of the prototype reports: each candidate's
    ballots, capped at the quota. *)
Lemma coalition_sizes (P : Prototype.Params) (rs : RandomState) (ballots : list nat)
    (cands : list Prototype.Candidate) (k : nat) :
  RandomState_ok rs → 0 <= Prototype.N_VOTERS P →
  map (λ c, size (Prototype.c_winning_coalition c))
      (imap (Prototype.with_support P rs ballots k) cands)
  = map (λ idx, Nat.min (Z.to_nat (Prototype.N_VOTERS P / 2))
                        (length (filter (λ b, b = idx) ballots)))
        (seq 0 (length cands)).
Proof.
  intros Hrs HN. rewrite <- imap_seq_0.
  change (map ?f ?l) with (f <$> l). rewrite fmap_imap.
  apply imap_ext. intros i c _.
  change ((λ c0, size (Prototype.c_winning_coalition c0))
            ∘ Prototype.with_support P rs ballots k i) with
    (λ c0, size (Prototype.c_winning_coalition
                   (Prototype.with_support P rs ballots k i c0))).
  cbv beta.
  rewrite PrototypeFacts.coalition_size by (done || (rewrite quota_half by done;
    by apply Z.div_pos)).
  by rewrite PrototypeFacts.supporters_of_size, quota_half.
Qed.

(** C1, as documented, fails.  With four voters at 0, 0, 0 and 100, two
    candidates, [THETA = 100] and [TAU = PHI = 0], every voter is included
    for every candidate, yet in neither variant does the winner minimise the
    mean squared distance to the voters: in the detailed variant the
    candidate at 60 beats the one at 10 (mean squared distances 3100 and
    2100), in the prototype the candidate at 0 beats the one at 30 (2500
    and 1900).  Nor is the utility of the detailed variant the distance
    term plus a constant: with a target coalition size of 2 and both
    candidates at 10, one with [alpha = 0] and one with [alpha = 1], the
    voter at 0 is included for both and equally far from both, and assigns
    them the utilities 600 and 350. *)
Lemma winner_need_not_minimise_mean_squared_distance :
  (∃ info counts w s' k',
     Detailed.run_generation_detailed Scenarios.detailed_small Scenarios.steady
       (Scenarios.detailed_sim Scenarios.left_heavy 10 60) 0
     = Ok (info, counts, w, s', k')
     ∧ Forall (λ i, Detailed.vi_included i = [true; true]) info
     ∧ ¬ minimises_msd Scenarios.left_heavy [10; 60]%Q w)
  ∧ (∃ winner sizes w s' k',
       Prototype.run_generation Scenarios.prototype_small Scenarios.steady
         (Scenarios.prototype_sim Scenarios.left_heavy 0 30) true 0
       = Ok (winner, sizes, s', k')
       ∧ argmax Nat.ltb sizes = Ok w
       ∧ Forall (λ v, Forall (λ c,
             Prototype.inclusion Scenarios.prototype_small v c
               (Prototype.estimate Scenarios.prototype_small c) = true)
           (Prototype.candidates (Scenarios.prototype_sim Scenarios.left_heavy 0 30)))
           (Prototype.voters (Scenarios.prototype_sim Scenarios.left_heavy 0 30))
       ∧ ¬ minimises_msd Scenarios.left_heavy [0; 30]%Q w)
  ∧ (∃ info counts w s' k' i u0 u1,
       Detailed.run_generation_detailed Scenarios.detailed_uneven Scenarios.steady
         (Scenarios.detailed_same_place Scenarios.left_heavy 10) 0
       = Ok (info, counts, w, s', k')
       ∧ Forall (λ i, Detailed.vi_included i = [true; true]) info
       ∧ info !! 0%nat = Some i
       ∧ Detailed.vi_utilities i = [u0; u1]
       ∧ (u0 == 600)%Q ∧ (u1 == 350)%Q).
Proof.
  split_and!.
  - eexists _, _, _, _, _. split; [vm_compute; reflexivity |]. split.
    + repeat constructor.
    + intros (x & Hx & Hmin). injection Hx as <-.
      specialize (Hmin 10%Q ltac:(set_solver)).
      vm_compute in Hmin. by apply Hmin.
  - eexists _, _, _, _, _. split; [vm_compute; reflexivity |]. split; [| split].
    + vm_compute. reflexivity.
    + repeat constructor.
    + intros (x & Hx & Hmin). injection Hx as <-.
      specialize (Hmin 30%Q ltac:(set_solver)).
      vm_compute in Hmin. by apply Hmin.
  - eexists _, _, _, _, _, _, _, _. split; [vm_compute; reflexivity |].
    split_and!.
    + repeat constructor.
    + reflexivity.
    + reflexivity.
    + reflexivity.
    + reflexivity.
Qed.

(** C1, amended.  When every voter is included for every candidate, the
    prototype's utility is minus the squared ideological distance plus the
    constant [RESOURCE_POOL / N_VOTERS]; the detailed variant's utility is
    plus the squared distance plus
    [alpha * RESOURCE_POOL / N_VOTERS
     + (1 - alpha) * RESOURCE_POOL / WINNING_COALITION_SIZE],
    which depends on the candidate's [alpha] and is that same constant
    when the target coalition size equals [N_VOTERS].  Each voter's ballot
    is the first candidate of maximal utility.  The winner of a generation
    of the detailed variant is the first candidate with the most ballots;
    the winner of a generation of the prototype is the first candidate with
    the largest winning coalition, whose size is the number of the
    candidate's ballots capped at [int(0.5 * N_VOTERS)]. *)
Theorem all_included_utility_and_winner_rule
    (Pd : Detailed.Params) (rs : RandomState) (sd : Detailed.Sim) (k : nat)
    (Pp : Prototype.Params) (vp : Prototype.Voter) (cp : Prototype.Candidate)
    (sp : Prototype.Sim) (flag : bool) :
  Detailed.wf Pd sd →
  (∀ v c, v ∈ Detailed.voters sd → c ∈ Detailed.candidates sd →
          Detailed.belief Pd v c = true) →
  Prototype.N_VOTERS Pp ≠ 0 →
  Prototype.inclusion Pp vp cp (Prototype.estimate Pp cp) = true →
  (∃ u, Prototype.utility Pp vp cp (Prototype.estimate Pp cp) true = Ok u
        ∧ (u == - (Prototype.v_ideology vp - Prototype.c_policy cp) ^ 2
                + inject_Z (Prototype.RESOURCE_POOL Pp)
                  / inject_Z (Prototype.N_VOTERS Pp))%Q)
  ∧ (∀ v c, v ∈ Detailed.voters sd → c ∈ Detailed.candidates sd →
       (Detailed.payoff Pd v c
        == (Detailed.v_ideology v - Detailed.c_ideology c) ^ 2
           + (Detailed.c_alpha c
              * (inject_Z (Detailed.RESOURCE_POOL Pd) / inject_Z (Detailed.N_VOTERS Pd))
              + (1 - Detailed.c_alpha c)
                * (inject_Z (Detailed.RESOURCE_POOL Pd)
                   / inject_Z (Detailed.WINNING_COALITION_SIZE Pd))))%Q
       ∧ (Detailed.WINNING_COALITION_SIZE Pd = Detailed.N_VOTERS Pd →
          (Detailed.payoff Pd v c
           == (Detailed.v_ideology v - Detailed.c_ideology c) ^ 2
              + inject_Z (Detailed.RESOURCE_POOL Pd)
                / inject_Z (Detailed.N_VOTERS Pd))%Q))
  ∧ (∀ info counts w s' k',
      Detailed.run_generation_detailed Pd rs sd k = Ok (info, counts, w, s', k') →
      (∀ vid v, Detailed.voters sd !! vid = Some v →
         ∃ i, info !! vid = Some i
              ∧ Detailed.vi_utilities i
                = map (Detailed.payoff Pd v) (Detailed.candidates sd)
              ∧ first_max Qlt (Detailed.vi_utilities i) (Detailed.vi_ballot i))
      ∧ (∀ c, (c < length counts)%nat →
           counts !! c
           = Some (length (filter (λ b, b = c) (map Detailed.vi_ballot info))))
      ∧ first_max (λ a b : nat, (a < b)%nat) counts w)
  ∧ (∀ v c, Prototype.inclusion Pp v c (Prototype.estimate Pp c) = true →
       (Prototype.payoff Pp v c
        == - (Prototype.v_ideology v - Prototype.c_policy c) ^ 2
           + inject_Z (Prototype.RESOURCE_POOL Pp)
             / inject_Z (Prototype.N_VOTERS Pp))%Q)
  ∧ ∀ winner sizes s' k',
      Prototype.run_generation Pp rs sp flag k = Ok (winner, sizes, s', k') →
      ∃ ballots w,
        (∀ i v, Prototype.voters sp !! i = Some v →
           ∃ b, ballots !! i = Some b
                ∧ first_max Qlt
                    (map (Prototype.payoff Pp v) (Prototype.candidates sp)) b)
        ∧ length sizes = length (Prototype.candidates sp)
        ∧ (RandomState_ok rs → 0 <= Prototype.N_VOTERS Pp →
           ∀ c, (c < length sizes)%nat →
             sizes !! c
             = Some (Nat.min (Z.to_nat (Prototype.N_VOTERS Pp / 2))
                             (length (filter (λ b, b = c) ballots))))
        ∧ first_max (λ a b : nat, (a < b)%nat) sizes w
        ∧ sizes !! w = Some (size (Prototype.c_winning_coalition winner))
        ∧ (∃ orig, Prototype.candidates sp !! w = Some orig
                   ∧ Prototype.c_policy winner = Prototype.c_policy orig
                   ∧ Prototype.c_alpha winner = Prototype.c_alpha orig)
        ∧ Prototype.candidates s' !! 0%nat = Some winner.
Proof.
  intros Hwf Hall HN Hinc. split_and!.
  - exists (Prototype.payoff Pp vp cp). split.
    + pose proof (PrototypeFacts.proto_utility_Ok Pp vp cp HN) as Hu.
      by rewrite Hinc in Hu.
    + unfold Prototype.payoff. rewrite Hinc. ring.
  - intros v c Hv Hc. unfold Detailed.payoff. rewrite (Hall v c Hv Hc). split.
    + ring.
    + intros ->. ring.
  - intros info counts w s' k' Hgen.
    destruct (detailed_tally _ _ _ _ _ _ _ _ _ Hwf Hgen) as (_ & Hballots & _ & Hcounts & _).
    split_and!.
    + intros vid v Hv. destruct (Hballots vid v Hv) as (i & Hi & _ & Hu & Hmax).
      by exists i.
    + done.
    + apply DetailedFacts.run_generation_detailed_inv in Hgen
        as (_ & _ & _ & _ & _ & Hmax & _); [| done].
      by apply argmax_nat_spec.
  - intros v c Hin. unfold Prototype.payoff. rewrite Hin. ring.
  - intros winner sizes s' k' Hgen.
    apply PrototypeFacts.run_generation_inv in Hgen
      as (ballots & w & Hpoll & Hsizes & Hmax & Hwinner & _ & Hrep).
    apply PrototypeFacts.proto_poll_inv in Hpoll as [_ Hcast].
    destruct Hrep as (_ & H0 & _). simpl in H0.
    exists ballots, w. split_and!.
    + intros i v Hv. destruct (Hcast i v Hv) as (b & Hb & Hi).
      exists b. split; [done |]. by apply argmax_Q_spec.
    + subst sizes. by rewrite length_map, length_imap.
    + intros Hrs HNp c Hc. rewrite coalition_sizes in Hsizes by done.
      subst sizes. rewrite length_map, length_seq in Hc.
      change (map ?f ?l) with (f <$> l).
      by rewrite list_lookup_fmap, lookup_seq_lt.
    + by apply argmax_nat_spec.
    + subst sizes. change (map ?f ?l) with (f <$> l).
      by rewrite list_lookup_fmap, Hwinner.
    + apply list_lookup_imap_Some in Hwinner as (orig & Horig & ->).
      by exists orig.
    + done.
Qed.

Lemma all_included_utility_and_winner_rule_witness :
  (∃ info counts s' k',
     Detailed.run_generation_detailed Scenarios.detailed_small Scenarios.steady
       (Scenarios.detailed_sim Scenarios.left_heavy 10 60) 0
     = Ok (info, counts, 1%nat, s', k')
     ∧ first_max (λ a b : nat, (a < b)%nat) counts 1)
  ∧ (∃ winner sizes s' k',
       Prototype.run_generation Scenarios.prototype_small Scenarios.steady
         (Scenarios.prototype_sim Scenarios.left_heavy 0 30) true 0
       = Ok (winner, sizes, s', k')
       ∧ first_max (λ a b : nat, (a < b)%nat) sizes 0
       ∧ Prototype.c_policy winner = 0%Q).
Proof.
  destruct (all_included_utility_and_winner_rule
              Scenarios.detailed_small Scenarios.steady
              (Scenarios.detailed_sim Scenarios.left_heavy 10 60) 0
              Scenarios.prototype_small
              {| Prototype.v_ideology := 0; Prototype.v_risk_type := safe |}
              (Prototype.new_Candidate 30 (1 # 2))
              (Scenarios.prototype_sim Scenarios.left_heavy 0 30) true)
    as (_ & _ & Hwin & _ & Hwinp).
  - evaluate.
  - intros v c Hv Hc. simpl in Hv, Hc.
    repeat (apply elem_of_cons in Hv as [-> | Hv]);
      repeat (apply elem_of_cons in Hc as [-> | Hc]);
      solve [ reflexivity | by apply elem_of_nil in Hv | by apply elem_of_nil in Hc ].
  - evaluate.
  - reflexivity.
  - split.
    + eexists _, _, _, _. split; [vm_compute; reflexivity |].
      eapply Hwin. vm_compute. reflexivity.
    + destruct (PrototypeFacts.run_generation_Ok
                  Scenarios.prototype_small Scenarios.steady
                  (Scenarios.prototype_sim Scenarios.left_heavy 0 30) true 0)
        as [[[[winner sizes] s'] k'] Hgen].
      { evaluate. }
      { unfold Prototype.runnable. simpl.
        split_and!; [discriminate | discriminate | intros _; discriminate]. }
      destruct (Hwinp winner sizes s' k' Hgen)
        as (ballots & w & _ & _ & _ & Hmax & _ & _ & _).
      exists winner, sizes, s', k'.
      assert (w = 0%nat ∧ Prototype.c_policy winner = 0%Q) as [-> Hpol].
      { clear -Hgen Hmax. vm_compute in Hgen.
        injection Hgen as <- <- _ _. split; [| reflexivity].
        destruct Hmax as (x & Hx & _ & Hlow).
        destruct w as [|[|w]]; [done | | done].
        injection Hx as <-. specialize (Hlow 0%nat _ ltac:(lia) eq_refl). lia. }
      split_and!; done.
Defined.

(** C2, as documented, fails: neither variant checks its configuration.
    The shipped detailed configuration with [THETA = -1], with
    [N_VOTERS = 0], or with a target coalition size of 101 for 100 voters,
    and the shipped prototype configuration with [THETA = -1], are all
    outside what the specification accepts, and all run through. *)
Lemma rejected_configurations_run_through :
  (¬ Detailed.accepted (Scenarios.detailed_with (-1) 100 4 25 (5 # 100))
   ∧ is_Ok (Detailed.main (Scenarios.detailed_with (-1) 100 4 25 (5 # 100))
              Scenarios.steady 0))
  ∧ (¬ Detailed.accepted (Scenarios.detailed_with 15 0 4 25 (5 # 100))
     ∧ is_Ok (Detailed.main (Scenarios.detailed_with 15 0 4 25 (5 # 100))
                Scenarios.steady 0))
  ∧ (¬ Detailed.accepted (Scenarios.detailed_with 15 100 4 101 (5 # 100))
     ∧ is_Ok (Detailed.main (Scenarios.detailed_with 15 100 4 101 (5 # 100))
                Scenarios.steady 0))
  ∧ (¬ Prototype.accepted (Scenarios.prototype_with (-1) 100 4 (5 # 100))
     ∧ is_Ok (Prototype.main (Scenarios.prototype_with (-1) 100 4 (5 # 100))
                Scenarios.steady 0)).
Proof.
  split_and!.
  - intros (_ & _ & _ & _ & H & _). vm_compute in H. by apply H.
  - apply DetailedFacts.main_Ok. evaluate.
  - intros (_ & H & _). vm_compute in H. by apply H.
  - apply DetailedFacts.main_Ok. evaluate.
  - intros (_ & _ & _ & _ & _ & H). vm_compute in H. by apply H.
  - apply DetailedFacts.main_Ok. evaluate.
  - intros (_ & _ & _ & _ & H). vm_compute in H. by apply H.
  - apply PrototypeFacts.proto_main_Ok. evaluate.
Qed.

(** C2, amended.  A run aborts only where an operation itself raises.  It
    raises when [N_CANDIDATES < 1] and at least one generation is run (the
    arg-max of an empty sequence), and when a mutation standard deviation is
    negative, there are at least two candidates and at least one generation
    is run (the normal draw).  It does not raise when [N_CANDIDATES >= 1],
    the standard deviations are non-negative and, in the detailed variant
    with at least one voter, the target coalition size is not zero; in
    particular not on any configuration the specification accepts, bar a
    zero target coalition size. *)
Theorem run_aborts_only_where_an_operation_raises
    (Pd : Detailed.Params) (Pp : Prototype.Params) (rs : RandomState) (k : nat) :
  (Detailed.N_CANDIDATES Pd < 1 → 1 <= Detailed.MAX_GENERATIONS Pd →
   is_Err (Detailed.main Pd rs k))
  ∧ ((Detailed.PUBLIC_GOODS_MUT_STD Pd < 0)%Q ∨ (Detailed.POLICY_MUT_STD Pd < 0)%Q →
     2 <= Detailed.N_CANDIDATES Pd → 1 <= Detailed.MAX_GENERATIONS Pd →
     is_Err (Detailed.main Pd rs k))
  ∧ (Detailed.runnable Pd → is_Ok (Detailed.main Pd rs k))
  ∧ (Detailed.accepted Pd → Detailed.WINNING_COALITION_SIZE Pd ≠ 0 →
     is_Ok (Detailed.main Pd rs k))
  ∧ (Prototype.N_CANDIDATES Pp < 1 → 1 <= Prototype.N_GENERATIONS Pp →
     is_Err (Prototype.main Pp rs k))
  ∧ ((Prototype.PUBLIC_GOODS_MUT_STD Pp < 0)%Q ∨ (Prototype.POLICY_MUT_STD Pp < 0)%Q →
     2 <= Prototype.N_CANDIDATES Pp → 1 <= Prototype.N_GENERATIONS Pp →
     is_Err (Prototype.main Pp rs k))
  ∧ (Prototype.runnable Pp true → is_Ok (Prototype.main Pp rs k))
  ∧ (Prototype.accepted Pp → is_Ok (Prototype.main Pp rs k)).
Proof.
  split_and!.
  - apply DetailedFacts.main_no_candidates.
  - apply DetailedFacts.main_negative.
  - apply DetailedFacts.main_Ok.
  - intros (Hn & _ & Ha & Hp & _) Hw. apply DetailedFacts.main_Ok.
    by split_and!.
  - apply PrototypeFacts.proto_main_no_candidates.
  - apply PrototypeFacts.proto_main_negative.
  - apply PrototypeFacts.proto_main_Ok.
  - intros (Hn & _ & Ha & Hp & _). apply PrototypeFacts.proto_main_Ok.
    by split_and!.
Qed.

Lemma run_aborts_only_where_an_operation_raises_witness :
  is_Err (Detailed.main (Scenarios.detailed_with 15 100 0 25 (5 # 100))
            Scenarios.steady 0)
  ∧ is_Err (Prototype.main (Scenarios.prototype_with 15 100 4 (-1))
              Scenarios.steady 0)
  ∧ is_Ok (Detailed.main Detailed.shipped Scenarios.steady 0)
  ∧ is_Ok (Prototype.main Prototype.shipped Scenarios.steady 0).
Proof.
  destruct (run_aborts_only_where_an_operation_raises
              (Scenarios.detailed_with 15 100 0 25 (5 # 100))
              (Scenarios.prototype_with 15 100 4 (-1)) Scenarios.steady 0)
    as (Hnone & _ & _ & _ & _ & Hneg & _).
  destruct (run_aborts_only_where_an_operation_raises
              Detailed.shipped Prototype.shipped Scenarios.steady 0)
    as (_ & _ & Hd & _ & _ & _ & Hp & _).
  split_and!.
  - apply Hnone; [reflexivity | discriminate].
  - apply Hneg; [left; reflexivity | discriminate | discriminate].
  - apply Hd. unfold Detailed.runnable. simpl.
    split_and!; [discriminate | discriminate | discriminate | discriminate].
  - apply Hp. unfold Prototype.runnable. simpl.
    split_and!; [discriminate | discriminate | intros _; discriminate].
Defined.

(** C3, as documented, fails.  In the prototype the candidate in slot 1 wins
    (three of four voters sit at 100, the candidates at 0 and 90), and the
    next population holds the winner's record in slot 0; slot 1, which won,
    holds a mutated copy at another policy. *)
Lemma winner_does_not_keep_its_slot :
  ∃ winner sizes s' k' c,
    Prototype.run_generation Scenarios.prototype_small Scenarios.steady
      (Scenarios.prototype_sim Scenarios.right_heavy 0 90) true 0
    = Ok (winner, sizes, s', k')
    ∧ argmax Nat.ltb sizes = Ok 1%nat
    ∧ Prototype.candidates s' !! 0%nat = Some winner
    ∧ Prototype.candidates s' !! 1%nat = Some c
    ∧ Prototype.candidates s' !! 1%nat ≠ Some winner
    ∧ (Prototype.c_policy winner == 90)%Q
    ∧ (Prototype.c_policy c == 92)%Q.
Proof.
  eexists _, _, _, _, _. split; [vm_compute; reflexivity |].
  split_and!; try (vm_compute; reflexivity).
  vm_compute. by intros [=].
Qed.

(** C3, amended.  In the prototype the winner, the first candidate with the
    largest coalition, goes unmutated (same policy and alpha, with the
    supporters and coalition it has just been given) to slot 0 of the next
    population, whichever slot it won from, and each of the other
    [N_CANDIDATES - 1] slots holds what [mutate] returned for the winner
    from draws of its own.  On a configuration on which nothing can raise
    the generation does return. *)
Theorem winner_goes_unmutated_to_slot_zero
    (P : Prototype.Params) (rs : RandomState) (s : Prototype.Sim)
    (flag : bool) (k : nat) :
  Prototype.wf P s →
  (Prototype.runnable P flag → is_Ok (Prototype.run_generation P rs s flag k))
  ∧ ∀ winner sizes s' k',
      Prototype.run_generation P rs s flag k = Ok (winner, sizes, s', k') →
      ∃ ballots w orig,
        Prototype.poll P s = Ok ballots
        ∧ first_max (λ a b : nat, (a < b)%nat) sizes w
        ∧ Prototype.candidates s !! w = Some orig
        ∧ winner = Prototype.with_support P rs ballots k w orig
        ∧ Prototype.c_policy winner = Prototype.c_policy orig
        ∧ Prototype.c_alpha winner = Prototype.c_alpha orig
        ∧ Prototype.candidates s' !! 0%nat = Some winner
        ∧ length (Prototype.candidates s') = Z.to_nat (Prototype.N_CANDIDATES P)
        ∧ ∀ i, (1 ≤ i < Z.to_nat (Prototype.N_CANDIDATES P))%nat →
            ∃ c kc,
              Prototype.mutate P rs winner flag kc = Ok (c, (kc + Prototype.draws flag)%nat)
              ∧ kc = (k + length (Prototype.candidates s)
                      + Prototype.draws flag * (i - 1))%nat
              ∧ Prototype.candidates s' !! i = Some c.
Proof.
  intros Hwf. split; [by apply PrototypeFacts.run_generation_Ok |].
  intros winner sizes s' k' Hgen. pose proof Hgen as Hgen'.
  pose proof (PrototypeFacts.run_generation_wf _ _ _ _ _ _ _ _ _ Hwf Hgen) as [_ Hnc'].
  apply PrototypeFacts.run_generation_inv in Hgen
    as (ballots & w & Hpoll & Hsizes & Hmax & Hwinner & _ & Hrep).
  apply list_lookup_imap_Some in Hwinner as (orig & Horig & Hwin).
  destruct Hrep as (_ & H0 & _ & Hnew). simpl in H0, Hnew.
  exists ballots, w, orig.
  split_and!; [done | by apply argmax_nat_spec | done | done | by subst | by subst
              | done | done |].
  intros i [Hi1 Hi2].
  exists (Prototype.offspring P rs winner flag
            (k + length (Prototype.candidates s) + Prototype.draws flag * (i - 1))),
         (k + length (Prototype.candidates s) + Prototype.draws flag * (i - 1))%nat.
  split_and!; [| done |].
  - apply PrototypeFacts.proto_mutate_Ok.
    + destruct (Qlt_le_dec (Prototype.PUBLIC_GOODS_MUT_STD P) 0) as [Hneg |]; [| done].
      exfalso. eapply Ok_not_Err; [by eexists |].
      apply PrototypeFacts.run_generation_negative; [by left | lia].
    + intros ->.
      destruct (Qlt_le_dec (Prototype.POLICY_MUT_STD P) 0) as [Hneg |]; [| done].
      exfalso. eapply Ok_not_Err; [by eexists |].
      apply PrototypeFacts.run_generation_negative; [by right | lia].
  - replace i with (S (i - 1)) at 1 by lia. apply Hnew. lia.
Qed.

Lemma winner_goes_unmutated_to_slot_zero_witness :
  ∃ winner sizes s' k',
    Prototype.run_generation Scenarios.prototype_small Scenarios.steady
      (Scenarios.prototype_sim Scenarios.right_heavy 0 90) true 0
    = Ok (winner, sizes, s', k')
    ∧ Prototype.candidates s' !! 0%nat = Some winner
    ∧ length (Prototype.candidates s') = 2%nat.
Proof.
  destruct (winner_goes_unmutated_to_slot_zero
              Scenarios.prototype_small Scenarios.steady
              (Scenarios.prototype_sim Scenarios.right_heavy 0 90) true 0)
    as (Hok & Hmove).
  - evaluate.
  - destruct Hok as [[[[winner sizes] s'] k'] Hgen].
    { unfold Prototype.runnable. simpl.
      split_and!; [discriminate | discriminate | intros _; discriminate]. }
    destruct (Hmove winner sizes s' k' Hgen)
      as (ballots & w & orig & _ & _ & _ & _ & _ & _ & H0 & Hlen & _).
    exists winner, sizes, s', k'. split_and!; done.
Defined.

(** C8.  In the prototype a candidate's coalition estimate is the size of
    its winning coalition divided by [N_VOTERS] when that coalition is not
    empty, and exactly [1 / N_VOTERS] when it is empty; no division by the
    coalition size takes place.  The coalition is formed from the
    candidate's supporters of the last ballot, so a candidate nobody voted
    for, like one that has never stood in an election, gets the fallback. *)
Theorem coalition_estimate_with_fallback
    (P : Prototype.Params) (rs : RandomState) (c : Prototype.Candidate) :
  Prototype.N_VOTERS P ≠ 0 →
  (Prototype.c_winning_coalition c ≠ ∅ →
   Prototype.coalition_prob_of P c
   = Ok (inject_Z (Z.of_nat (size (Prototype.c_winning_coalition c)))
         / inject_Z (Prototype.N_VOTERS P))%Q)
  ∧ (Prototype.c_winning_coalition c = ∅ →
     Prototype.coalition_prob_of P c = Ok (1 / inject_Z (Prototype.N_VOTERS P))%Q)
  ∧ (∀ policy alpha,
       Prototype.coalition_prob_of P (Prototype.new_Candidate policy alpha)
       = Ok (1 / inject_Z (Prototype.N_VOTERS P))%Q)
  ∧ (RandomState_ok rs →
     ∀ ballots cands k idx c',
       (Prototype.count_support P rs ballots cands k).1 !! idx = Some c' →
       Prototype.c_supporters c' = Prototype.supporters_of ballots idx
       ∧ Prototype.c_winning_coalition c' ⊆ Prototype.c_supporters c'
       ∧ (Prototype.c_supporters c' = ∅ →
          Prototype.coalition_prob_of P c'
          = Ok (1 / inject_Z (Prototype.N_VOTERS P))%Q)).
Proof.
  intros HN.
  assert (∀ c0, Prototype.c_winning_coalition c0 = ∅ →
            Prototype.coalition_prob_of P c0
            = Ok (1 / inject_Z (Prototype.N_VOTERS P))%Q) as Hfallback.
  { intros c0 Hempty. rewrite PrototypeFacts.coalition_prob_of_Ok by done.
    unfold Prototype.estimate. by rewrite decide_False by (by intros ?). }
  split_and!.
  - intros Hne. rewrite PrototypeFacts.coalition_prob_of_Ok by done.
    unfold Prototype.estimate. by rewrite decide_True.
  - apply Hfallback.
  - intros policy alpha. by apply Hfallback.
  - intros Hrs ballots cands k idx c' Hc'.
    rewrite PrototypeFacts.count_support_spec in Hc'. simpl in Hc'.
    apply list_lookup_imap_Some in Hc' as (c0 & _ & ->).
    split_and!.
    + done.
    + by apply PrototypeFacts.coalition_subseteq.
    + intros Hnone. apply Hfallback.
      by apply PrototypeFacts.coalition_of_no_supporters.
Qed.

Lemma coalition_estimate_with_fallback_witness :
  Prototype.coalition_prob_of Prototype.shipped (Prototype.new_Candidate 50 (1 # 2))
  = Ok (1 / inject_Z 100)%Q.
Proof.
  destruct (coalition_estimate_with_fallback
              Prototype.shipped Scenarios.steady (Prototype.new_Candidate 50 (1 # 2)))
    as (_ & Hfallback & _).
  - discriminate.
  - apply Hfallback. reflexivity.
Defined.

(** C10, as documented, fails.  With a single voter the quota
    [int(0.5 * N_VOTERS)] is 0, so the coalition of the winner is
    [supporters_list[:0]], the empty set, although its one supporter voted
    for it.  In the population the generation leaves behind the
    carried-over winner in slot 0 therefore gets the [1 / N_VOTERS]
    fallback, here 1, like the mutant in slot 1, and not an estimate
    derived from the size of its coalition, which would be 0. *)
Lemma lone_voter_winner_gets_the_fallback_too :
  ∃ winner sizes s' k' mutant,
    Prototype.run_generation Scenarios.prototype_lone Scenarios.steady
      (Scenarios.prototype_sim [50%Q] 40 90) true 0
    = Ok (winner, sizes, s', k')
    ∧ Prototype.candidates s' !! 0%nat = Some winner
    ∧ Prototype.candidates s' !! 1%nat = Some mutant
    ∧ Prototype.c_supporters winner = {[ 0%nat ]}
    ∧ Prototype.c_winning_coalition winner = ∅
    ∧ Prototype.coalition_prob_of Scenarios.prototype_lone winner = Ok 1%Q
    ∧ Prototype.coalition_prob_of Scenarios.prototype_lone mutant = Ok 1%Q
    ∧ Prototype.coalition_prob_of Scenarios.prototype_lone winner
      ≠ Ok (inject_Z (Z.of_nat (size (Prototype.c_winning_coalition winner)))
            / inject_Z (Prototype.N_VOTERS Scenarios.prototype_lone))%Q.
Proof.
  eexists _, _, _, _, _. split; [vm_compute; reflexivity |].
  split_and!; try (vm_compute; reflexivity).
  vm_compute. discriminate.
Qed.

(** C10, amended.  In the prototype every candidate [mutate] returns has
    empty [supporters] and [winning_coalition] sets.  So in the population
    a generation leaves behind, every slot but the winner's (slot 0) has
    the [1 / N_VOTERS] fallback as its coalition estimate.  The
    carried-over winner's estimate is the size of its winning coalition
    over [N_VOTERS] when that coalition is not empty, which it is with at
    least two voters; with a single voter the coalition is empty and the
    winner gets the fallback as well. *)
Theorem mutants_get_the_fallback_estimate
    (P : Prototype.Params) (rs : RandomState) (s : Prototype.Sim)
    (flag : bool) (k : nat) :
  Prototype.wf P s → Prototype.N_VOTERS P ≠ 0 →
  (∀ self fl k0 c k1,
     Prototype.mutate P rs self fl k0 = Ok (c, k1) →
     Prototype.c_supporters c = ∅ ∧ Prototype.c_winning_coalition c = ∅)
  ∧ (Prototype.runnable P flag → is_Ok (Prototype.run_generation P rs s flag k))
  ∧ ∀ winner sizes s' k',
      Prototype.run_generation P rs s flag k = Ok (winner, sizes, s', k') →
      Prototype.candidates s' !! 0%nat = Some winner
      ∧ (∀ i c, i ≠ 0%nat → Prototype.candidates s' !! i = Some c →
           Prototype.c_supporters c = ∅
           ∧ Prototype.c_winning_coalition c = ∅
           ∧ Prototype.coalition_prob_of P c
             = Ok (1 / inject_Z (Prototype.N_VOTERS P))%Q)
      ∧ (Prototype.c_winning_coalition winner ≠ ∅ →
         Prototype.coalition_prob_of P winner
         = Ok (inject_Z (Z.of_nat (size (Prototype.c_winning_coalition winner)))
               / inject_Z (Prototype.N_VOTERS P))%Q)
      ∧ (RandomState_ok rs → 2 <= Prototype.N_VOTERS P →
         Prototype.c_winning_coalition winner ≠ ∅)
      ∧ (Prototype.N_VOTERS P = 1 →
         Prototype.c_winning_coalition winner = ∅
         ∧ Prototype.coalition_prob_of P winner
           = Ok (1 / inject_Z (Prototype.N_VOTERS P))%Q).
Proof.
  intros Hwf HN. split_and!.
  - intros self fl k0 c k1 Hc.
    by apply PrototypeFacts.proto_mutate_inv in Hc as [-> _].
  - by apply PrototypeFacts.run_generation_Ok.
  - intros winner sizes s' k' Hgen. pose proof Hgen as Hgen'.
    apply PrototypeFacts.run_generation_inv in Hgen
      as (ballots & w & _ & _ & _ & _ & _ & Hrep).
    destruct Hrep as (Hlen & H0 & _ & Hnew). simpl in Hlen, H0, Hnew.
    split_and!.
    + done.
    + intros i c Hi Hc.
      pose proof (lookup_lt_Some _ _ _ Hc) as Hlt.
      destruct i as [|i]; [done |].
      rewrite Hnew in Hc by lia. injection Hc as <-.
      split_and!; [done | done |].
      rewrite PrototypeFacts.coalition_prob_of_Ok by done.
      unfold Prototype.estimate. simpl.
      by rewrite decide_False by (by intros ?).
    + intros Hne. rewrite PrototypeFacts.coalition_prob_of_Ok by done.
      unfold Prototype.estimate. by rewrite decide_True.
    + intros Hrs HN2. by eapply PrototypeFacts.winner_coalition_nonempty.
    + intros H1.
      apply PrototypeFacts.run_generation_inv in Hgen'
        as (cast & slot & _ & _ & _ & Hwinner & _).
      apply list_lookup_imap_Some in Hwinner as (c0 & _ & ->).
      assert (Prototype.c_winning_coalition
                (Prototype.with_support P rs cast k slot c0) = ∅) as Hempty.
      { cbn [Prototype.c_winning_coalition Prototype.with_support].
        unfold Prototype.quota. rewrite H1. done. }
      split; [done |].
      rewrite PrototypeFacts.coalition_prob_of_Ok by done.
      unfold Prototype.estimate. by rewrite decide_False by (by intros ?).
Qed.

Lemma steady_ok : RandomState_ok Scenarios.steady.
Proof. split; [intros k; split; [discriminate | reflexivity] | done]. Qed.

Lemma mutants_get_the_fallback_estimate_witness :
  ∃ winner sizes s' k' c,
    Prototype.run_generation Scenarios.prototype_small Scenarios.steady
      (Scenarios.prototype_sim Scenarios.right_heavy 0 90) true 0
    = Ok (winner, sizes, s', k')
    ∧ Prototype.candidates s' !! 1%nat = Some c
    ∧ Prototype.coalition_prob_of Scenarios.prototype_small c = Ok (1 / inject_Z 4)%Q
    ∧ Prototype.c_winning_coalition winner ≠ ∅.
Proof.
  destruct (mutants_get_the_fallback_estimate
              Scenarios.prototype_small Scenarios.steady
              (Scenarios.prototype_sim Scenarios.right_heavy 0 90) true 0)
    as (_ & Hok & Hnext).
  - evaluate.
  - discriminate.
  - destruct Hok as [[[[winner sizes] s'] k'] Hgen].
    { unfold Prototype.runnable. simpl.
      split_and!; [discriminate | discriminate | intros _; discriminate]. }
    destruct (Hnext winner sizes s' k' Hgen) as (_ & Hothers & _ & Hwin & _).
    destruct (Prototype.candidates s' !! 1%nat) as [c|] eqn:Hc.
    + exists winner, sizes, s', k', c. split_and!; [done | done | |].
      * by apply (Hothers 1%nat c).
      * apply Hwin; [apply steady_ok | discriminate].
    + exfalso. clear -Hgen Hc. vm_compute in Hgen.
      injection Hgen as _ _ <- _. discriminate Hc.
Defined.


(** * Further properties of the code *)

(** X1.  A generation of the detailed variant leaves every voter's ideology
    and risk type as they were and overwrites its [included] list: the list
    has one flag per candidate, and the flag for a candidate is the
    inclusion test on the population the generation started from, whatever
    the list held before. *)
Theorem detailed_voters_keep_position_and_recompute_flags
    (P : Detailed.Params) (rs : RandomState) (s : Detailed.Sim) (k : nat) :
  Detailed.wf P s →
  ∀ info counts w s' k',
    Detailed.run_generation_detailed P rs s k = Ok (info, counts, w, s', k') →
    length (Detailed.voters s') = length (Detailed.voters s)
    ∧ ∀ vid v, Detailed.voters s !! vid = Some v →
        ∃ v', Detailed.voters s' !! vid = Some v'
              ∧ Detailed.v_ideology v' = Detailed.v_ideology v
              ∧ Detailed.v_risk_type v' = Detailed.v_risk_type v
              ∧ length (Detailed.v_included v') = Z.to_nat (Detailed.N_CANDIDATES P)
              ∧ ∀ cid c, Detailed.candidates s !! cid = Some c →
                  Detailed.v_included v' !! cid
                  = Some (Detailed.believes P v
                            (inject_Z (Detailed.WINNING_COALITION_SIZE P)
                             / inject_Z (Detailed.N_VOTERS P))%Q
                            (Detailed.c_ideology c)).
Proof.
  intros Hwf info counts w s' k' Hgen. pose proof Hwf as [Hnv Hnc].
  apply DetailedFacts.run_generation_detailed_inv in Hgen
    as (ballots & winner & Hpoll & _); [| done].
  destruct Hpoll as (Hvs & _ & _ & Hall). simpl in Hvs, Hall.
  split; [done |].
  intros vid v Hv. destruct (Hall vid v Hv) as (b & _ & _ & _ & Hv').
  eexists. split; [exact Hv' |]. simpl. split_and!; [done | done | |].
  - unfold Detailed.scratch. rewrite length_app, length_map, length_replicate. lia.
  - intros cid c Hc. unfold Detailed.scratch.
    rewrite lookup_app_l by (rewrite length_map; by eapply lookup_lt_Some).
    change (map ?f ?l) with (f <$> l). by rewrite list_lookup_fmap, Hc.
Qed.

Lemma detailed_voters_keep_position_and_recompute_flags_witness :
  ∃ info counts w s' k',
    Detailed.run_generation_detailed Scenarios.detailed_small Scenarios.steady
      (Scenarios.detailed_sim Scenarios.left_heavy 10 60) 0
    = Ok (info, counts, w, s', k')
    ∧ length (Detailed.voters s') = 4%nat.
Proof.
  destruct (DetailedFacts.run_generation_detailed_Ok
              Scenarios.detailed_small Scenarios.steady
              (Scenarios.detailed_sim Scenarios.left_heavy 10 60) 0)
    as [[[[[info counts] w] s'] k'] Hgen]; [evaluate | evaluate |].
  exists info, counts, w, s', k'. split; [exact Hgen |].
  destruct (detailed_voters_keep_position_and_recompute_flags
              Scenarios.detailed_small Scenarios.steady
              (Scenarios.detailed_sim Scenarios.left_heavy 10 60) 0
              ltac:(evaluate) info counts w s' k' Hgen) as [Hlen _].
  exact Hlen.
Defined.

Lemma belief_below_threshold (P : Detailed.Params) (v : Detailed.Voter)
    (c : Detailed.Candidate) :
  (inject_Z (Detailed.WINNING_COALITION_SIZE P) / inject_Z (Detailed.N_VOTERS P)
   < Detailed.PHI P)%Q →
  (inject_Z (Detailed.WINNING_COALITION_SIZE P) / inject_Z (Detailed.N_VOTERS P)
   < Detailed.TAU P)%Q →
  Detailed.belief P v c = false.
Proof.
  intros Hphi Htau. unfold Detailed.belief, Detailed.believes.
  apply andb_false_iff. right.
  apply not_true_iff_false. rewrite Qleb_le. apply Qlt_not_le.
  by case_decide.
Qed.

(** X2.  In the detailed variant the coalition estimate is the constant
    [WINNING_COALITION_SIZE / N_VOTERS].  When it is below both thresholds,
    as with the shipped constants (0.25 against 0.3 and 0.6), a generation
    marks no voter as included for any candidate, so the private-goods term
    is never paid: every recorded utility is the squared distance plus
    [alpha * RESOURCE_POOL / N_VOTERS]. *)
Theorem detailed_estimate_below_thresholds_includes_nobody
    (P : Detailed.Params) (rs : RandomState) (s : Detailed.Sim) (k : nat) :
  Detailed.wf P s →
  (inject_Z (Detailed.WINNING_COALITION_SIZE P) / inject_Z (Detailed.N_VOTERS P)
   < Detailed.PHI P)%Q →
  (inject_Z (Detailed.WINNING_COALITION_SIZE P) / inject_Z (Detailed.N_VOTERS P)
   < Detailed.TAU P)%Q →
  ∀ info counts w s' k',
    Detailed.run_generation_detailed P rs s k = Ok (info, counts, w, s', k') →
    ∀ vid v, Detailed.voters s !! vid = Some v →
      ∃ i, info !! vid = Some i
           ∧ Forall (λ b, b = false) (Detailed.vi_included i)
           ∧ ∀ cid c, Detailed.candidates s !! cid = Some c →
               ∃ u, Detailed.vi_utilities i !! cid = Some u
                    ∧ (u == (Detailed.v_ideology v - Detailed.c_ideology c) ^ 2
                            + Detailed.c_alpha c
                              * (inject_Z (Detailed.RESOURCE_POOL P)
                                 / inject_Z (Detailed.N_VOTERS P)))%Q.
Proof.
  intros Hwf Hphi Htau info counts w s' k' Hgen vid v Hv.
  apply DetailedFacts.run_generation_detailed_inv in Hgen
    as (ballots & winner & Hpoll & _); [| done].
  destruct Hpoll as (_ & _ & _ & Hall). simpl in Hall.
  destruct (Hall vid v Hv) as (b & _ & _ & Hi & _).
  eexists. split; [exact Hi |]. simpl. split.
  - unfold Detailed.scratch. apply Forall_app. split.
    + apply Forall_fmap, Forall_forall. intros c _. simpl.
      by apply belief_below_threshold.
    + apply Forall_replicate. done.
  - intros cid c Hc. exists (Detailed.payoff P v c). split.
    + change (map ?f ?l) with (f <$> l). by rewrite list_lookup_fmap, Hc.
    + unfold Detailed.payoff. rewrite belief_below_threshold by done. ring.
Qed.

Lemma detailed_estimate_below_thresholds_includes_nobody_witness :
  ∃ info counts w s' k',
    Detailed.run_generation_detailed Detailed.shipped Scenarios.steady
      Scenarios.detailed_crowd 0
    = Ok (info, counts, w, s', k')
    ∧ ∃ i, info !! 0%nat = Some i
           ∧ Forall (λ b, b = false) (Detailed.vi_included i).
Proof.
  destruct (DetailedFacts.run_generation_detailed_Ok
              Detailed.shipped Scenarios.steady Scenarios.detailed_crowd 0)
    as [[[[[info counts] w] s'] k'] Hgen]; [evaluate | evaluate |].
  exists info, counts, w, s', k'. split; [exact Hgen |].
  destruct (detailed_estimate_below_thresholds_includes_nobody
              Detailed.shipped Scenarios.steady Scenarios.detailed_crowd 0
              ltac:(evaluate) ltac:(reflexivity) ltac:(reflexivity)
              info counts w s' k' Hgen 0%nat
              (Detailed.new_Voter Detailed.shipped 50 safe) ltac:(reflexivity))
    as (i & Hi & Hnone & _).
  by exists i.
Defined.

Lemma detailed_payoff_no_resources (P : Detailed.Params) (v : Detailed.Voter)
    (c : Detailed.Candidate) :
  Detailed.RESOURCE_POOL P = 0 →
  (Detailed.payoff P v c == (Detailed.v_ideology v - Detailed.c_ideology c) ^ 2)%Q.
Proof.
  intros HR. unfold Detailed.payoff. rewrite HR.
  change (inject_Z 0) with 0%Q. unfold Qdiv.
  destruct (Detailed.belief P v c); ring.
Qed.

Lemma prototype_payoff_no_resources (P : Prototype.Params) (v : Prototype.Voter)
    (c : Prototype.Candidate) :
  Prototype.RESOURCE_POOL P = 0 →
  (Prototype.payoff P v c == - (Prototype.v_ideology v - Prototype.c_policy c) ^ 2)%Q.
Proof.
  intros HR. unfold Prototype.payoff. rewrite HR.
  change (inject_Z 0) with 0%Q. unfold Qdiv.
  destruct (Prototype.inclusion P v c (Prototype.estimate P c)); ring.
Qed.

(** The candidate an arg-max over the mapped list picks. *)
Lemma first_max_map {A} (f : A → Q) (l : list A) (b : nat) :
  first_max Qlt (map f l) b →
  ∃ xb, l !! b = Some xb
        ∧ (∀ x, x ∈ l → (f x <= f xb)%Q)
        ∧ (∀ j x, (j < b)%nat → l !! j = Some x → (f x < f xb)%Q).
Proof.
  intros (y & Hy & Hmax & Hfirst).
  change (map ?g ?l) with (g <$> l) in *.
  rewrite list_lookup_fmap in Hy.
  destruct (l !! b) as [xb|] eqn:Hb; [| done]. injection Hy as <-.
  exists xb. split_and!; [done | |].
  - intros x Hx. apply list_elem_of_lookup in Hx as [j Hj].
    apply Qnot_lt_le. apply (Hmax j). by rewrite list_lookup_fmap, Hj.
  - intros j x Hlt Hj. apply (Hfirst j); [done |].
    by rewrite list_lookup_fmap, Hj.
Qed.

(** X3.  With [RESOURCE_POOL = 0] the detailed variant's utility is the
    squared ideological distance itself, so every voter's ballot goes to a
    candidate farthest from the voter: no candidate is farther, and every
    candidate at a lower index is strictly nearer. *)
Theorem detailed_without_resources_ballot_goes_to_farthest
    (P : Detailed.Params) (rs : RandomState) (s : Detailed.Sim) (k : nat) :
  Detailed.wf P s → Detailed.RESOURCE_POOL P = 0 →
  ∀ info counts w s' k',
    Detailed.run_generation_detailed P rs s k = Ok (info, counts, w, s', k') →
    ∀ vid v, Detailed.voters s !! vid = Some v →
      ∃ i cb,
        info !! vid = Some i
        ∧ Detailed.candidates s !! Detailed.vi_ballot i = Some cb
        ∧ (∀ c, c ∈ Detailed.candidates s →
             ((Detailed.v_ideology v - Detailed.c_ideology c) ^ 2
              <= (Detailed.v_ideology v - Detailed.c_ideology cb) ^ 2)%Q)
        ∧ (∀ j c, (j < Detailed.vi_ballot i)%nat →
             Detailed.candidates s !! j = Some c →
             ((Detailed.v_ideology v - Detailed.c_ideology c) ^ 2
              < (Detailed.v_ideology v - Detailed.c_ideology cb) ^ 2)%Q).
Proof.
  intros Hwf HR info counts w s' k' Hgen vid v Hv.
  apply DetailedFacts.run_generation_detailed_inv in Hgen
    as (ballots & winner & Hpoll & _); [| done].
  destruct Hpoll as (_ & _ & _ & Hall). simpl in Hall.
  destruct (Hall vid v Hv) as (b & Hmax & _ & Hi & _).
  apply argmax_Q_spec, first_max_map in Hmax as (cb & Hcb & Hge & Hgt).
  eexists _, cb. split; [exact Hi |].
  cbn [Detailed.vi_ballot Detailed.info_of]. split_and!; [done | |].
  - intros c Hc. specialize (Hge c Hc).
    by rewrite (detailed_payoff_no_resources P v c HR),
         (detailed_payoff_no_resources P v cb HR) in Hge.
  - intros j c Hj Hc. specialize (Hgt j c Hj Hc).
    by rewrite (detailed_payoff_no_resources P v c HR),
         (detailed_payoff_no_resources P v cb HR) in Hgt.
Qed.

Lemma detailed_without_resources_ballot_goes_to_farthest_witness :
  ∃ info counts w s' k' i,
    Detailed.run_generation_detailed
      (Scenarios.detailed_poor) Scenarios.steady
      (Scenarios.detailed_sim Scenarios.left_heavy 10 60) 0
    = Ok (info, counts, w, s', k')
    ∧ info !! 0%nat = Some i
    ∧ Detailed.vi_ballot i = 1%nat.
Proof.
  destruct (DetailedFacts.run_generation_detailed_Ok
              Scenarios.detailed_poor Scenarios.steady
              (Scenarios.detailed_sim Scenarios.left_heavy 10 60) 0)
    as [[[[[info counts] w] s'] k'] Hgen]; [evaluate | evaluate |].
  destruct (detailed_without_resources_ballot_goes_to_farthest
              Scenarios.detailed_poor Scenarios.steady
              (Scenarios.detailed_sim Scenarios.left_heavy 10 60) 0
              ltac:(evaluate) ltac:(reflexivity) info counts w s' k' Hgen 0%nat
              (Detailed.new_Voter Scenarios.detailed_small 0 safe) ltac:(reflexivity))
    as (i & cb & Hi & Hcb & Hfar & _).
  exists info, counts, w, s', k', i. split_and!; [exact Hgen | exact Hi |].
  destruct (Detailed.vi_ballot i) as [|[|n]] eqn:Hb.
  - exfalso. injection Hcb as <-.
    specialize (Hfar {| Detailed.c_ideology := 60; Detailed.c_alpha := 1 # 2 |}
                  ltac:(simpl; set_solver)).
    vm_compute in Hfar. by apply Hfar.
  - reflexivity.
  - discriminate Hcb.
Defined.

(** X4.  With [RESOURCE_POOL = 0] the prototype's utility is minus the
    squared ideological distance, so every voter's ballot goes to a
    candidate nearest to the voter: no candidate is nearer, and every
    candidate at a lower index is strictly farther. *)
Theorem prototype_without_resources_ballot_goes_to_nearest
    (P : Prototype.Params) (s : Prototype.Sim) :
  Prototype.RESOURCE_POOL P = 0 →
  ∀ ballots,
    Prototype.poll P s = Ok ballots →
    ∀ i v, Prototype.voters s !! i = Some v →
      ∃ b cb,
        ballots !! i = Some b
        ∧ Prototype.candidates s !! b = Some cb
        ∧ (∀ c, c ∈ Prototype.candidates s →
             ((Prototype.v_ideology v - Prototype.c_policy cb) ^ 2
              <= (Prototype.v_ideology v - Prototype.c_policy c) ^ 2)%Q)
        ∧ (∀ j c, (j < b)%nat → Prototype.candidates s !! j = Some c →
             ((Prototype.v_ideology v - Prototype.c_policy cb) ^ 2
              < (Prototype.v_ideology v - Prototype.c_policy c) ^ 2)%Q).
Proof.
  intros HR ballots Hpoll i v Hv.
  apply PrototypeFacts.proto_poll_inv in Hpoll as [_ Hall].
  destruct (Hall i v Hv) as (b & Hmax & Hb).
  apply argmax_Q_spec, first_max_map in Hmax as (cb & Hcb & Hge & Hgt).
  exists b, cb. split_and!; [done | done | |].
  - intros c Hc. specialize (Hge c Hc).
    rewrite (prototype_payoff_no_resources P v c HR),
      (prototype_payoff_no_resources P v cb HR) in Hge.
    apply Qopp_le_compat in Hge. by rewrite !Qopp_involutive in Hge.
  - intros j c Hj Hc. specialize (Hgt j c Hj Hc).
    rewrite (prototype_payoff_no_resources P v c HR),
      (prototype_payoff_no_resources P v cb HR) in Hgt.
    apply Qopp_lt_compat in Hgt. by rewrite !Qopp_involutive in Hgt.
Qed.

Lemma prototype_without_resources_ballot_goes_to_nearest_witness :
  ∃ ballots,
    Prototype.poll Scenarios.prototype_poor
      (Scenarios.prototype_sim Scenarios.left_heavy 0 30) = Ok ballots
    ∧ ballots !! 3%nat = Some 1%nat.
Proof.
  destruct (PrototypeFacts.proto_poll_Ok Scenarios.prototype_poor
              (Scenarios.prototype_sim Scenarios.left_heavy 0 30))
    as [ballots Hpoll]; [intros _; split; discriminate |].
  exists ballots. split; [exact Hpoll |].
  destruct (prototype_without_resources_ballot_goes_to_nearest
              Scenarios.prototype_poor
              (Scenarios.prototype_sim Scenarios.left_heavy 0 30)
              ltac:(reflexivity) ballots Hpoll 3%nat
              {| Prototype.v_ideology := 100; Prototype.v_risk_type := safe |}
              ltac:(reflexivity))
    as (b & cb & Hb & Hcb & Hnear & _).
  rewrite Hb. f_equal.
  destruct b as [|[|n]].
  - exfalso. injection Hcb as <-.
    specialize (Hnear (Prototype.new_Candidate 30 (1 # 2)) ltac:(simpl; set_solver)).
    vm_compute in Hnear. by apply Hnear.
  - reflexivity.
  - discriminate Hcb.
Defined.

Lemma sum_list_le_bound (l : list nat) (m : nat) :
  (∀ j y, l !! j = Some y → y ≤ m)%nat → (sum_list l ≤ length l * m)%nat.
Proof.
  induction l as [|x l IH]; intros Hle; simpl; [lia |].
  assert (x ≤ m)%nat by (apply (Hle 0%nat); done).
  assert (sum_list l ≤ length l * m)%nat by (apply IH; intros j y Hj; by apply (Hle (S j))).
  lia.
Qed.

(** X5.  In the detailed variant the winner's vote count is the largest and
    is at least the average: its count times [N_CANDIDATES] is at least the
    number of voters. *)
Theorem detailed_winner_has_at_least_average_votes
    (P : Detailed.Params) (rs : RandomState) (s : Detailed.Sim) (k : nat) :
  Detailed.wf P s →
  ∀ info counts w s' k',
    Detailed.run_generation_detailed P rs s k = Ok (info, counts, w, s', k') →
    ∃ top, counts !! w = Some top
           ∧ (∀ c n, counts !! c = Some n → n ≤ top)%nat
           ∧ (Z.to_nat (Detailed.N_VOTERS P)
              ≤ top * Z.to_nat (Detailed.N_CANDIDATES P))%nat.
Proof.
  intros Hwf info counts w s' k' Hgen.
  destruct (detailed_tally _ _ _ _ _ _ _ _ _ Hwf Hgen) as (_ & _ & Hlen & _ & Hsum).
  apply DetailedFacts.run_generation_detailed_inv in Hgen
    as (_ & _ & _ & _ & _ & Hmax & _); [| done].
  apply argmax_nat_spec in Hmax as (top & Htop & Hge & _).
  exists top. split; [done |].
  assert (∀ c n, counts !! c = Some n → (n ≤ top)%nat) as Hle.
  { intros c n Hc. specialize (Hge c n Hc). lia. }
  split; [done |].
  pose proof (sum_list_le_bound counts top Hle). lia.
Qed.

Lemma detailed_winner_has_at_least_average_votes_witness :
  ∃ info counts w s' k' top,
    Detailed.run_generation_detailed Scenarios.detailed_small Scenarios.steady
      (Scenarios.detailed_sim Scenarios.left_heavy 10 60) 0
    = Ok (info, counts, w, s', k')
    ∧ counts !! w = Some top ∧ (4 ≤ top * 2)%nat.
Proof.
  destruct (DetailedFacts.run_generation_detailed_Ok
              Scenarios.detailed_small Scenarios.steady
              (Scenarios.detailed_sim Scenarios.left_heavy 10 60) 0)
    as [[[[[info counts] w] s'] k'] Hgen]; [evaluate | evaluate |].
  destruct (detailed_winner_has_at_least_average_votes
              Scenarios.detailed_small Scenarios.steady
              (Scenarios.detailed_sim Scenarios.left_heavy 10 60) 0
              ltac:(evaluate) info counts w s' k' Hgen)
    as (top & Htop & _ & Havg).
  exists info, counts, w, s', k', top. split_and!; [exact Hgen | exact Htop | exact Havg].
Defined.

Lemma sum_list_map_le {A} (f g : A → nat) (l : list A) :
  (∀ x, f x ≤ g x)%nat → (sum_list (map f l) ≤ sum_list (map g l))%nat.
Proof.
  intros Hle. induction l as [|x l IH]; simpl; [lia |].
  specialize (Hle x). lia.
Qed.

(** X6.  In the prototype a candidate's coalition has [N_VOTERS / 2]
    members, or all its supporters when they are fewer, and the winner is
    the first candidate whose size so capped is largest; the sizes reported
    have one entry per candidate and sum to at most the number of voters. *)
Theorem prototype_winner_has_largest_capped_support
    (P : Prototype.Params) (rs : RandomState) (s : Prototype.Sim)
    (flag : bool) (k : nat) :
  RandomState_ok rs → Prototype.wf P s → 0 <= Prototype.N_VOTERS P →
  ∀ winner sizes s' k',
    Prototype.run_generation P rs s flag k = Ok (winner, sizes, s', k') →
    ∃ ballots w,
      Prototype.poll P s = Ok ballots
      ∧ length sizes = Z.to_nat (Prototype.N_CANDIDATES P)
      ∧ (∀ idx, (idx < length sizes)%nat →
           sizes !! idx
           = Some (Nat.min (Z.to_nat (Prototype.N_VOTERS P / 2))
                           (length (filter (λ b, b = idx) ballots))))
      ∧ first_max (λ a b : nat, (a < b)%nat) sizes w
      ∧ sizes !! w = Some (size (Prototype.c_winning_coalition winner))
      ∧ (sum_list sizes ≤ Z.to_nat (Prototype.N_VOTERS P))%nat.
Proof.
  intros Hrs Hwf HN winner sizes s' k' Hgen. pose proof Hwf as [Hnv Hnc].
  apply PrototypeFacts.run_generation_inv in Hgen
    as (ballots & w & Hpoll & Hsizes & Hmax & Hwinner & _).
  exists ballots, w. rewrite coalition_sizes in Hsizes by done.
  pose proof Hpoll as Hpolled. apply PrototypeFacts.proto_poll_inv in Hpolled.
  pose proof (PrototypeFacts.proto_polled_ballots_in_range _ _ _ _ Hpolled) as Hrange.
  destruct Hpolled as [Hlen _].
  split_and!.
  - done.
  - subst sizes. by rewrite length_map, length_seq.
  - intros idx Hidx. subst sizes. rewrite length_map, length_seq in Hidx.
    change (map ?f ?l) with (f <$> l).
    by rewrite list_lookup_fmap, lookup_seq_lt.
  - by apply argmax_nat_spec.
  - apply argmax_nat_spec in Hmax as (x & Hx & _). rewrite Hx. f_equal.
    rewrite <- coalition_sizes with (rs := rs) (k := k) in Hsizes by done.
    subst sizes. change (map ?f ?l) with (f <$> l) in Hx.
    rewrite list_lookup_fmap, Hwinner in Hx. by injection Hx as <-.
  - subst sizes.
    etransitivity;
      [apply (sum_list_map_le _ (λ idx, length (filter (λ b, b = idx) ballots))) |].
    + intros idx. lia.
    + rewrite votes_sum, votes_all_below by done. lia.
Qed.

Lemma prototype_winner_has_largest_capped_support_witness :
  ∃ winner sizes s' k',
    Prototype.run_generation Scenarios.prototype_small Scenarios.steady
      (Scenarios.prototype_sim Scenarios.right_heavy 0 90) true 0
    = Ok (winner, sizes, s', k')
    ∧ length sizes = 2%nat ∧ (sum_list sizes ≤ 4)%nat.
Proof.
  destruct (PrototypeFacts.run_generation_Ok
              Scenarios.prototype_small Scenarios.steady
              (Scenarios.prototype_sim Scenarios.right_heavy 0 90) true 0)
    as [[[[winner sizes] s'] k'] Hgen].
  { evaluate. }
  { unfold Prototype.runnable. simpl.
    split_and!; [discriminate | discriminate | intros _; discriminate]. }
  destruct (prototype_winner_has_largest_capped_support
              Scenarios.prototype_small Scenarios.steady
              (Scenarios.prototype_sim Scenarios.right_heavy 0 90) true 0
              steady_ok ltac:(evaluate) ltac:(discriminate)
              winner sizes s' k' Hgen)
    as (ballots & w & _ & Hlen & _ & _ & _ & Hsum).
  exists winner, sizes, s', k'. split_and!; [exact Hgen | exact Hlen | exact Hsum].
Defined.

Lemma ratio_at_most_half (a n : Z) :
  0 < n → 2 * a <= n → (inject_Z a / inject_Z n <= 1 # 2)%Q.
Proof.
  intros Hn Ha. apply Qle_shift_div_r.
  - unfold Qlt, inject_Z. simpl. lia.
  - unfold Qle, inject_Z. simpl. lia.
Qed.

Lemma prototype_estimate_at_most_half (P : Prototype.Params) (c : Prototype.Candidate) :
  2 <= Prototype.N_VOTERS P →
  (size (Prototype.c_winning_coalition c)
   ≤ Z.to_nat (Prototype.N_VOTERS P / 2))%nat →
  (Prototype.estimate P c <= 1 # 2)%Q.
Proof.
  intros HN Hsize. unfold Prototype.estimate. case_decide.
  - apply ratio_at_most_half; [lia |].
    assert (2 * (Prototype.N_VOTERS P / 2) <= Prototype.N_VOTERS P)
      by (Z.div_mod_to_equations; lia).
    assert (0 <= Prototype.N_VOTERS P / 2) by (apply Z.div_pos; lia).
    lia.
  - apply (ratio_at_most_half 1); lia.
Qed.

(** X7.  In the prototype, with at least two voters, every candidate of the
    population a generation leaves behind has a coalition estimate of at
    most one half: the winner's coalition is capped at half the voters and
    every other slot gets [1 / N_VOTERS].  So a voter whose threshold is
    above one half, like the risk-seeking voters of the shipped constants
    ([TAU = 0.6]), is included for none of them. *)
Theorem prototype_estimates_are_at_most_one_half
    (P : Prototype.Params) (rs : RandomState) (s : Prototype.Sim)
    (flag : bool) (k : nat) :
  RandomState_ok rs → Prototype.wf P s → 2 <= Prototype.N_VOTERS P →
  ∀ winner sizes s' k',
    Prototype.run_generation P rs s flag k = Ok (winner, sizes, s', k') →
    ∀ c, c ∈ Prototype.candidates s' →
      Prototype.coalition_prob_of P c = Ok (Prototype.estimate P c)
      ∧ (Prototype.estimate P c <= 1 # 2)%Q
      ∧ ∀ v, (1 # 2 < Prototype.threshold P (Prototype.v_risk_type v))%Q →
          Prototype.inclusion P v c (Prototype.estimate P c) = false.
Proof.
  intros Hrs Hwf HN winner sizes s' k' Hgen c Hc.
  assert (Prototype.estimate P c <= 1 # 2)%Q as Hhalf.
  { apply prototype_estimate_at_most_half; [done |].
    apply PrototypeFacts.run_generation_inv in Hgen
      as (ballots & w & _ & _ & _ & Hwinner & _ & Hrep).
    destruct Hrep as (Hlen & H0 & _ & Hnew). simpl in Hlen, H0, Hnew.
    apply list_elem_of_lookup in Hc as [i Hi].
    pose proof (lookup_lt_Some _ _ _ Hi) as Hlt.
    destruct i as [|i].
    - rewrite H0 in Hi. injection Hi as <-.
      apply list_lookup_imap_Some in Hwinner as (orig & _ & ->).
      rewrite PrototypeFacts.coalition_size by (done || (rewrite quota_half by lia;
        apply Z.div_pos; lia)).
      rewrite quota_half by lia. lia.
    - rewrite Hnew in Hi by lia. injection Hi as <-.
      cbn [Prototype.c_winning_coalition Prototype.offspring Prototype.new_Candidate].
      rewrite size_empty. lia. }
  split_and!; [| done |].
  - apply PrototypeFacts.coalition_prob_of_Ok. lia.
  - intros v Hthr. unfold Prototype.inclusion.
    apply andb_false_iff. right.
    apply not_true_iff_false. rewrite Qleb_le. apply Qlt_not_le.
    rewrite decide_risk_threshold.
    eapply Qle_lt_trans; [exact Hhalf |]. exact Hthr.
Qed.

Lemma prototype_estimates_are_at_most_one_half_witness :
  ∃ winner sizes s' k',
    Prototype.run_generation Prototype.shipped Scenarios.steady
      Scenarios.prototype_crowd true 0
    = Ok (winner, sizes, s', k')
    ∧ Prototype.inclusion Prototype.shipped
        {| Prototype.v_ideology := 50; Prototype.v_risk_type := risk |}
        winner (Prototype.estimate Prototype.shipped winner) = false.
Proof.
  destruct (PrototypeFacts.run_generation_Ok
              Prototype.shipped Scenarios.steady Scenarios.prototype_crowd true 0)
    as [[[[winner sizes] s'] k'] Hgen].
  { evaluate. }
  { unfold Prototype.runnable. simpl.
    split_and!; [discriminate | discriminate | intros _; discriminate]. }
  exists winner, sizes, s', k'. split; [exact Hgen |].
  assert (winner ∈ Prototype.candidates s') as Hin.
  { apply PrototypeFacts.run_generation_inv in Hgen
      as (ballots & w & _ & _ & _ & _ & _ & Hrep).
    destruct Hrep as (_ & H0 & _). simpl in H0.
    by eapply list_elem_of_lookup_2. }
  destruct (prototype_estimates_are_at_most_one_half
              Prototype.shipped Scenarios.steady Scenarios.prototype_crowd true 0
              steady_ok ltac:(evaluate) ltac:(discriminate)
              winner sizes s' k' Hgen winner Hin) as (_ & _ & Hout).
  apply Hout. reflexivity.
Defined.

Lemma detailed_offspring_in_bounds (P : Detailed.Params) (rs : RandomState)
    (self : Detailed.Candidate) (k : nat) :
  Detailed.in_bounds (Detailed.offspring P rs self k).
Proof.
  unfold Detailed.in_bounds, Detailed.offspring. simpl.
  destruct (clip_bounds
              (Detailed.c_alpha self
               + (0 + Detailed.PUBLIC_GOODS_MUT_STD P * standard_normal rs k)) 0 1)
    as [? ?]; [done |].
  destruct (clip_bounds
              (Detailed.c_ideology self
               + (0 + Detailed.POLICY_MUT_STD P * standard_normal rs (S k))) (-100) 100)
    as [? ?]; [done |].
  done.
Qed.

Lemma detailed_generation_in_bounds (P : Detailed.Params) (rs : RandomState)
    (s s' : Detailed.Sim) (k k' w : nat) (info : list Detailed.VoteInfo)
    (counts : list nat) :
  Detailed.wf P s →
  Forall Detailed.in_bounds (Detailed.candidates s) →
  Detailed.run_generation_detailed P rs s k = Ok (info, counts, w, s', k') →
  Forall Detailed.in_bounds (Detailed.candidates s').
Proof.
  intros Hwf Hin Hgen. pose proof Hwf as [_ Hnc].
  apply DetailedFacts.run_generation_detailed_inv in Hgen
    as (ballots & winner & _ & _ & _ & _ & Hwinner & Hrep); [| done].
  destruct Hrep as (Hlen & Hw & _ & Hdone & _). simpl in Hlen, Hw, Hdone.
  apply Forall_lookup. intros cid c Hc.
  pose proof (lookup_lt_Some _ _ _ Hc) as Hlt.
  destruct (decide (cid = w)) as [-> | Hne].
  - rewrite Hw in Hc. injection Hc as <-.
    rewrite Forall_lookup in Hin. by eapply Hin.
  - rewrite Hdone in Hc by (done || lia). injection Hc as <-.
    apply detailed_offspring_in_bounds.
Qed.

Lemma uniform_in_unit (rs : RandomState) (k : nat) (lo hi : Q) :
  RandomState_ok rs → (lo <= hi)%Q →
  (lo <= (uniform rs lo hi k).1)%Q ∧ ((uniform rs lo hi k).1 <= hi)%Q.
Proof.
  intros Hrs Hlh. destruct (random_sample_range rs Hrs k) as [H0 H1].
  unfold uniform. simpl.
  set (u := random_sample rs k) in *.
  assert (0 <= (hi - lo) * u)%Q by (apply Qmult_le_0_compat; [lra | done]).
  assert ((hi - lo) * u <= (hi - lo) * 1)%Q.
  { rewrite !(Qmult_comm (hi - lo)). apply Qmult_le_compat_r; lra. }
  lra.
Qed.

Lemma detailed_init_in_bounds (P : Detailed.Params) (rs : RandomState)
    (s : Detailed.Sim) (k k' : nat) :
  RandomState_ok rs →
  Detailed.init P rs k = Ok (s, k') →
  Forall Detailed.in_bounds (Detailed.candidates s).
Proof.
  intros Hrs. unfold Detailed.init. intros H.
  apply bind_Ok in H as ([vs k1] & _ & H).
  set (body := λ '(cs, k0) (_ : nat), _) in H.
  pose proof (foldl_invariant body
                (λ _ (st : list Detailed.Candidate * nat),
                   Forall Detailed.in_bounds st.1)
                (py_range (Detailed.N_CANDIDATES P)) ([], k1)) as Hinv.
  destruct (foldl body ([], k1) (py_range (Detailed.N_CANDIDATES P))) as [cs k2].
  injection H as <- <-. simpl in *. apply Hinv; [done |].
  intros _ x _ [cs0 k0] _ Hcs. simpl in *.
  apply Forall_app. split; [done |]. apply Forall_singleton.
  destruct (uniform_in_unit rs k0 0 100 Hrs) as [? ?]; [done |].
  destruct (uniform_in_unit rs (S k0) 0 1 Hrs) as [? ?]; [done |].
  unfold Detailed.in_bounds. simpl in *. split_and!; try done.
  eapply Qle_trans; [| eassumption]. done.
Qed.

(** X8.  Under a generator that behaves as NumPy's does, when the detailed
    script runs through, the simulator it ends with has [N_VOTERS] voters
    and [N_CANDIDATES] candidates, every candidate has [alpha] in [0,1] and
    an ideology in [-100,100], and so has every row of the candidate table
    it recorded. *)
Theorem detailed_run_keeps_candidates_in_bounds
    (P : Detailed.Params) (rs : RandomState) (k : nat) :
  RandomState_ok rs →
  ∀ s k' t,
    Detailed.main P rs k = Ok (s, k', t) →
    Detailed.wf P s
    ∧ Forall Detailed.in_bounds (Detailed.candidates s)
    ∧ Forall (λ row, (0 <= Detailed.cr_alpha row)%Q ∧ (Detailed.cr_alpha row <= 1)%Q
                     ∧ (-100 <= Detailed.cr_ideology row)%Q
                     ∧ (Detailed.cr_ideology row <= 100)%Q)
             (Detailed.candidate_records t).
Proof.
  intros Hrs s k' t. unfold Detailed.main. intros H.
  apply bind_Ok in H as ([s0 k0] & Hinit & H).
  destruct (DetailedFacts.init_Ok P rs k) as (s0' & k0' & Hinit' & Hwf0).
  rewrite Hinit in Hinit'. injection Hinit' as <- <-.
  pose proof (detailed_init_in_bounds _ _ _ _ _ Hrs Hinit) as Hin0.
  unfold Detailed.run_simulation_detailed in H.
  apply (foldM_invariant _
           (λ _ (st : Detailed.Sim * nat * Detailed.Tables),
              Detailed.wf P st.1.1
              ∧ Forall Detailed.in_bounds (Detailed.candidates st.1.1)
              ∧ Forall (λ row, (0 <= Detailed.cr_alpha row)%Q
                               ∧ (Detailed.cr_alpha row <= 1)%Q
                               ∧ (-100 <= Detailed.cr_ideology row)%Q
                               ∧ (Detailed.cr_ideology row <= 100)%Q)
                       (Detailed.candidate_records st.2))) in H.
  - exact H.
  - simpl. split_and!; [done | done | by apply Forall_nil].
  - intros _ gen _ [[s1 k1] t1] [[s2 k2] t2] _ (Hwf1 & Hin1 & Hrows1) Hrec.
    simpl in Hwf1, Hin1, Hrows1.
    pose proof (DetailedFacts.record_generation_wf _ _ _ _ _ _ _ _ _ Hwf1 Hrec) as Hwf2.
    apply DetailedFacts.record_generation_inv in Hrec
      as (info & counts & w & vrs & Hgen & _ & _ & _ & Hcr).
    pose proof (detailed_generation_in_bounds _ _ _ _ _ _ _ _ _ Hwf1 Hin1 Hgen) as Hin2.
    simpl. split_and!; [done | done |].
    rewrite Hcr. apply Forall_app. split; [done |].
    unfold Detailed.candidate_rows. apply Forall_fmap, Forall_forall.
    intros [cid c] Hc. simpl.
    apply list_elem_of_lookup in Hc as [i Hi].
    apply enumerate_lookup in Hi as [_ Hi].
    rewrite Forall_lookup in Hin2. apply (Hin2 i c Hi).
Qed.

Lemma detailed_run_keeps_candidates_in_bounds_witness :
  ∃ s k' t,
    Detailed.main Detailed.shipped Scenarios.steady 0 = Ok (s, k', t)
    ∧ Forall Detailed.in_bounds (Detailed.candidates s).
Proof.
  destruct (DetailedFacts.main_Ok Detailed.shipped Scenarios.steady 0)
    as [[[s k'] t] Hmain]; [evaluate |].
  exists s, k', t. split; [exact Hmain |].
  destruct (detailed_run_keeps_candidates_in_bounds
              Detailed.shipped Scenarios.steady 0 steady_ok s k' t Hmain)
    as (_ & Hin & _).
  exact Hin.
Defined.

Lemma prototype_offspring_in_bounds (P : Prototype.Params) (rs : RandomState)
    (self : Prototype.Candidate) (flag : bool) (k : nat) :
  Prototype.in_bounds (Prototype.offspring P rs self flag k).
Proof.
  unfold Prototype.in_bounds, Prototype.offspring. simpl.
  match goal with |- context [clip ?x 0 1] =>
    destruct (clip_bounds x 0 1) as [? ?]; [done |] end.
  match goal with |- context [clip ?x 0 100] =>
    destruct (clip_bounds x 0 100) as [? ?]; [done |] end.
  done.
Qed.

Lemma prototype_generation_in_bounds (P : Prototype.Params) (rs : RandomState)
    (s s' : Prototype.Sim) (flag : bool) (k k' : nat)
    (winner : Prototype.Candidate) (sizes : list nat) :
  Forall Prototype.in_bounds (Prototype.candidates s) →
  Prototype.run_generation P rs s flag k = Ok (winner, sizes, s', k') →
  Prototype.in_bounds winner
  ∧ Forall Prototype.in_bounds (Prototype.candidates s').
Proof.
  intros Hin Hgen.
  apply PrototypeFacts.run_generation_inv in Hgen
    as (ballots & w & _ & _ & _ & Hwinner & _ & Hrep).
  destruct Hrep as (Hlen & H0 & _ & Hnew). simpl in Hlen, H0, Hnew.
  apply list_lookup_imap_Some in Hwinner as (orig & Horig & ->).
  assert (Prototype.in_bounds (Prototype.with_support P rs ballots k w orig)) as Hw.
  { rewrite Forall_lookup in Hin. apply (Hin w orig Horig). }
  split; [done |].
  apply Forall_lookup. intros i c Hc.
  pose proof (lookup_lt_Some _ _ _ Hc) as Hlt.
  destruct i as [|i].
  - rewrite H0 in Hc. by injection Hc as <-.
  - rewrite Hnew in Hc by lia. injection Hc as <-.
    apply prototype_offspring_in_bounds.
Qed.

Lemma prototype_init_in_bounds (P : Prototype.Params) (rs : RandomState) (k : nat) :
  RandomState_ok rs →
  Forall Prototype.in_bounds (Prototype.candidates (Prototype.init P rs k).1).
Proof.
  intros Hrs. unfold Prototype.init.
  destruct (foldl _ ([], k) (py_range (Prototype.N_VOTERS P))) as [vs k1].
  set (body := λ '(cs, k0) (_ : nat), _).
  pose proof (foldl_invariant body
                (λ _ (st : list Prototype.Candidate * nat),
                   Forall Prototype.in_bounds st.1)
                (py_range (Prototype.N_CANDIDATES P)) ([], k1)) as Hinv.
  destruct (foldl body ([], k1) (py_range (Prototype.N_CANDIDATES P))) as [cs k2].
  simpl in *. apply Hinv; [done |].
  intros _ x _ [cs0 k0] _ Hcs. simpl in *.
  apply Forall_app. split; [done |]. apply Forall_singleton.
  destruct (uniform_in_unit rs k0 0 100 Hrs) as [? ?]; [done |].
  destruct (uniform_in_unit rs (S k0) 0 1 Hrs) as [? ?]; [done |].
  unfold Prototype.in_bounds. simpl in *. done.
Qed.

(** X9.  Under a generator that behaves as NumPy's does, when the prototype
    script runs through, the simulator it ends with has the voters it
    started with and [N_CANDIDATES] candidates, the history has one entry
    per generation, numbered from 0, and every candidate and every winner
    recorded in the history has [alpha] in [0,1] and a policy in
    [0,100]. *)
Theorem prototype_run_keeps_candidates_in_bounds
    (P : Prototype.Params) (rs : RandomState) (k : nat) :
  RandomState_ok rs →
  ∀ history s k',
    Prototype.main P rs k = Ok (history, s, k') →
    Prototype.wf P s
    ∧ Prototype.voters s = Prototype.voters (Prototype.init P rs k).1
    ∧ Forall Prototype.in_bounds (Prototype.candidates s)
    ∧ length history = Z.to_nat (Prototype.N_GENERATIONS P)
    ∧ ∀ g row, history !! g = Some row →
        Prototype.h_generation row = g
        ∧ (0 <= Prototype.h_winner_alpha row)%Q ∧ (Prototype.h_winner_alpha row <= 1)%Q
        ∧ (0 <= Prototype.h_winner_policy row)%Q
        ∧ (Prototype.h_winner_policy row <= 100)%Q.
Proof.
  intros Hrs history s k'. unfold Prototype.main.
  pose proof (PrototypeFacts.init_wf P rs k) as Hwf0.
  pose proof (prototype_init_in_bounds P rs k Hrs) as Hin0.
  destruct (Prototype.init P rs k) as [s0 k0]. simpl in Hwf0, Hin0 |- *.
  unfold Prototype.run_simulation. intros H.
  apply (foldM_invariant _
           (λ done_ (st : list Prototype.HistoryRecord * Prototype.Sim * nat),
              Prototype.wf P st.1.2
              ∧ Prototype.voters st.1.2 = Prototype.voters s0
              ∧ Forall Prototype.in_bounds (Prototype.candidates st.1.2)
              ∧ length st.1.1 = length done_
              ∧ ∀ g row, st.1.1 !! g = Some row →
                  Prototype.h_generation row = g
                  ∧ (0 <= Prototype.h_winner_alpha row)%Q
                  ∧ (Prototype.h_winner_alpha row <= 1)%Q
                  ∧ (0 <= Prototype.h_winner_policy row)%Q
                  ∧ (Prototype.h_winner_policy row <= 100)%Q)) in H.
  - simpl in H. unfold py_range in H. by rewrite length_seq in H.
  - simpl. split_and!; try done.
  - intros done_ gen todo [[h1 s1] k1] [[h2 s2] k2] Hl
      (Hwf1 & Hvs1 & Hin1 & Hlen1 & Hrows1) Hbody.
    simpl in Hwf1, Hvs1, Hin1, Hlen1, Hrows1.
    apply py_range_split in Hl as (-> & _ & _).
    apply bind_Ok in Hbody as ([[[winner sizes] s'] kk] & Hgen & Hbody).
    injection Hbody as <- <- <-.
    pose proof (PrototypeFacts.run_generation_wf _ _ _ _ _ _ _ _ _ Hwf1 Hgen) as Hwf2.
    destruct (prototype_generation_in_bounds _ _ _ _ _ _ _ _ _ Hin1 Hgen)
      as [Hwin Hin2].
    apply PrototypeFacts.run_generation_inv in Hgen
      as (_ & _ & _ & _ & _ & _ & Hvs & _).
    simpl. split_and!; [done | congruence | done | |].
    + rewrite !length_app. simpl. lia.
    + intros g row Hrow. apply lookup_snoc_Some in Hrow as [[_ Hrow] | [-> <-]].
      * by apply Hrows1.
      * simpl. destruct Hwin as (? & ? & ? & ?). split_and!; done.
Qed.

Lemma prototype_run_keeps_candidates_in_bounds_witness :
  ∃ history s k',
    Prototype.main Prototype.shipped Scenarios.steady 0 = Ok (history, s, k')
    ∧ length history = 2000%nat.
Proof.
  destruct (PrototypeFacts.proto_main_Ok Prototype.shipped Scenarios.steady 0)
    as [[[history s] k'] Hmain].
  { unfold Prototype.runnable. simpl.
    split_and!; [discriminate | discriminate | intros _; discriminate]. }
  exists history, s, k'. split; [exact Hmain |].
  destruct (prototype_run_keeps_candidates_in_bounds
              Prototype.shipped Scenarios.steady 0 steady_ok history s k' Hmain)
    as (_ & _ & _ & Hlen & _).
  exact Hlen.
Defined.

(** X10.  When the detailed simulation runs through, its three tables are
    complete: one summary row per generation, [N_CANDIDATES] candidate rows
    and [N_VOTERS] voter rows per generation.  The summary rows are numbered
    from 0, and in each the vote counts have one entry per candidate, sum
    to the number of voters, and the winner index is the first position of
    their maximum. *)
Theorem detailed_tables_are_complete
    (P : Detailed.Params) (rs : RandomState) (s : Detailed.Sim) (k : nat) :
  Detailed.wf P s →
  ∀ s' k' t,
    Detailed.run_simulation_detailed P rs s k = Ok (s', k', t) →
    length (Detailed.election_summary t) = Z.to_nat (Detailed.MAX_GENERATIONS P)
    ∧ length (Detailed.candidate_records t)
      = (Z.to_nat (Detailed.MAX_GENERATIONS P) * Z.to_nat (Detailed.N_CANDIDATES P))%nat
    ∧ length (Detailed.vote_records t)
      = (Z.to_nat (Detailed.MAX_GENERATIONS P) * Z.to_nat (Detailed.N_VOTERS P))%nat
    ∧ ∀ g row, Detailed.election_summary t !! g = Some row →
        Detailed.es_generation row = g
        ∧ length (Detailed.es_vote_counts row) = Z.to_nat (Detailed.N_CANDIDATES P)
        ∧ sum_list (Detailed.es_vote_counts row) = Z.to_nat (Detailed.N_VOTERS P)
        ∧ first_max (λ a b : nat, (a < b)%nat)
            (Detailed.es_vote_counts row) (Detailed.es_winner_idx row).
Proof.
  intros Hwf s' k' t. unfold Detailed.run_simulation_detailed. intros H.
  apply (foldM_invariant _
           (λ done_ (st : Detailed.Sim * nat * Detailed.Tables),
              Detailed.wf P st.1.1
              ∧ length (Detailed.election_summary st.2) = length done_
              ∧ length (Detailed.candidate_records st.2)
                = (length done_ * Z.to_nat (Detailed.N_CANDIDATES P))%nat
              ∧ length (Detailed.vote_records st.2)
                = (length done_ * Z.to_nat (Detailed.N_VOTERS P))%nat
              ∧ ∀ g row, Detailed.election_summary st.2 !! g = Some row →
                  Detailed.es_generation row = g
                  ∧ length (Detailed.es_vote_counts row)
                    = Z.to_nat (Detailed.N_CANDIDATES P)
                  ∧ sum_list (Detailed.es_vote_counts row)
                    = Z.to_nat (Detailed.N_VOTERS P)
                  ∧ first_max (λ a b : nat, (a < b)%nat)
                      (Detailed.es_vote_counts row) (Detailed.es_winner_idx row)))
    in H.
  - simpl in H. unfold py_range in H. rewrite length_seq in H.
    destruct H as (_ & ? & ? & ? & ?). done.
  - simpl. split_and!; try done.
  - intros done_ gen todo [[s1 k1] t1] [[s2 k2] t2] Hl
      (Hwf1 & Hes & Hcr & Hvr & Hrows) Hrec.
    simpl in Hwf1, Hes, Hcr, Hvr, Hrows.
    apply py_range_split in Hl as (-> & _ & _).
    pose proof (DetailedFacts.record_generation_wf _ _ _ _ _ _ _ _ _ Hwf1 Hrec)
      as Hwf2.
    apply DetailedFacts.record_generation_inv in Hrec
      as (info & counts & w & vrs & Hgen & [Hvrs _] & Hvr' & Hes' & Hcr').
    destruct (detailed_tally _ _ _ _ _ _ _ _ _ Hwf1 Hgen)
      as (Hinfo & _ & Hcounts & _ & Hsum).
    pose proof Hgen as Hgen'.
    apply DetailedFacts.run_generation_detailed_inv in Hgen'
      as (_ & _ & _ & _ & _ & Hmax & _); [| done].
    pose proof Hwf2 as [_ Hnc2].
    simpl. rewrite Hes', Hcr', Hvr', !length_app. simpl.
    unfold Detailed.candidate_rows. rewrite length_map, enumerate_length.
    split_and!; [done | lia | lia | lia |].
    intros g row Hrow. apply lookup_snoc_Some in Hrow as [[_ Hrow] | [Hg <-]].
    + by apply Hrows.
    + simpl. split_and!; [lia | done | done | by apply argmax_nat_spec].
Qed.

Lemma detailed_tables_are_complete_witness :
  ∃ s' k' t,
    Detailed.run_simulation_detailed Detailed.shipped Scenarios.steady
      Scenarios.detailed_crowd 0 = Ok (s', k', t)
    ∧ length (Detailed.election_summary t) = 200%nat
    ∧ length (Detailed.candidate_records t) = (200 * 4)%nat
    ∧ length (Detailed.vote_records t) = (200 * 100)%nat.
Proof.
  destruct (DetailedFacts.run_simulation_detailed_Ok
              Detailed.shipped Scenarios.steady Scenarios.detailed_crowd 0)
    as [[[s' k'] t] Hrun]; [evaluate | evaluate |].
  exists s', k', t. split; [exact Hrun |].
  destruct (detailed_tables_are_complete
              Detailed.shipped Scenarios.steady Scenarios.detailed_crowd 0
              ltac:(evaluate) s' k' t Hrun) as (Hes & Hcr & Hvr & _).
  split_and!; [exact Hes | exact Hcr | exact Hvr].
Defined.

Lemma risk_types_lookup (a b : Z) (i : nat) :
  (i < Z.to_nat (a + b) ∨ i < Z.to_nat a + Z.to_nat b)%nat →
  (i < Z.to_nat a + Z.to_nat b)%nat →
  (py_repeat safe a ++ py_repeat risk b) !! i
  = Some (if decide (Z.of_nat i < a) then safe else risk).
Proof.
  intros _ Hi. unfold py_repeat. case_decide.
  - rewrite lookup_app_l by (rewrite length_replicate; lia).
    apply lookup_replicate_2. lia.
  - rewrite lookup_app_r by (rewrite length_replicate; lia).
    rewrite length_replicate. apply lookup_replicate_2. lia.
Qed.

(** X11.  Constructing the detailed simulator never raises.  It creates
    [N_VOTERS] voters and [N_CANDIDATES] candidates; the voters at the first
    [int(N_VOTERS * RATIO_OF_VOTERS)] positions are safe and all later ones
    risk-seeking, where the product is the float product, rounded to
    binary64 before [int] truncates it; each voter's ideology is its own
    uniform draw scaled to [0, 100], in creation order, and every
    [included] list starts as [N_CANDIDATES] times [False]. *)
Theorem detailed_init_assigns_risk_types_by_position
    (P : Detailed.Params) (rs : RandomState) (k : nat) :
  ∃ s k',
    Detailed.init P rs k = Ok (s, k')
    ∧ Detailed.wf P s
    ∧ ∀ i v, Detailed.voters s !! i = Some v →
        Detailed.v_risk_type v
        = (if decide (Z.of_nat i
                      < py_int (float_mul (float_of_int (Detailed.N_VOTERS P))
                                          (Detailed.RATIO_OF_VOTERS P)))
           then safe else risk)
        ∧ Detailed.v_ideology v = (0 + (100 - 0) * random_sample rs (k + i))%Q
        ∧ Detailed.v_included v = replicate (Z.to_nat (Detailed.N_CANDIDATES P)) false.
Proof.
  destruct (DetailedFacts.init_Ok P rs k) as (s & k' & Hinit & Hwf).
  exists s, k'. split_and!; [done | done |].
  unfold Detailed.init in Hinit.
  set (n_safe := py_int _) in *.
  set (types := py_repeat safe _ ++ py_repeat risk _) in Hinit.
  apply bind_Ok in Hinit as ([vs k1] & Hvs & Hinit).
  assert (Detailed.voters s = vs) as ->.
  { destruct (foldl _ _ _) as [cs k2] in Hinit. by injection Hinit as <- _. }
  clear Hinit.
  apply (foldM_invariant _
           (λ done_ (st : list Detailed.Voter * nat),
              st.2 = (k + length done_)%nat
              ∧ length st.1 = length done_
              ∧ ∀ i v, st.1 !! i = Some v →
                  Detailed.v_risk_type v
                  = (if decide (Z.of_nat i < n_safe) then safe else risk)
                  ∧ Detailed.v_ideology v
                    = (0 + (100 - 0) * random_sample rs (k + i))%Q
                  ∧ Detailed.v_included v
                    = replicate (Z.to_nat (Detailed.N_CANDIDATES P)) false)) in Hvs.
  - destruct Hvs as (_ & _ & Hall). exact Hall.
  - simpl. split_and!; [lia | done | done].
  - intros done_ i todo [vs0 k0] [vs1 k1'] Hl (Hk & Hlen & Hall) Hbody.
    simpl in Hk, Hlen, Hall.
    apply py_range_split in Hl as (-> & Hlt & _).
    simpl in Hbody. apply bind_Ok in Hbody as (t & Ht & Hbody).
    injection Hbody as <- <-. apply getitem_Ok in Ht.
    subst types. rewrite risk_types_lookup in Ht by lia. injection Ht as <-.
    simpl. split_and!; [rewrite length_app; simpl; lia
                       | rewrite !length_app; simpl; lia |].
    intros j v Hv. apply lookup_snoc_Some in Hv as [[_ Hv] | [-> <-]].
    + by apply Hall.
    + rewrite Hlen. subst k0. done.
Qed.

Lemma detailed_init_assigns_risk_types_by_position_witness :
  (∃ s k' v,
     Detailed.init Detailed.shipped Scenarios.steady 0 = Ok (s, k')
     ∧ Detailed.voters s !! 99%nat = Some v
     ∧ Detailed.v_risk_type v = risk)
  ∧ (∃ s k' v6 v7,
       Detailed.init Scenarios.detailed_seven_tenths Scenarios.steady 0 = Ok (s, k')
       ∧ Detailed.voters s !! 6%nat = Some v6
       ∧ Detailed.v_risk_type v6 = safe
       ∧ Detailed.voters s !! 7%nat = Some v7
       ∧ Detailed.v_risk_type v7 = risk).
Proof.
  split.
  - destruct (detailed_init_assigns_risk_types_by_position
                Detailed.shipped Scenarios.steady 0)
      as (s & k' & Hinit & [Hnv _] & Hall).
    destruct (lookup_lt_is_Some_2 (Detailed.voters s) 99) as [v Hv].
    { rewrite Hnv. vm_compute. lia. }
    exists s, k', v. split_and!; [exact Hinit | exact Hv |].
    destruct (Hall 99%nat v Hv) as (Hrisk & _). exact Hrisk.
  - destruct (detailed_init_assigns_risk_types_by_position
                Scenarios.detailed_seven_tenths Scenarios.steady 0)
      as (s & k' & Hinit & [Hnv _] & Hall).
    destruct (lookup_lt_is_Some_2 (Detailed.voters s) 6) as [v6 Hv6].
    { rewrite Hnv. vm_compute. lia. }
    destruct (lookup_lt_is_Some_2 (Detailed.voters s) 7) as [v7 Hv7].
    { rewrite Hnv. vm_compute. lia. }
    exists s, k', v6, v7.
    destruct (Hall 6%nat v6 Hv6) as (Hsafe & _).
    destruct (Hall 7%nat v7 Hv7) as (Hrisk & _).
    split_and!; [exact Hinit | exact Hv6 | exact Hsafe | exact Hv7 | exact Hrisk].
Defined.

(** Clipping a value already in range returns it as it is. *)
Lemma clip_in_range (x lo hi : Q) : (lo <= x)%Q → (x <= hi)%Q → clip x lo hi = x.
Proof.
  intros Hlo Hhi. unfold clip, Qmin, Qmax, GenericMinMax.gmin, GenericMinMax.gmax.
  destruct (x ?= lo)%Q eqn:E1.
  - destruct (x ?= hi)%Q eqn:E2; [done | done |].
    apply Qgt_alt in E2. apply Qlt_not_le in E2. contradiction.
  - apply Qlt_alt in E1. apply Qlt_not_le in E1. contradiction.
  - destruct (x ?= hi)%Q eqn:E2; [done | done |].
    apply Qgt_alt in E2. apply Qlt_not_le in E2. contradiction.
Qed.

Lemma prototype_fixed_policy_generation (P : Prototype.Params) (rs : RandomState)
    (s s' : Prototype.Sim) (k k' : nat) (winner : Prototype.Candidate)
    (sizes : list nat) :
  Forall (λ c, (0 <= Prototype.c_policy c)%Q ∧ (Prototype.c_policy c <= 100)%Q)
         (Prototype.candidates s) →
  Prototype.run_generation P rs s false k = Ok (winner, sizes, s', k') →
  (∃ orig, orig ∈ Prototype.candidates s
           ∧ Prototype.c_policy winner = Prototype.c_policy orig)
  ∧ ∀ c, c ∈ Prototype.candidates s' →
      Prototype.c_policy c = Prototype.c_policy winner.
Proof.
  intros Hin Hgen.
  apply PrototypeFacts.run_generation_inv in Hgen
    as (ballots & w & _ & _ & _ & Hwinner & _ & Hrep).
  destruct Hrep as (Hlen & H0 & _ & Hnew). simpl in Hlen, H0, Hnew.
  apply list_lookup_imap_Some in Hwinner as (orig & Horig & ->).
  split.
  - exists orig. split; [by eapply list_elem_of_lookup_2 | done].
  - intros c Hc. apply list_elem_of_lookup in Hc as [i Hi].
    pose proof (lookup_lt_Some _ _ _ Hi) as Hlt.
    destruct i as [|i].
    + rewrite H0 in Hi. by injection Hi as <-.
    + rewrite Hnew in Hi by lia. injection Hi as <-. simpl.
      rewrite Forall_lookup in Hin. destruct (Hin w orig Horig) as [? ?].
      by apply clip_in_range.
Qed.

(** X12.  In the prototype's fixed-policy mode ([mutate_policy = False]),
    starting from candidates with policies in [0,100], no new policy ever
    appears: after a run every candidate holds, unchanged, the policy of
    one of the candidates the run started from, and so does every winner in
    the history. *)
Theorem prototype_fixed_policy_mode_creates_no_policy
    (P : Prototype.Params) (rs : RandomState) (s : Prototype.Sim)
    (generations : Z) (k : nat) :
  Forall (λ c, (0 <= Prototype.c_policy c)%Q ∧ (Prototype.c_policy c <= 100)%Q)
         (Prototype.candidates s) →
  ∀ history s' k',
    Prototype.run_simulation P rs s generations false k = Ok (history, s', k') →
    (∀ c, c ∈ Prototype.candidates s' →
       ∃ orig, orig ∈ Prototype.candidates s
               ∧ Prototype.c_policy c = Prototype.c_policy orig)
    ∧ (∀ row, row ∈ history →
         ∃ orig, orig ∈ Prototype.candidates s
                 ∧ Prototype.h_winner_policy row = Prototype.c_policy orig).
Proof.
  intros Hin history s' k'. unfold Prototype.run_simulation. intros H.
  apply (foldM_invariant _
           (λ _ (st : list Prototype.HistoryRecord * Prototype.Sim * nat),
              (∀ c, c ∈ Prototype.candidates st.1.2 →
                 ∃ orig, orig ∈ Prototype.candidates s
                         ∧ Prototype.c_policy c = Prototype.c_policy orig)
              ∧ (∀ row, row ∈ st.1.1 →
                   ∃ orig, orig ∈ Prototype.candidates s
                           ∧ Prototype.h_winner_policy row
                             = Prototype.c_policy orig))) in H.
  - exact H.
  - simpl. split.
    + intros c Hc. by exists c.
    + intros row Hrow. by apply elem_of_nil in Hrow.
  - intros _ gen _ [[h1 s1] k1] [[h2 s2] k2] _ [Hcs Hrows] Hbody.
    simpl in Hcs, Hrows.
    apply bind_Ok in Hbody as ([[[winner sizes] s2'] kk] & Hgen & Hbody).
    injection Hbody as <- <- <-.
    assert (Forall (λ c, (0 <= Prototype.c_policy c)%Q
                         ∧ (Prototype.c_policy c <= 100)%Q)
                   (Prototype.candidates s1)) as Hin1.
    { apply Forall_forall. intros c Hc.
      destruct (Hcs c Hc) as (orig & Horig & ->).
      rewrite Forall_forall in Hin. by apply Hin. }
    destruct (prototype_fixed_policy_generation _ _ _ _ _ _ _ _ Hin1 Hgen)
      as [(o1 & Ho1 & Hwin) Hall].
    destruct (Hcs o1 Ho1) as (orig & Horig & Ho).
    simpl. split.
    + intros c Hc. exists orig. split; [done |].
      rewrite (Hall c Hc). congruence.
    + intros row Hrow. apply elem_of_app in Hrow as [Hrow | Hrow].
      * by apply Hrows.
      * apply list_elem_of_singleton in Hrow as ->. simpl.
        exists orig. split; [done | congruence].
Qed.

Lemma prototype_fixed_policy_mode_creates_no_policy_witness :
  ∃ history s' k',
    Prototype.run_simulation Prototype.shipped Scenarios.steady
      Scenarios.prototype_crowd 3 false 0 = Ok (history, s', k')
    ∧ ∀ c, c ∈ Prototype.candidates s' → Prototype.c_policy c = 50%Q.
Proof.
  destruct (PrototypeFacts.run_simulation_Ok
              Prototype.shipped Scenarios.steady Scenarios.prototype_crowd 3 false 0)
    as [[[history s'] k'] Hrun].
  { evaluate. }
  { unfold Prototype.runnable. simpl.
    split_and!; [discriminate | discriminate | discriminate]. }
  exists history, s', k'. split; [exact Hrun |].
  assert (Forall (λ c, (0 <= Prototype.c_policy c)%Q ∧ (Prototype.c_policy c <= 100)%Q)
                 (Prototype.candidates Scenarios.prototype_crowd)) as Hin.
  { apply Forall_forall. intros c Hc.
    apply elem_of_replicate in Hc as [-> _]. split; vm_compute; discriminate. }
  pose proof (prototype_fixed_policy_mode_creates_no_policy
                Prototype.shipped Scenarios.steady Scenarios.prototype_crowd 3 0
                Hin history s' k' Hrun) as [Hcs _].
  intros c Hc. destruct (Hcs c Hc) as (orig & Horig & ->).
  by apply elem_of_replicate in Horig as [-> _].
Defined.

Lemma clip_in_range_eq (y x lo hi : Q) :
  (y == x)%Q → (lo <= x)%Q → (x <= hi)%Q → (clip y lo hi == x)%Q.
Proof.
  intros Hyx Hlo Hhi. unfold clip.
  assert (Qmax y lo == y)%Q as Hmax by (apply Q.max_l; by rewrite Hyx).
  rewrite Q.min_l; [by rewrite Hmax | by rewrite Hmax, Hyx].
Qed.

(** X13.  In the detailed variant with [POLICY_MUT_STD = 0], starting from
    candidates inside the clipping range, a generation leaves every slot
    with the winner's ideology: the mutated copies differ from the winner
    in [alpha] only. *)
Theorem detailed_zero_policy_deviation_copies_ideology
    (P : Detailed.Params) (rs : RandomState) (s : Detailed.Sim) (k : nat) :
  Detailed.wf P s →
  (Detailed.POLICY_MUT_STD P == 0)%Q →
  Forall Detailed.in_bounds (Detailed.candidates s) →
  ∀ info counts w s' k',
    Detailed.run_generation_detailed P rs s k = Ok (info, counts, w, s', k') →
    ∃ winner,
      Detailed.candidates s !! w = Some winner
      ∧ ∀ c, c ∈ Detailed.candidates s' →
          (Detailed.c_ideology c == Detailed.c_ideology winner)%Q.
Proof.
  intros Hwf Hstd Hin info counts w s' k' Hgen. pose proof Hwf as [_ Hnc].
  apply DetailedFacts.run_generation_detailed_inv in Hgen
    as (ballots & winner & _ & _ & _ & _ & Hwinner & Hrep); [| done].
  destruct Hrep as (Hlen & Hw & _ & Hdone & _). simpl in Hlen, Hw, Hdone.
  exists winner. split; [done |].
  intros c Hc. apply list_elem_of_lookup in Hc as [cid Hcid].
  pose proof (lookup_lt_Some _ _ _ Hcid) as Hlt.
  destruct (decide (cid = w)) as [-> | Hne].
  - rewrite Hw in Hcid. by injection Hcid as <-.
  - rewrite Hdone in Hcid by (done || lia). injection Hcid as <-.
    rewrite Forall_lookup in Hin.
    destruct (Hin w winner Hwinner) as (_ & _ & Hlo & Hhi).
    unfold Detailed.offspring. simpl.
    apply clip_in_range_eq; [| done | done].
    rewrite Hstd. ring.
Qed.

Lemma detailed_zero_policy_deviation_copies_ideology_witness :
  ∃ info counts w s' k',
    Detailed.run_generation_detailed Scenarios.detailed_frozen Scenarios.steady
      Scenarios.detailed_crowd 0 = Ok (info, counts, w, s', k')
    ∧ ∃ winner,
        Detailed.candidates Scenarios.detailed_crowd !! w = Some winner
        ∧ ∀ c, c ∈ Detailed.candidates s' →
            (Detailed.c_ideology c == Detailed.c_ideology winner)%Q.
Proof.
  destruct (DetailedFacts.run_generation_detailed_Ok
              Scenarios.detailed_frozen Scenarios.steady
              Scenarios.detailed_crowd 0)
    as [[[[[info counts] w] s'] k'] Hgen]; [evaluate | evaluate |].
  exists info, counts, w, s', k'. split; [exact Hgen |].
  assert (Forall Detailed.in_bounds (Detailed.candidates Scenarios.detailed_crowd))
    as Hin.
  { apply Forall_forall. intros c Hc.
    apply elem_of_replicate in Hc as [-> _].
    repeat split; vm_compute; discriminate. }
  assert (Detailed.wf Scenarios.detailed_frozen Scenarios.detailed_crowd) as Hwf
    by evaluate.
  exact (detailed_zero_policy_deviation_copies_ideology
           Scenarios.detailed_frozen Scenarios.steady
           Scenarios.detailed_crowd 0 Hwf (reflexivity _) Hin
           info counts w s' k' Hgen).
Defined.
